(** * agentpy: experiment orchestration and the simulation state machine

    A shallow embedding of [agentpy/experiment.py] (class [Experiment]), of
    the grid colouring and the animation frames of [agentpy/analysis.py]
    and of the parts of the model class that its tests exercise, with the
    properties of the design document stated and settled against it and
    further properties of the code proved beside them.

    Python dictionaries whose iteration order cannot influence a result
    are finite maps ([gmap]); dictionaries that the code walks with
    [.items()] while mutating something else are association lists in
    insertion order.  Exceptions are values of the [result] monad. *)

From stdpp Require Import gmap strings list fin_maps.
From Stdlib Require Import ZArith Lia.

(** ** Python values, exceptions and list primitives *)

Module Py.

Inductive exn :=
| TypeError
| ValueError
| KeyError
| IndexError
| AttributeError
| ZeroDivisionError
| RuntimeLimitError
| AttributeRecordError
| NotFoundError
| TraitError.

Inductive result (A : Type) :=
| Ok (a : A)
| Raise (e : exn).
Arguments Ok {A} a.
Arguments Raise {A} e.

#[global] Instance result_ret : MRet result := @Ok.
#[global] Instance result_bind : MBind result := λ A B f r,
  match r with
  | Ok a => f a
  | Raise e => Raise e
  end.

#[global] Instance exn_eq_dec : EqDecision exn.
Proof. solve_decision. Defined.

#[global] Instance result_eq_dec `{EqDecision A} : EqDecision (result A).
Proof. solve_decision. Defined.

(** A [for] loop whose body may raise: the first exception ends it. *)
Fixpoint for_each {A S : Type} (body : S → A → result S) (s : S) (l : list A)
  : result S :=
  match l with
  | [] => Ok s
  | x :: l => s' ← body s x; for_each body s' l
  end.

(** The elements of a list without repetitions, in order of first
    appearance. *)
Fixpoint distinct {A : Type} `{EqDecision A} (l : list A) : list A :=
  match l with
  | [] => []
  | x :: l => x :: filter (λ y, y ≠ x) (distinct l)
  end.

(** Values that occur as parameters, table cells and scalar outputs.
    Lists and dictionaries are the unhashable ones; [PNaN] is the
    floating-point filler pandas puts in a cell without a value. *)
Inductive pyval :=
| PNone
| PNaN
| PInt (z : Z)
| PStr (s : string)
| PList (l : list Z)
| PDict (d : list (string * Z)).

#[global] Instance pyval_eq_dec : EqDecision pyval.
Proof. solve_decision. Defined.

Definition hashable (v : pyval) : bool :=
  match v with
  | PList _ | PDict _ => false
  | _ => true
  end.

(** [l * n]: [n] copies of [l] one after the other, none when [n <= 0]. *)
Definition list_mul {A : Type} (l : list A) (n : Z) : list A :=
  concat (replicate (Z.to_nat n) l).

(** [l[i]], negative positions counting from the end. *)
Definition getitem {A : Type} (l : list A) (i : Z) : result A :=
  let n := Z.of_nat (length l) in
  let j := if (i <? 0)%Z then (i + n)%Z else i in
  if (j <? 0)%Z then Raise IndexError
  else match l !! Z.to_nat j with
       | Some x => Ok x
       | None => Raise IndexError
       end.

(** [a % b] and [a // b] (floored, as [Z.modulo] and [Z.div] are). *)
Definition mod_ (a b : Z) : result Z :=
  if (b =? 0)%Z then Raise ZeroDivisionError else Ok (a mod b)%Z.

Definition floordiv (a b : Z) : result Z :=
  if (b =? 0)%Z then Raise ZeroDivisionError else Ok (a / b)%Z.

(** [enumerate(l)] *)
Definition enumerate {A : Type} (l : list A) : list (Z * A) :=
  imap (λ i x, (Z.of_nat i, x)) l.

(** [range(n)] *)
Definition range (n : Z) : list Z := seqZ 0 n.

End Py.

Export Py.

(** ** [tools.make_list] *)

Module Tools.

(** An optional argument that takes one value or a list of them. *)
Inductive arg (A : Type) :=
| Absent
| Single (a : A)
| Several (l : list A).
Arguments Absent {A}.
Arguments Single {A} a.
Arguments Several {A} l.

(** Modelled from the spec: [tools.make_list] is not among the sources.
    The spec has the scenarios default to one implicit no-scenario
    placeholder and takes a single parameter set or an ordered list; the
    call site in [Experiment.__init__] documents the rest: the input is
    turned into a list if only a single value is given, and [keep_none]
    assures that [make_list(None)] returns [[None]].  A list is handed
    back as it is, whatever its length. *)
Definition make_list {A : Type} (element : arg A) (keep_none : bool)
  : list (option A) :=
  match element with
  | Absent => if keep_none then [None] else []
  | Single a => [Some a]
  | Several l => Some <$> l
  end.

End Tools.

Export Tools.

(** ** The slice of pandas the experiment uses *)

Module Pandas.

(** A column label: a parameter name, or a position when the data had
    no names. *)
Inductive label :=
| LName (s : string)
| LPos (i : Z).

#[global] Instance label_eq_dec : EqDecision label.
Proof. solve_decision. Defined.

#[global] Instance label_countable : Countable label.
Proof.
  refine (inj_countable'
            (λ l, match l with LName s => inl s | LPos i => inr i end)
            (λ x, match x with inl s => LName s | inr i => LPos i end) _).
  by intros [].
Defined.

(** A parameter dictionary. *)
Abbreviation pdict := (gmap label pyval).

(** A row: its index entry (one number per index level, the outermost
    first) and its cells; a column without a cell in this row reads
    [PNaN]. *)
Record Row := mkRow {
  row_index : list Z;
  row_cells : gmap label pyval
}.

Record DataFrame := mkDataFrame {
  df_columns : list label;
  df_rows : list Row
}.

#[global] Instance Row_eq_dec : EqDecision Row.
Proof. solve_decision. Defined.

#[global] Instance DataFrame_eq_dec : EqDecision DataFrame.
Proof. solve_decision. Defined.

(** The cells of one record handed to [pd.DataFrame]: a dictionary gives
    its items, the lone [None] of an absent argument a single unnamed
    column [0]. *)
Definition record_cells (r : option pdict) : pdict :=
  match r with
  | Some d => d
  | None => {[ LPos 0 := PNone ]}
  end.

(** The double nearest to an integer, ties to the even mantissa: exact up
    to 53 bits.  A float with an integral value is the [PInt] of that
    value, as [==] and [hash] of Python have it. *)
Definition float64 (z : Z) : Z :=
  let a := Z.abs z in
  let e := (Z.log2 a - 52)%Z in
  if (e <=? 0)%Z then z
  else
    let q := Z.shiftr a e in
    let r := Z.land a (Z.ones e) in
    let half := Z.shiftl 1 (e - 1) in
    let q := if (half <? r)%Z || ((r =? half)%Z && Z.odd q)
             then (q + 1)%Z else q in
    (Z.sgn z * Z.shiftl q e)%Z.

Definition is_number (v : pyval) : bool :=
  match v with
  | PNone | PNaN | PInt _ => true
  | _ => false
  end.

Definition is_nan (v : pyval) : bool :=
  match v with
  | PNaN => true
  | _ => false
  end.

Definition is_none (v : pyval) : bool :=
  match v with
  | PNone => true
  | _ => false
  end.

Definition is_int (v : pyval) : bool :=
  match v with
  | PInt _ => true
  | _ => false
  end.

(** The objects of a column are stored as floats when they are numbers
    and missing values only, with a NaN among them or with [None] beside
    a number; they stay the objects they are otherwise (so with a string
    among them, and when all are [None] or all are integers). *)
Definition as_floats (s : list pyval) : bool :=
  forallb is_number s
  && (existsb is_nan s || (existsb is_none s && existsb is_int s)).

(** In a column of floats [None] is NaN and an integer the float of
    it. *)
Definition to_float (v : pyval) : pyval :=
  match v with
  | PNone => PNaN
  | PInt z => PInt (float64 z)
  | _ => v
  end.

(** The conversion of the objects of a column, a missing cell being
    NaN. *)
Definition convert_objects (s : list pyval) : list pyval :=
  if as_floats s then to_float <$> s else s.

(** [pd.DataFrame(data)] for a list of records: one row per record under
    a fresh range index, the columns being the keys met, each stored as
    the conversion of its objects has it.  Integers are those of the
    64-bit range.  The keys of a record come in the order of the finite
    map, the order in which a dictionary was filled not being kept. *)
Definition DataFrame_of (data : list (option pdict)) : DataFrame :=
  let cells := record_cells <$> data in
  let floats c := as_floats ((λ d, default PNaN (d !! c)) <$> cells) in
  {| df_columns := distinct (cells ≫= λ d, elements (dom d));
     df_rows :=
       imap (λ i d,
           mkRow [Z.of_nat i]
             (map_imap (λ c v, Some (if floats c then to_float v else v)) d))
         cells |}.

(** [df[col]] *)
Definition column (df : DataFrame) (col : label) : list pyval :=
  (λ r, default PNaN (row_cells r !! col)) <$> df_rows df.

(** [s.unique()]: the distinct values in order of appearance; pandas
    hashes every value to find them, which raises [TypeError] on an
    unhashable one. *)
Definition unique (s : list pyval) : result (list pyval) :=
  if forallb hashable s then Ok (distinct s) else Raise TypeError.

(** [s[0]] under a range index. *)
Definition first (s : list pyval) : result pyval :=
  match s with
  | v :: _ => Ok v
  | [] => Raise KeyError
  end.

(** [df.drop(col, inplace=True, axis=1)] *)
Definition drop (col : label) (df : DataFrame) : DataFrame :=
  {| df_columns := filter (λ c, c ≠ col) (df_columns df);
     df_rows := (λ r, mkRow (row_index r) (delete col (row_cells r)))
                  <$> df_rows df |}.

(** [df.empty]: one of the two axes has length zero. *)
Definition empty (df : DataFrame) : bool :=
  bool_decide (df_columns df = []) || bool_decide (df_rows df = []).

(** What a field of a run's output holds: a table or anything else. *)
Inductive leaf :=
| Frame (df : DataFrame)
| Scalar (v : pyval).

#[global] Instance leaf_eq_dec : EqDecision leaf.
Proof. solve_decision. Defined.

Definition is_frame (x : leaf) : bool :=
  match x with
  | Frame _ => true
  | Scalar _ => false
  end.

Definition frame_rows (x : leaf) : list Row :=
  match x with
  | Frame df => df_rows df
  | Scalar _ => []
  end.

Definition frame_columns (x : leaf) : list label :=
  match x with
  | Frame df => df_columns df
  | Scalar _ => []
  end.

(** [pd.concat(objs)]: the tables stacked in the order of the list, over
    the union of their columns in order of first appearance; nothing to
    stack is a [ValueError], an entry that is not a table a [TypeError].
    The cells are taken as the tables hold them, a column that a table
    lacks reading NaN in its rows. *)
Definition concat_frames (objs : list leaf) : result DataFrame :=
  match objs with
  | [] => Raise ValueError
  | _ =>
      if forallb is_frame objs
      then Ok {| df_columns := distinct (objs ≫= frame_columns);
                 df_rows := objs ≫= frame_rows |}
      else Raise TypeError
  end.

End Pandas.

Export Pandas.

(** ** [agentpy/experiment.py] *)

Module experiment.

(** A field of a run's output: a leaf, or a [DataDict] of leaves (the
    variables of a run, one table per object type). *)
Inductive value :=
| Leaf (x : leaf)
| DataDict (items : list (string * leaf)).

#[global] Instance value_eq_dec : EqDecision value.
Proof. solve_decision. Defined.

(** The output of one run, in the order of its [.items()]. *)
Abbreviation bundle := (list (string * value)).

(** An entry of [combined_output]: the list that [append] grows, or for
    the variables a dictionary of such lists, one per object type. *)
Inductive slot :=
| Values (l : list value)
| ByType (d : gmap string (list leaf)).

(** An entry of [self.output]. *)
Inductive outval :=
| Fixed (fixed_pars : pdict)
| Table (df : DataFrame)
| FixedVaried (fixed : pdict) (varied : DataFrame)
| SubDataDict (d : gmap string DataFrame)
| Listed (l : list value).

#[global] Instance outval_eq_dec : EqDecision outval.
Proof. solve_decision. Defined.

(** The attributes of an [Experiment] that the runs read.  The log entry
    of [self.output] holds wall-clock times and is left out. *)
Record Experiment := mkExperiment {
  iterations : Z;
  record : bool;
  scenarios : list (option string);
  parameters : list (option pdict);
  output : gmap string outval;
  parameters_per_run : list (option pdict);
  number_of_runs : Z
}.

(** The body of the loop over [df.columns] in [_parameters_to_output],
    on the pair of [fixed_pars] and [df]. *)
Definition document_column (st : pdict * DataFrame) (col : label)
  : result (pdict * DataFrame) :=
  let s := column st.2 col in
  u ← unique s;
  if bool_decide (length u = 1)
  then v ← first (column st.2 col);
       Ok (<[col := v]> st.1, drop col st.2)
  else Ok st.

(** [Experiment._parameters_to_output]: the value stored under
    ['parameters'].  The loop walks the columns the table had at its
    start. *)
Definition _parameters_to_output (parameters : list (option pdict))
  : result outval :=
  let df := DataFrame_of parameters in
  st ← for_each document_column (∅, df) (df_columns df);
  let fixed_pars := st.1 in
  let df := st.2 in
  if bool_decide (fixed_pars ≠ ∅) && empty df
  then Ok (Fixed fixed_pars)
  else if bool_decide (fixed_pars = ∅) && negb (empty df)
  then Ok (Table df)
  else Ok (FixedVaried fixed_pars df).

(** [Experiment.__init__] *)
Definition __init__ (parameters : arg pdict) (scenarios : arg string)
    (iterations : Z) (record : bool) : result Experiment :=
  let scenarios := make_list scenarios true in
  let parameters := make_list parameters true in
  report ← _parameters_to_output parameters;
  let parameters_per_run := list_mul parameters iterations in
  Ok {| iterations := iterations;
        record := record;
        scenarios := scenarios;
        parameters := parameters;
        output := {[ "parameters" := report ]};
        parameters_per_run := parameters_per_run;
        number_of_runs := Z.of_nat (length parameters_per_run) |}.

(** [isinstance(value, DataDict)], with the items when it holds. *)
Definition as_DataDict (v : value) : option (list (string * leaf)) :=
  match v with
  | DataDict items => Some items
  | Leaf _ => None
  end.

(** [s in l] for a string and a list of output values: the elements
    are compared one after the other; the comparison with a table has no
    truth value. *)
Fixpoint str_in_list (s : string) (l : list value) : result bool :=
  match l with
  | [] => Ok false
  | Leaf (Frame _) :: _ => Raise ValueError
  | Leaf (Scalar (PStr s')) :: l =>
      if bool_decide (s' = s) then Ok true else str_in_list s l
  | _ :: l => str_in_list s l
  end.

(** The body of the loop over the object types of a variables field.
    Should [combined_output[key]] be a list, the membership test raises
    on a table in it, and the subscript with a string raises
    otherwise. *)
Definition add_by_type (key : string) (combined_output : gmap string slot)
    (item : string * leaf) : result (gmap string slot) :=
  match combined_output !! key with
  | Some (ByType d) =>
      let d := if bool_decide (d !! item.1 = None)
               then <[item.1 := []]> d else d in
      Ok (<[key := ByType (<[item.1 := default [] (d !! item.1) ++ [item.2]]> d)]>
            combined_output)
  | Some (Values l) => _ ← str_in_list item.1 l; Raise TypeError
  | None => Raise KeyError
  end.

(** The branch for the other output types: [append] on a dictionary is
    an [AttributeError]. *)
Definition add_other (key : string) (v : value)
    (combined_output : gmap string slot) : result (gmap string slot) :=
  let combined_output :=
    if bool_decide (combined_output !! key = None)
    then <[key := Values []]> combined_output else combined_output in
  match combined_output !! key with
  | Some (Values l) => Ok (<[key := Values (l ++ [v])]> combined_output)
  | Some (ByType _) => Raise AttributeError
  | None => Raise KeyError
  end.

(** The body of the loop of [_add_single_output_to_combined]. *)
Definition add_field (record : bool) (combined_output : gmap string slot)
    (item : string * value) : result (gmap string slot) :=
  let key := item.1 in
  if bool_decide (key ∈ ["parameters"; "log"]) then Ok combined_output
  else if bool_decide (key = "variables") && negb record
  then Ok combined_output
  else
    match (if bool_decide (key = "variables")
           then as_DataDict item.2 else None) with
    | Some items =>
        let combined_output :=
          if bool_decide (combined_output !! key = None)
          then <[key := ByType ∅]> combined_output else combined_output in
        for_each (add_by_type key) combined_output items
    | None => add_other key item.2 combined_output
    end.

(** [Experiment._add_single_output_to_combined] *)
Definition _add_single_output_to_combined (record : bool)
    (single_output : bundle) (combined_output : gmap string slot)
  : result (gmap string slot) :=
  for_each (add_field record) combined_output single_output.

(** [isinstance(value, pd.DataFrame)] *)
Definition value_is_frame (v : value) : bool :=
  match v with
  | Leaf (Frame _) => true
  | _ => false
  end.

Definition leaves (l : list value) : list leaf :=
  omap (λ v, match v with Leaf x => Some x | DataDict _ => None end) l.

(** The body of the loop of [_combine_dataframes].  Iterating over a
    dictionary yields its keys, never a table, so a [ByType] entry always
    reaches the second branch. *)
Definition combine_field (output : gmap string outval) (item : string * slot)
  : result (gmap string outval) :=
  match item.2 with
  | Values values =>
      if bool_decide (values ≠ []) && forallb value_is_frame values
      then df ← concat_frames (leaves values);
           Ok (<[item.1 := Table df]> output)
      else if bool_decide (item.1 ≠ "log")
      then Ok (<[item.1 := Listed values]> output)
      else Ok output
  | ByType values =>
      sub ← for_each (λ sub kv, df ← concat_frames kv.2;
                                Ok (<[kv.1 := df]> sub))
                     ∅ (map_to_list values);
      Ok (<[item.1 := SubDataDict sub]> output)
  end.

(** [Experiment._combine_dataframes] *)
Definition _combine_dataframes (combined_output : gmap string slot)
    (output : gmap string outval) : result (gmap string outval) :=
  for_each combine_field output (map_to_list combined_output).

(** One unit of work: the parameters, the run id and the scenario a model
    is instantiated with. *)
Abbreviation work := (option pdict * Z * option string)%type.

(** [pool.map(f, ids)]: the results in the order of [ids]; an exception
    in a worker is raised again. *)
Fixpoint pool_map {A B : Type} (f : A → result B) (ids : list A)
  : result (list B) :=
  match ids with
  | [] => Ok []
  | i :: ids => y ← f i; ys ← pool_map f ids; Ok (y :: ys)
  end.

(** The arithmetic of [_single_sim]: the work a pooled worker takes up
    for [sim_id]. *)
Definition _single_sim_work (self : Experiment) (sim_id : Z) : result work :=
  let n := Z.of_nat (length (scenarios self)) in
  sc_id ← mod_ sim_id n;
  run_id ← floordiv (sim_id - sc_id) n;
  p ← getitem (parameters self) run_id;
  scenario ← getitem (scenarios self) sc_id;
  Ok (p, run_id, scenario).

(** The models instantiated by the sequential loops of [run], in order:
    [for i, parameters in enumerate(self.parameters_per_run)] around
    [for scenario in self.scenarios]. *)
Definition sequential_work (self : Experiment) : list work :=
  enumerate (parameters_per_run self) ≫= λ ip,
    (λ scenario, (ip.2, ip.1, scenario)) <$> scenarios self.

(** [sim_ids] of the pooled branch of [run]. *)
Definition sim_ids (self : Experiment) : list Z :=
  range (number_of_runs self * Z.of_nat (length (scenarios self))).

(** Aggregation of bundles that have all been collected, as the pooled
    branch does with [output_list]. *)
Definition aggregate (record : bool) (output_list : list bundle)
  : result (gmap string outval) :=
  combined_output ←
    for_each (λ combined_output single_output,
        _add_single_output_to_combined record single_output combined_output)
      ∅ output_list;
  _combine_dataframes combined_output ∅.

Section Run.

(** [self.model(parameters, run_id=i, scenario=scenario).run(display=False)]:
    the model class is an argument of the experiment.  Its runs are taken
    to return their output; one that raises ends the experiment. *)
Variable model_run : work → bundle.

(** [Experiment._single_sim] *)
Definition _single_sim (self : Experiment) (sim_id : Z) : result bundle :=
  w ← _single_sim_work self sim_id; Ok (model_run w).

(** The two branches of [Experiment.run] up to [combined_output]. *)
Definition run_normal (self : Experiment) : result (gmap string slot) :=
  for_each (λ combined_output ip,
      for_each (λ combined_output scenario,
          _add_single_output_to_combined (record self)
            (model_run (ip.2, ip.1, scenario)) combined_output)
        combined_output (scenarios self))
    ∅ (enumerate (parameters_per_run self)).

Definition run_parallel (self : Experiment) : result (gmap string slot) :=
  output_list ← pool_map (_single_sim self) (sim_ids self);
  for_each (λ combined_output single_output,
      _add_single_output_to_combined (record self) single_output
        combined_output)
    ∅ output_list.

(** [Experiment.run]: [pool] tells whether a pool was passed; the result
    is [self.output]. *)
Definition run (self : Experiment) (pool : bool)
  : result (gmap string outval) :=
  combined_output ← (if pool then run_parallel self else run_normal self);
  _combine_dataframes combined_output (output self).

End Run.

(** *** [Experiment.interactive] *)

(** What [interactive] may raise beside the exceptions of the library
    calls: the name [AgentpyError], which it raises for an experiment
    without varied parameters, is not among the imports of the module
    and not defined in it. *)
Inductive raised :=
| PythonError (e : exn)
| NameError (name : string).

(** What [var_pars] is bound to: a table, a column of one, or a
    value. *)
Inductive var_pars :=
| VTable (df : DataFrame)
| VColumn (s : list pyval)
| VValue (v : pyval).

(** ['varied' in l] for a list of output values: the elements are
    compared one after the other; the comparison with a table has no
    truth value. *)
Fixpoint varied_in_list (l : list value) : result bool :=
  match l with
  | [] => Ok false
  | Leaf (Frame _) :: _ => Raise ValueError
  | Leaf (Scalar (PStr s)) :: l =>
      if bool_decide (s = "varied") then Ok true else varied_in_list l
  | _ :: l => varied_in_list l
  end.

(** The block "Get variable parameters" of [interactive], on
    [self.output['parameters']]. *)
Definition var_pars_of (report : outval) : raised + var_pars :=
  match report with
  | Fixed fixed_pars =>
      match fixed_pars !! LName "varied" with
      | Some v => inr (VValue v)
      | None => inl (NameError "AgentpyError")
      end
  | Table df =>
      if bool_decide (LName "varied" ∈ df_columns df)
      then inr (VColumn (column df (LName "varied")))
      else inr (VTable df)
  | FixedVaried _ df => inr (VTable df)
  | SubDataDict d =>
      match d !! "varied" with
      | Some df => inr (VTable df)
      | None => inl (NameError "AgentpyError")
      end
  | Listed l =>
      match varied_in_list l with
      | Raise e => inl (PythonError e)
      | Ok true => inl (PythonError TypeError)
      | Ok false => inl (NameError "AgentpyError")
      end
  end.

(** A [SelectionSlider] as [interactive] configures it. *)
Record Slider := mkSlider {
  slider_options : list pyval;
  slider_value : pyval;
  slider_description : label
}.

(** [d[k] = v] on a dictionary in insertion order. *)
Fixpoint dict_set {K V : Type} `{EqDecision K} (k : K) (v : V)
    (d : list (K * V)) : list (K * V) :=
  match d with
  | [] => [(k, v)]
  | kv :: d => if decide (kv.1 = k) then (k, v) :: d else kv :: dict_set k v d
  end.

(** [x == y] on values: NaN equals nothing, itself included. *)
Definition py_eq (x y : pyval) : bool :=
  negb (is_nan x) && bool_decide (x = y).

(** [ipywidgets.SelectionSlider(options=..., value=...,
    description=...)]: the traits are validated when the widget is
    created.  The value has to be found among the options by [==], and
    the description has to be a string; each failure is a
    [TraitError]. *)
Definition SelectionSlider (options : list pyval) (value : pyval)
    (description : label) : result Slider :=
  match description with
  | LName _ =>
      if existsb (py_eq value) options
      then Ok (mkSlider options value description)
      else Raise TraitError
  | LPos _ => Raise TraitError
  end.

(** The block "Create widget dict" of [interactive], for a table
    [var_pars]: one slider per column, over the values of the column and
    set to the first of them. *)
Definition widget_dict_of (var_pars : DataFrame)
  : result (list (label * Slider)) :=
  for_each (λ widget_dict par_key,
      let par_list := column var_pars par_key in
      v ← getitem par_list 0;
      w ← SelectionSlider par_list v par_key;
      Ok (dict_set par_key w widget_dict))
    [] (df_columns var_pars).

#[global] Instance LName_inj : Inj (=) (=) LName.
Proof. by intros s1 s2 [= ->]. Qed.

(** [var_run] with its keyword arguments [param_updates], up to the
    model it instantiates: the
    parameters are a copy of the first parameter set, updated. *)
Definition var_run (self : Experiment) (param_updates : gmap string pyval)
  : result pdict :=
  p ← getitem (parameters self) 0;
  match p with
  | None => Raise TypeError
  | Some d => Ok (kmap (M2 := gmap label) LName param_updates ∪ d)
  end.

End experiment.

(** ** The model class: time stepping, recorder and object registry *)

Module model.

(** The hard ceiling on the number of steps. *)
Definition hard_ceiling : Z := 1000000.

Record Agent := mkAgent {
  agent_id : Z;
  agent_type : string
}.

(** An environment holds the ids of its member agents. *)
Record Env := mkEnv {
  env_id : Z;
  env_type : string;
  env_agents : gset Z
}.

Record Registry := mkRegistry {
  next_id : Z;
  agents : list Agent;
  envs : list Env
}.

Record Model := mkModel {
  t : Z;
  t_max : Z;
  p : gmap string Z;
  _stop : bool;
  attrs : gmap string Z;
  _log : gmap string (list Z);
  registry : Registry
}.

Definition set_t (v : Z) (m : Model) : Model :=
  mkModel v (t_max m) (p m) (_stop m) (attrs m) (_log m) (registry m).

Definition set_t_max (v : Z) (m : Model) : Model :=
  mkModel (t m) v (p m) (_stop m) (attrs m) (_log m) (registry m).

Definition set_p (v : gmap string Z) (m : Model) : Model :=
  mkModel (t m) (t_max m) v (_stop m) (attrs m) (_log m) (registry m).

Definition set_stop (v : bool) (m : Model) : Model :=
  mkModel (t m) (t_max m) (p m) v (attrs m) (_log m) (registry m).

Definition set_attrs (v : gmap string Z) (m : Model) : Model :=
  mkModel (t m) (t_max m) (p m) (_stop m) v (_log m) (registry m).

Definition set_log (v : gmap string (list Z)) (m : Model) : Model :=
  mkModel (t m) (t_max m) (p m) (_stop m) (attrs m) v (registry m).

Definition set_registry (v : Registry) (m : Model) : Model :=
  mkModel (t m) (t_max m) (p m) (_stop m) (attrs m) (_log m) v.

(** Modelled from the spec: the constructor of [Model] (the framework
    module is not among the sources).  A Model is created fresh per run,
    at time 0 under the hard ceiling, with an empty registry whose
    counter issues 1 first ([addAgents(3)] on a fresh Model yields ids
    [1,2,3]). *)
Definition new_model (parameters : gmap string Z) : Model :=
  {| t := 0;
     t_max := hard_ceiling;
     p := parameters;
     _stop := false;
     attrs := ∅;
     _log := ∅;
     registry := {| next_id := 1; agents := []; envs := [] |} |}.

(** Modelled from the spec: [Model.stop], which sets the stop flag. *)
Definition stop (m : Model) : Model := set_stop true m.

(** How a run ended, after how many calls of the step hook and in which
    state.  [OutOfFuel] stands for a loop still going when the bound on
    the unfolding of the model is used up. *)
Inductive outcome :=
| Returned (steps : nat) (m : Model)
| Failed (e : exn) (steps : nat) (m : Model)
| OutOfFuel (steps : nat) (m : Model).

Definition final (o : outcome) : Model :=
  match o with
  | Returned _ m | Failed _ _ m | OutOfFuel _ m => m
  end.

Definition executed (o : outcome) : nat :=
  match o with
  | Returned n _ | Failed _ n _ | OutOfFuel n _ => n
  end.

(** Modelled from the spec: the effective step limit of [Model.run],
    resolved as the explicit [steps] argument, else [parameters['steps']],
    else none, which leaves the hard ceiling. *)
Definition effective_limit (steps : option Z) (m : Model) : option Z :=
  match steps with
  | Some s => Some s
  | None => p m !! "steps"
  end.

Section Hooks.

(** The user-overridable hooks. *)
Variable setup : Model → Model.
Variable step : Model → Model.

(** Modelled from the spec: the loop of [Model.run].  At each step
    boundary: a clock that has reached the ceiling [t_max] raises
    [RuntimeLimitError]; a set stop flag or a reached limit ends the
    run; otherwise the clock advances and the step hook runs.  The clock
    advances before the hook and the ceiling raises even under a
    configured limit, as [tests/test_model.py] has it: a hook that stops
    at [t == 2] leaves [t == 2], and [t_max = 0] with [steps = 1] raises
    at [t == 0]. *)
Fixpoint step_loop (fuel : nat) (limit : option Z) (done : nat) (m : Model)
  : outcome :=
  if bool_decide (t_max m ≤ t m)%Z then Failed RuntimeLimitError done m
  else if _stop m || from_option (λ l, bool_decide (l ≤ t m)%Z) false limit
  then Returned done m
  else match fuel with
       | O => OutOfFuel done m
       | S fuel => step_loop fuel limit (S done) (step (set_t (t m + 1) m))
       end.

(** Modelled from the spec: [Model.run(steps)], which runs [setup()] once
    and then the loop. *)
Definition run (fuel : nat) (steps : option Z) (m : Model) : outcome :=
  let limit := effective_limit steps m in
  step_loop fuel limit 0 (setup m).

End Hooks.

(** A hook that leaves the clock and its ceiling alone. *)
Definition keeps_clock (h : Model → Model) : Prop :=
  ∀ m, t (h m) = t m ∧ t_max (h m) = t_max m.

(** A hook that never calls [stop()]. *)
Definition never_stops (h : Model → Model) : Prop :=
  ∀ m, _stop m = false → _stop (h m) = false.

(** Attribute assignment on the model, [model.name = v]. *)
Definition setattr (name : string) (v : Z) (m : Model) : Model :=
  set_attrs (<[name := v]> (attrs m)) m.

(** Modelled from the spec: [var_keys], the known variable names of the
    object; they need not be declared, assigning the attribute is
    enough. *)
Definition var_keys (m : Model) : list string :=
  (map_to_list (attrs m)).*1.

Section Recorder.

(** [tests/test_model.py] counts one key more in the log than variables
    were recorded: the recorder keeps a series of its own beside theirs.
    Neither the tests nor the design document give its key or what it
    holds; they are parameters, the series being brought up to date from
    the clock at each recording. *)
Variable index_key : string.
Variable index_series : Z → list Z → list Z.

(** Modelled from the spec: the body of [record] for one name.  The
    current value of the attribute is read ([AttributeRecordError] if it
    does not resolve) and one value is appended to the series of that
    name. *)
Definition record_one (m : Model) (name : string) : result Model :=
  match attrs m !! name with
  | None => Raise AttributeRecordError
  | Some v =>
      let log := <[index_key :=
                     index_series (t m) (default [] (_log m !! index_key))]>
                   (_log m) in
      Ok (set_log (<[name := default [] (log !! name) ++ [v]]> log) m)
  end.

(** Modelled from the spec: [record(names)] for an ordered sequence of
    names. *)
Definition record (names : list string) (m : Model) : result Model :=
  for_each record_one m names.

End Recorder.

Definition agent_ids (m : Model) : list Z :=
  agent_id <$> agents (registry m).

(** Modelled from the spec: [addAgents(n, type)], which creates [n]
    objects whose ids continue the counter of the model. *)
Definition add_agents (n : Z) (type : string) (m : Model) : Model :=
  let r := registry m in
  set_registry
    {| next_id := next_id r + Z.max 0 n;
       agents := agents r ++ ((λ i, mkAgent i type) <$> seqZ (next_id r) n);
       envs := envs r |} m.

(** Modelled from the spec: [addEnv(type)], same for one environment,
    without members at first. *)
Definition add_env (type : string) (m : Model) : Model :=
  let r := registry m in
  set_registry
    {| next_id := next_id r + 1;
       agents := agents r;
       envs := envs r ++ [mkEnv (next_id r) type ∅] |} m.

(** Entering agents into the environment with id [e]. *)
Definition env_add_agents (e : Z) (ids : list Z) (m : Model) : Model :=
  let r := registry m in
  set_registry
    {| next_id := next_id r;
       agents := agents r;
       envs := (λ x, if bool_decide (env_id x = e)
                     then mkEnv (env_id x) (env_type x)
                            (env_agents x ∪ list_to_set ids)
                     else x) <$> envs r |} m.

(** Modelled from the spec: [delete(obj)] for the object with id [i]: it
    leaves the Registry and every membership set; an object that is not
    registered is a [NotFoundError]. *)
Definition delete (i : Z) (m : Model) : result Model :=
  let r := registry m in
  if bool_decide (i ∈ agent_id <$> agents r)
     || bool_decide (i ∈ env_id <$> envs r)
  then Ok (set_registry
             {| next_id := next_id r;
                agents := filter (λ a, agent_id a ≠ i) (agents r);
                envs := (λ x, mkEnv (env_id x) (env_type x)
                                (env_agents x ∖ {[ i ]}))
                        <$> filter (λ x, env_id x ≠ i) (envs r) |} m)
  else Raise NotFoundError.

End model.

(** ** [agentpy/analysis.py]: colouring a grid, and the frames of an
    animation *)

Module analysis.

(** A value of a grid: [np.nan] (an empty patch), a number or a
    string. *)
Inductive cell :=
| CNaN
| CInt (z : Z)
| CStr (s : string).

#[global] Instance cell_eq_dec : EqDecision cell.
Proof. solve_decision. Defined.

#[global] Instance cell_countable : Countable cell.
Proof.
  refine (inj_countable'
    (λ c, match c with
          | CNaN => inl ()
          | CInt z => inr (inl z)
          | CStr s => inr (inr s)
          end)
    (λ x, match x with
          | inl _ => CNaN
          | inr (inl z) => CInt z
          | inr (inr s) => CStr s
          end) _).
  by intros [].
Defined.

(** A grid and what it is made of: a value, or a list of items. *)
#[warnings="-register-all"] Inductive item (A : Type) :=
| Cell (a : A)
| Row (l : list (item A)).
Arguments Cell {A} a.
Arguments Row {A} l.

(** [[f(x) for x in l]], where [f] may raise. *)
Definition comprehension {A B : Type} (f : A → result B)
  : list A → result (list B) :=
  fix go l :=
    match l with
    | [] => Ok []
    | x :: l => y ← f x; ys ← go l; Ok (y :: ys)
    end.

(** [i is np.nan] *)
Definition is_nan (i : item cell) : bool :=
  match i with
  | Cell CNaN => true
  | _ => false
  end.

(** [color_dict[i]]; a list is no key. *)
Definition lookup_color (color_dict : gmap cell cell) (i : item cell)
  : result (item cell) :=
  match i with
  | Cell c =>
      match color_dict !! c with
      | Some v => Ok (Cell v)
      | None => Raise KeyError
      end
  | Row _ => Raise TypeError
  end.

(** The characters of a string, which is what indexing and iterating
    over it give. *)
Definition chars (s : string) : list (item cell) :=
  (λ a, Cell (CStr (String a EmptyString))) <$> String.list_ascii_of_string s.

Section colors.

(** The 4-tuples of floats that [matplotlib.colors.to_rgba] returns;
    [clear] is [(0., 0., 0., 0.)]. *)
Context {rgba : Type}.
Variable clear : rgba.
Variable to_rgba : item cell → result rgba.

(** What a coloured grid holds: a value as it was or as [color_dict]
    gives it, or a converted colour. *)
Inductive shade :=
| Plain (c : cell)
| Rgba (c : rgba).

(** A grid that is handed on as it is. *)
Fixpoint plain (i : item cell) : item shade :=
  match i with
  | Cell c => Cell (Plain c)
  | Row l => Row (plain <$> l)
  end.

(** The [else] branch of [_apply_colors], on the elements of [grid]. *)
Definition color_cells (color_dict : option (gmap cell cell))
    (convert : bool) (grid : list (item cell)) : result (list (item shade)) :=
  grid ← match color_dict with
          | Some color_dict =>
              comprehension
                (λ i, if is_nan i then Ok i else lookup_color color_dict i)
                grid
          | None => Ok grid
          end;
  if convert
  then comprehension
         (λ i, if is_nan i then Ok (Cell (Rgba clear))
               else c ← to_rgba i; Ok (Cell (Rgba c)))
         grid
  else Ok (plain <$> grid).

(** [_apply_colors].  [grid[0]] is an [IndexError] on an empty list or
    string and a [TypeError] on a number.  Each comprehension makes a
    list; a string that goes through none is returned as it is. *)
Fixpoint _apply_colors (color_dict : option (gmap cell cell))
    (convert : bool) (grid : item cell) : result (item shade) :=
  match grid with
  | Row [] => Raise IndexError
  | Row ((Row _ :: _) as grid) =>
      l ← comprehension (_apply_colors color_dict convert) grid; Ok (Row l)
  | Row grid => l ← color_cells color_dict convert grid; Ok (Row l)
  | Cell (CStr s) =>
      match chars s with
      | [] => Raise IndexError
      | grid =>
          if bool_decide (color_dict = None) && negb convert
          then Ok (Cell (Plain (CStr s)))
          else l ← color_cells color_dict convert grid; Ok (Row l)
      end
  | Cell _ => Raise TypeError
  end.

(** [gridplot], up to the call of [imshow]: the grid it draws. *)
Definition gridplot (grid : item cell)
    (color_dict : option (gmap cell cell)) (convert : bool)
  : result (item shade) :=
  if bool_decide (color_dict ≠ None) || convert
  then _apply_colors color_dict convert grid
  else Ok (plain grid).

End colors.

Section animation.

(** The model that [animate] drives, through the methods and attributes
    it uses. *)
Context {Model : Type}.
Variable run_setup : Model → Model.
Variable create_output : Model → Model.
Variable run_step : Model → Model.
Variable _stop : Model → bool.
Variable t : Model → Z.

(** The variables of [animate] that the generator [frames] shares with
    it and with every other call of [frames]. *)
Record closure := mkClosure {
  model : Model;
  pre_steps : Z
}.

(** [animate] up to the definition of [frames]. *)
Definition animate (m : Model) (skip : Z) : closure :=
  let m := create_output (run_setup m) in
  {| model := fold_left (λ m _, run_step m) (range skip) m;
     pre_steps := 0 |}.

(** Where a call of [frames] stands: not started, suspended at the
    [yield] of the loop or at that of the [else] branch, or ended. *)
Inductive position :=
| Entry
| InLoop
| AfterElse
| Finished.

(** The test of the [while] loop and one round of it. *)
Definition loop (c : closure) : option Z * closure * position :=
  if _stop (model c) then (None, c, Finished)
  else
    let c' := if (pre_steps c <? 2)%Z
              then {| model := model c; pre_steps := pre_steps c + 1 |}
              else {| model := create_output (run_step (model c));
                      pre_steps := pre_steps c |} in
    (Some (t (model c')), c', InLoop).

(** [next] on a call of [frames]: the frame it yields, or none when it
    ends. *)
Definition next (c : closure) (p : position)
  : option Z * closure * position :=
  match p with
  | Entry =>
      if _stop (model c) then (Some (t (model c)), c, AfterElse)
      else loop c
  | InLoop => loop c
  | AfterElse | Finished => (None, c, Finished)
  end.

(** [list(frames())], if it ends within [fuel] calls of [next]; with the
    shared variables as the call leaves them. *)
Fixpoint drain (fuel : nat) (c : closure) (p : position)
  : option (list Z * closure) :=
  match fuel with
  | O => None
  | S fuel =>
      match next c p with
      | (None, c, _) => Some ([], c)
      | (Some frame, c, p) =>
          match drain fuel c p with
          | Some (l, c) => Some (frame :: l, c)
          | None => None
          end
      end
  end.

End animation.

(** *** Notions to state the properties of a coloured grid with *)

(** The values of a grid, in reading order. *)
Fixpoint cells {A : Type} (g : item A) : list A :=
  match g with
  | Cell a => [a]
  | Row l => l ≫= cells
  end.

(** The grid of the same shape whose values are the images under [f]. *)
Fixpoint map_item {A B : Type} (f : A → B) (g : item A) : item B :=
  match g with
  | Cell a => Cell (f a)
  | Row l => Row (map_item f <$> l)
  end.

Definition is_cell {A : Type} (g : item A) : bool :=
  match g with
  | Cell _ => true
  | Row _ => false
  end.

(** A grid in rows, rows of rows, and so on: no list is empty, and the
    elements of a list are all values or all lists. *)
Fixpoint proper {A : Type} (g : item A) : bool :=
  match g with
  | Cell _ => false
  | Row l =>
      match l with
      | [] => false
      | Cell _ :: _ => forallb is_cell l
      | Row _ :: _ => forallb proper l
      end
  end.

(** A two-dimensional grid, from its rows. *)
Definition grid2 {A : Type} (rows : list (list A)) : item A :=
  Row ((λ r, Row (Cell <$> r)) <$> rows).

(** [color_dict] has a colour for the value, should it need one. *)
Definition covered (color_dict : option (gmap cell cell)) (c : cell) : bool :=
  match color_dict, c with
  | None, _ | _, CNaN => true
  | Some d, _ => bool_decide (is_Some (d !! c))
  end.

(** The value after the translation by [color_dict], where it is
    covered. *)
Definition translate (color_dict : option (gmap cell cell)) (c : cell)
  : cell :=
  match color_dict, c with
  | None, _ | _, CNaN => c
  | Some d, _ => default c (d !! c)
  end.

End analysis.

(** ** Statements of the design document, and sample configurations *)

Module design.

Import experiment.

(** The number of runs the design document gives for an experiment:
    [len(parameters) × iterations × max(1, len(scenarios))]. *)
Definition claimed_number_of_runs (e : Experiment) : Z :=
  (Z.of_nat (length (parameters e)) * iterations e
   * Z.max 1 (Z.of_nat (length (scenarios e))))%Z.

Definition run_id_of (w : work) : Z := w.1.2.

(** "Each spec carries a deterministic run id equal to its index in this
    expansion." *)
Definition run_id_is_index (e : Experiment) : Prop :=
  ∀ (k : nat) (w : work),
    sequential_work e !! k = Some w → run_id_of w = Z.of_nat k.

(** "Distinct run specifications never share a run id." *)
Definition run_ids_distinct (e : Experiment) : Prop :=
  ∀ (j k : nat) (wj wk : work),
    j ≠ k → sequential_work e !! j = Some wj →
    sequential_work e !! k = Some wk → run_id_of wj ≠ run_id_of wk.

(** The column has one unique value, the test [len(s.unique()) == 1]. *)
Definition single (df : DataFrame) (c : label) : Prop :=
  length (distinct (column df c)) = 1.

(** The value a parameter set shows for a name in the table of the
    parameters. *)
Definition tabulated (d : pdict) (c : label) : pyval := default PNaN (d !! c).

(** A name occurs in a parameter list; a parameter is fixed when it is
    identical across every parameter set, varied when it differs across
    at least one pair. *)
Definition occurs (ps : list pdict) (c : label) : Prop :=
  ∃ d, d ∈ ps ∧ is_Some (d !! c).

Definition occurs_any (ps : list pdict) : Prop := ∃ c, occurs ps c.

Definition fixed_parameter (ps : list pdict) (c : label) : Prop :=
  ∀ d d', d ∈ ps → d' ∈ ps → tabulated d c = tabulated d' c.

Definition varied_parameter (ps : list pdict) (c : label) : Prop :=
  ∃ d d', d ∈ ps ∧ d' ∈ ps ∧ tabulated d c ≠ tabulated d' c.

Definition all_hashable (ps : list pdict) : Prop :=
  ∀ d c v, d ∈ ps → d !! c = Some v → hashable v = true.

(** "If all runs share every parameter value, a flat fixed mapping; if
    every parameter varies, one combined table; if both exist, an
    explicit two-part (fixed, varied) structure." *)
Definition report_shape_claim (ps : list pdict) : Prop :=
  let report := _parameters_to_output (Some <$> ps) in
  ((∀ c, occurs ps c → fixed_parameter ps c) →
   ∃ f, report = Ok (Fixed f))
  ∧ ((∀ c, occurs ps c → varied_parameter ps c) →
     ∃ df, report = Ok (Table df))
  ∧ ((∃ c, occurs ps c ∧ fixed_parameter ps c) →
     (∃ c, occurs ps c ∧ varied_parameter ps c) →
     ∃ f df, report = Ok (FixedVaried f df)).

(** Two parameter sets that agree on [a] and differ on [b]. *)
Definition sample_1 : pdict := {[ LName "a" := PInt 1; LName "b" := PInt 5 ]}.
Definition sample_2 : pdict := {[ LName "a" := PInt 1; LName "b" := PInt 6 ]}.

(** *** Merging the outputs of the runs *)

(** What [add_field] does with an item: nothing, the branch of the
    variable subdicts, or the branch of the other output types. *)
Inductive action :=
| Skip
| ToTypes (items : list (string * leaf))
| ToList (v : value).

Definition classify (record : bool) (item : string * value) : action :=
  if bool_decide (item.1 ∈ ["parameters"; "log"]) then Skip
  else if bool_decide (item.1 = "variables") && negb record then Skip
  else match (if bool_decide (item.1 = "variables")
              then as_DataDict item.2 else None) with
       | Some items => ToTypes items
       | None => ToList item.2
       end.

(** What an item adds to the list of [key], whether it is a variables
    subdict, and what it adds to the list of an object type. *)
Definition field_values (record : bool) (key : string)
    (item : string * value) : list value :=
  match classify record item with
  | ToList v => if decide (item.1 = key) then [v] else []
  | _ => []
  end.

Definition has_types (record : bool) (item : string * value) : bool :=
  match classify record item with
  | ToTypes _ => true
  | _ => false
  end.

Definition leaves_of (ty : string) (items : list (string * leaf)) : list leaf :=
  omap (λ it, if decide (it.1 = ty) then Some it.2 else None) items.

Definition type_leaves (record : bool) (ty : string)
    (item : string * value) : list leaf :=
  match classify record item with
  | ToTypes items => leaves_of ty items
  | _ => []
  end.

Definition as_values (l : list value) : option slot :=
  match l with
  | [] => None
  | _ => Some (Values l)
  end.

Definition as_list {A} (l : list A) : option (list A) :=
  match l with
  | [] => None
  | _ => Some l
  end.

(** The items of a list of bundles that have a variables field that is
    not a subdict of tables are not well typed: merging them raises once
    recording is on. *)
Definition variables_typed (item : string * value) : Prop :=
  item.1 = "variables" →
  ∃ items, item.2 = DataDict items ∧ Forall (λ it, is_frame it.2 = true) items.

(** [combined_output] once the items [its] have been added. *)
Definition combined_of (record : bool) (its : list (string * value))
    (combined_output : gmap string slot) : Prop :=
  (∀ key, key ≠ "variables" →
     combined_output !! key = as_values (its ≫= field_values record key))
  ∧ (if existsb (has_types record) its
     then ∃ d, combined_output !! "variables" = Some (ByType d)
               ∧ ∀ ty, d !! ty = as_list (its ≫= type_leaves record ty)
     else combined_output !! "variables" = None).

(** The tables of a list stacked, as [pd.concat] returns them. *)
Definition stack (objs : list leaf) : DataFrame :=
  {| df_columns := distinct (objs ≫= frame_columns);
     df_rows := objs ≫= frame_rows |}.

(** What [_combine_dataframes] stores for an entry of [combined_output]. *)
Definition combine_slot (s : slot) : result outval :=
  match s with
  | Values values =>
      if bool_decide (values ≠ []) && forallb value_is_frame values
      then df ← concat_frames (leaves values); Ok (Table df)
      else Ok (Listed values)
  | ByType values =>
      sub ← for_each (λ sub kv, df ← concat_frames kv.2;
                                Ok (<[kv.1 := df]> sub))
                     ∅ (map_to_list values);
      Ok (SubDataDict sub)
  end.

(** The entry of the output for a key whose items added the list [l]. *)
Definition field_output (l : list value) : option outval :=
  match l with
  | [] => None
  | _ => Some (if forallb value_is_frame l
               then Table (stack (leaves l)) else Listed l)
  end.

(** The output of [aggregate] characterised entry by entry: the lists the
    items add, stacked. *)
Definition output_of (record : bool) (its : list (string * value))
    (out : gmap string outval) : Prop :=
  (∀ key, key ≠ "variables" →
     out !! key = field_output (its ≫= field_values record key))
  ∧ (if existsb (has_types record) its
     then ∃ sub, out !! "variables" = Some (SubDataDict sub)
                 ∧ ∀ ty, sub !! ty
                         = stack <$> as_list (its ≫= type_leaves record ty)
     else out !! "variables" = None).

(** The rows of a table that carry a run id: the run id is the outermost
    level of the index. *)
Definition rows_of_run (rid : Z) (rows : list Row) : list Row :=
  filter (λ r, head (row_index r) = Some rid) rows.

Definition value_rows (v : value) : list Row :=
  match v with
  | Leaf x => frame_rows x
  | DataDict items => items ≫= λ it, frame_rows it.2
  end.

Definition bundle_rows (b : bundle) : list Row := b ≫= λ it, value_rows it.2.

(** A bundle carries a run id when one of its rows does; a run id has a
    sole carrier in a list of bundles when at most one bundle carries
    it. *)
Definition carries (rid : Z) (b : bundle) : Prop :=
  rows_of_run rid (bundle_rows b) ≠ [].

#[global] Instance carries_dec rid b : Decision (carries rid b).
Proof. unfold carries. apply _. Defined.

Definition sole_carrier (rid : Z) (bs : list bundle) : Prop :=
  length (filter (carries rid) bs) ≤ 1.

(** Two tables with the same rows and columns up to order, and the same
    rows in the same order for every run id with a sole carrier in
    [bs]. *)
Definition same_table (bs : list bundle) (df df' : DataFrame) : Prop :=
  df_rows df ≡ₚ df_rows df'
  ∧ df_columns df ≡ₚ df_columns df'
  ∧ ∀ rid, sole_carrier rid bs →
      rows_of_run rid (df_rows df) = rows_of_run rid (df_rows df').

Inductive same_output (bs : list bundle) : outval → outval → Prop :=
| same_Table df df' :
    same_table bs df df' → same_output bs (Table df) (Table df')
| same_SubDataDict d d' :
    (∀ ty, option_Forall2 (same_table bs) (d !! ty) (d' !! ty)) →
    same_output bs (SubDataDict d) (SubDataDict d')
| same_Listed l l' :
    l ≡ₚ l' → same_output bs (Listed l) (Listed l').

(** "Aggregating bundles returned out of submission order yields a result
    identical, row-for-row keyed by run id, to aggregating the same
    bundles returned in submission order." *)
Definition identical_by_run_id (out out' : gmap string outval) : Prop :=
  ∀ key df df' rid,
    out !! key = Some (Table df) → out' !! key = Some (Table df') →
    rows_of_run rid (df_rows df') = rows_of_run rid (df_rows df).

Definition merge_order_independent (record : bool) (bs bs' : list bundle)
  : Prop :=
  bs ≡ₚ bs' →
  ∃ out out', aggregate record bs = Ok out ∧ aggregate record bs' = Ok out'
              ∧ identical_by_run_id out out'.

(** A bundle with one measure [x] in a one-row table indexed by the run
    id, and one with a table of variables of the agents beside it. *)
Definition measure_frame (rid x : Z) : DataFrame :=
  mkDataFrame [LName "x"] [mkRow [rid] {[ LName "x" := PInt x ]}].

Definition measure_bundle (rid x : Z) : bundle :=
  [("measures", Leaf (Frame (measure_frame rid x)))].

Definition recorded_bundle (rid x : Z) : bundle :=
  [("log", Leaf (Scalar (PStr "run")));
   ("measures", Leaf (Frame (measure_frame rid x)));
   ("variables", DataDict [("Agent", Frame (measure_frame rid x))])].

(** *** The recorder *)

(** "After setting [v1=1, v2=2] then [record(['v1','v2'])], the log has
    exactly two keys, each a one-element series [1]/[2]." *)
Definition record_two_keys_claim : Prop :=
  ∀ (index_key : string) (index_series : Z → list Z → list Z) m',
    index_key ∉ ["v1"; "v2"] →
    model.record index_key index_series ["v1"; "v2"]
      (model.setattr "v2" 2 (model.setattr "v1" 1 (model.new_model ∅)))
    = Ok m' →
    model._log m' = {[ "v1" := [1%Z]; "v2" := [2%Z] ]}.

(** "A Model with no steps parameter and no [stop()] call reaches
    [t == 1_000_000] and raises RuntimeLimitError at that point." *)
Definition run_ceiling_claim : Prop :=
  ∀ (setup step : model.Model → model.Model) (m : model.Model),
    model.p m !! "steps" = None → model.never_stops step →
    ∃ fuel n m',
      model.run setup step fuel None m = model.Failed RuntimeLimitError n m'
      ∧ model.t m' = model.hard_ceiling.

(** *** The parameters as the table stores them *)

(** The column of the table of the parameters for a name. *)
Definition stored (ps : list pdict) (c : label) : list pyval :=
  convert_objects ((λ d, tabulated d c) <$> ps).

(** [None] read as the missing value that it is stored as beside
    numbers. *)
Definition none_as_nan (v : pyval) : pyval :=
  match v with
  | PNone => PNaN
  | _ => v
  end.

(** A parameter is fixed in the table when it is identical across every
    parameter set, [None] and a missing value counting as the same, and
    varied when it differs across at least one pair. *)
Definition fixed_in_table (ps : list pdict) (c : label) : Prop :=
  ∀ d d', d ∈ ps → d' ∈ ps →
          none_as_nan (tabulated d c) = none_as_nan (tabulated d' c).

Definition varied_in_table (ps : list pdict) (c : label) : Prop :=
  ∃ d d', d ∈ ps ∧ d' ∈ ps
          ∧ none_as_nan (tabulated d c) ≠ none_as_nan (tabulated d' c).

(** The integers among the parameter values are of the 64-bit range. *)
Definition int64_values (ps : list pdict) : Prop :=
  ∀ d c z, d ∈ ps → d !! c = Some (PInt z) →
           (- 2 ^ 63 ≤ z < 2 ^ 63)%Z.

(** The slider of a column can be created: the label is a name, and the
    first of the stored values, at which the slider starts, is not NaN
    (which equals none of the options). *)
Definition slider_starts (ps : list pdict) (c : label) : bool :=
  match c, head (stored ps c) with
  | LName _, Some v => negb (is_nan v)
  | _, _ => false
  end.

(** *** Reading the parameters report *)

(** The fixed part and the varied part of a parameters report, whichever
    of the three shapes it has. *)
Definition report_fixed (o : outval) : pdict :=
  match o with
  | Fixed f | FixedVaried f _ => f
  | _ => ∅
  end.

Definition report_varied (o : outval) : option DataFrame :=
  match o with
  | Table df | FixedVaried _ df => Some df
  | _ => None
  end.

(** The values a bundle has under a key. *)
Definition bundle_field (key : string) (b : bundle) : list value :=
  omap (λ it, if decide (it.1 = key) then Some it.2 else None) b.

End design.

Import experiment design.

(** * Properties *)

(** ** Loops and list expansion *)

Lemma elem_of_distinct `{EqDecision A} (l : list A) (x : A) :
  x ∈ distinct l ↔ x ∈ l.
Proof.
  induction l as [|a l IH]; [done|]. cbn [distinct].
  rewrite !elem_of_cons, list_elem_of_filter, IH.
  destruct (decide (x = a)) as [->|Hne]; [by intuition|]. by intuition.
Qed.

Lemma NoDup_distinct `{EqDecision A} (l : list A) : NoDup (distinct l).
Proof.
  induction l as [|a l IH]; [constructor|]. cbn [distinct].
  constructor; [|by apply NoDup_filter].
  rewrite list_elem_of_filter. by intros [? _].
Qed.

Section for_each_facts.

Context {A S : Type}.
Implicit Types (body : S → A → result S) (s : S) (l : list A).

Lemma for_each_app body s l1 l2 :
  for_each body s (l1 ++ l2) = s' ← for_each body s l1; for_each body s' l2.
Proof.
  revert s. induction l1 as [|x l1 IH]; intros s; simpl; [done|].
  destruct (body s x) as [s'|e]; simpl; [apply IH | done].
Qed.

Lemma for_each_ext body body' s l :
  (∀ s x, body s x = body' s x) → for_each body s l = for_each body' s l.
Proof.
  intros H. revert s. induction l as [|x l IH]; intros s; simpl; [done|].
  rewrite H. destruct (body' s x); simpl; [apply IH | done].
Qed.

Lemma for_each_fmap {B} (g : B → A) body s (l : list B) :
  for_each body s (g <$> l) = for_each (λ s x, body s (g x)) s l.
Proof.
  revert s. induction l as [|x l IH]; intros s; simpl; [done|].
  destruct (body s (g x)); simpl; [apply IH | done].
Qed.

Lemma for_each_bind {B} (g : B → list A) body s (l : list B) :
  for_each body s (l ≫= g) = for_each (λ s x, for_each body s (g x)) s l.
Proof.
  revert s. induction l as [|x l IH]; intros s; [done|].
  change ((x :: l) ≫= g) with (g x ++ (l ≫= g)).
  rewrite for_each_app. simpl.
  destruct (for_each body s (g x)); simpl; [apply IH | done].
Qed.

End for_each_facts.

Lemma length_list_mul {A} (l : list A) (n : Z) :
  length (list_mul l n) = (Z.to_nat n * length l)%nat.
Proof.
  unfold list_mul. induction (Z.to_nat n) as [|k IH]; simpl; [done|].
  rewrite length_app, IH. lia.
Qed.

Lemma length_enumerate {A} (l : list A) : length (enumerate l) = length l.
Proof. apply length_imap. Qed.

Lemma lookup_enumerate {A} (l : list A) (i : nat) :
  enumerate l !! i = (λ x, (Z.of_nat i, x)) <$> l !! i.
Proof. unfold enumerate. by rewrite list_lookup_imap. Qed.

(** A list made of blocks of one length [n]: its length, and the entry
    at [k], which is entry [k mod n] of block [k div n]. *)
Lemma length_bind_uniform {A B} (f : A → list B) (l : list A) (n : nat) :
  (∀ x, length (f x) = n) → length (l ≫= f) = (length l * n)%nat.
Proof.
  intros Hf. induction l as [|x l IH]; [done|].
  change ((x :: l) ≫= f) with (f x ++ (l ≫= f)).
  rewrite length_app, IH, Hf. simpl. lia.
Qed.

Lemma lookup_bind_uniform {A B} (f : A → list B) (l : list A) (n k : nat) :
  (∀ x, length (f x) = n) → (0 < n)%nat →
  (l ≫= f) !! k = l !! (k `div` n)%nat ≫= λ x, f x !! (k `mod` n)%nat.
Proof.
  intros Hf Hn. revert k. induction l as [|x l IH]; intros k.
  - done.
  - change ((x :: l) ≫= f) with (f x ++ (l ≫= f)).
    destruct (decide (k < n)%nat) as [Hk|Hk].
    + rewrite lookup_app_l by (rewrite Hf; done).
      rewrite Nat.div_small, Nat.mod_small by done. done.
    + rewrite lookup_app_r by (rewrite Hf; lia).
      rewrite Hf, IH.
      assert (k `div` n = S ((k - n) `div` n))%nat as ->.
      { replace k with ((k - n) + 1 * n)%nat at 1 by lia.
        rewrite Nat.div_add by lia. lia. }
      assert (k `mod` n = (k - n) `mod` n)%nat as ->.
      { replace k with ((k - n) + 1 * n)%nat at 1 by lia.
        by rewrite Nat.Div0.mod_add. }
      done.
Qed.

(** ** The expansion into runs *)

Lemma init_fields parameters0 scenarios0 iterations0 record0 e :
  __init__ parameters0 scenarios0 iterations0 record0 = Ok e →
  parameters e = make_list parameters0 true
  ∧ scenarios e = make_list scenarios0 true
  ∧ iterations e = iterations0
  ∧ record e = record0
  ∧ parameters_per_run e = list_mul (parameters e) iterations0
  ∧ number_of_runs e = Z.of_nat (length (parameters_per_run e)).
Proof.
  unfold __init__. intros H.
  destruct (_parameters_to_output (make_list parameters0 true)); simpl in H;
    [|discriminate].
  injection H as <-. simpl. done.
Qed.

Lemma length_sequential_work e :
  length (sequential_work e)
  = (length (parameters_per_run e) * length (scenarios e))%nat.
Proof.
  unfold sequential_work.
  rewrite (length_bind_uniform _ _ (length (scenarios e))).
  - by rewrite length_enumerate.
  - intros x. by rewrite length_fmap.
Qed.

(** The sequential branch of [run] instantiates the models of
    [sequential_work], one after the other. *)
Lemma run_normal_work (model_run : work → bundle) e :
  run_normal model_run e
  = for_each (λ combined_output w,
        _add_single_output_to_combined (record e) (model_run w)
          combined_output)
      ∅ (sequential_work e).
Proof.
  unfold run_normal, sequential_work.
  rewrite for_each_bind. apply for_each_ext.
  intros s ip. by rewrite for_each_fmap.
Qed.

Lemma length_sim_ids e :
  (0 ≤ number_of_runs e)%Z →
  Z.of_nat (length (sim_ids e))
  = (number_of_runs e * Z.of_nat (length (scenarios e)))%Z.
Proof.
  intros H. unfold sim_ids, range. rewrite length_seqZ. lia.
Qed.

(** C1, as the design document has it, fails: an empty list of scenarios
    is handed on as it is, the inner loop of [run] has nothing to walk and
    no model is run, where the formula counts one run per parameter set
    and iteration. *)
Lemma run_count_empty_scenarios :
  ¬ (∀ parameters0 scenarios0 iterations0 record0 e,
       __init__ parameters0 scenarios0 iterations0 record0 = Ok e →
       Z.of_nat (length (sequential_work e)) = claimed_number_of_runs e).
Proof.
  intros H.
  specialize (H (Single sample_1) (Several []) 1%Z false).
  unfold __init__ in H.
  destruct (_parameters_to_output (make_list (Single sample_1) true)) as [o|]
    eqn:Ho; [|by vm_compute in Ho].
  specialize (H _ eq_refl). vm_compute in H. discriminate.
Qed.

(** C1, amended: for every experiment with [iterations ≥ 0], the runs
    executed sequentially, and the work items dispatched to a pool, number
    [len(parameters) × iterations × len(scenarios)], the two lists being
    the normalised ones (a missing argument counts as one entry).  This is
    the count [len(parameters) × iterations × max(1, len(scenarios))]
    unless the list of scenarios is empty, in which case nothing runs. *)
Theorem run_count parameters0 scenarios0 iterations0 record0 e :
  __init__ parameters0 scenarios0 iterations0 record0 = Ok e →
  (0 ≤ iterations0)%Z →
  Z.of_nat (length (sequential_work e))
  = (Z.of_nat (length (parameters e)) * iterations0
     * Z.of_nat (length (scenarios e)))%Z
  ∧ length (sim_ids e) = length (sequential_work e)
  ∧ (scenarios e ≠ [] →
     Z.of_nat (length (sequential_work e)) = claimed_number_of_runs e)
  ∧ (scenarios e = [] → sequential_work e = [])
  ∧ ∀ model_run : work → bundle,
      run_normal model_run e
      = for_each (λ combined_output w,
            _add_single_output_to_combined (record e) (model_run w)
              combined_output)
          ∅ (sequential_work e).
Proof.
  intros Hinit Hit.
  destruct (init_fields _ _ _ _ _ Hinit) as (Hp & Hs & Hi & Hr & Hppr & Hn).
  assert (Z.of_nat (length (sequential_work e))
          = (Z.of_nat (length (parameters e)) * iterations0
             * Z.of_nat (length (scenarios e)))%Z) as Hlen.
  { rewrite length_sequential_work, Hppr, length_list_mul. nia. }
  split; [exact Hlen|].
  split.
  { apply Nat2Z.inj. rewrite length_sim_ids by lia.
    rewrite length_sequential_work, Hn. lia. }
  split.
  { intros Hne. rewrite Hlen. unfold claimed_number_of_runs. rewrite Hi.
    destruct (scenarios e); [done|]. simpl length. f_equal. lia. }
  split.
  { intros Hnil. apply length_zero_iff_nil.
    rewrite length_sequential_work, Hnil. simpl. lia. }
  intros model_run. apply run_normal_work.
Qed.

(** Two parameter sets, three iterations and no scenario given: six
    runs. *)
Lemma run_count_witness :
  ∃ e, __init__ (Several [sample_1; sample_2]) Absent 3%Z false = Ok e
       ∧ Z.of_nat (length (sequential_work e)) = 6%Z
       ∧ length (sim_ids e) = length (sequential_work e).
Proof.
  destruct (__init__ (Several [sample_1; sample_2]) Absent 3%Z false)
    as [e|x] eqn:He; [|by vm_compute in He].
  exists e. split; [reflexivity|].
  destruct (run_count _ _ _ _ e He ltac:(lia)) as (Hlen & Hpool & _).
  split; [|exact Hpool].
  rewrite Hlen.
  destruct (init_fields _ _ _ _ _ He) as (-> & -> & _). reflexivity.
Defined.

(** The entry at position [k] of the sequential expansion. *)
Lemma lookup_sequential_work e (k : nat) (w : work) :
  sequential_work e !! k = Some w →
  let n := length (scenarios e) in
  (0 < n)%nat
  ∧ run_id_of w = Z.of_nat (k `div` n)
  ∧ parameters_per_run e !! (k `div` n)%nat = Some w.1.1
  ∧ scenarios e !! (k `mod` n)%nat = Some w.2.
Proof.
  intros Hk n.
  assert (0 < n)%nat as Hn.
  { destruct (decide (n = 0)) as [Hz|]; [|lia].
    apply lookup_lt_Some in Hk. rewrite length_sequential_work in Hk.
    fold n in Hk. lia. }
  split; [done|].
  unfold sequential_work in Hk.
  rewrite (lookup_bind_uniform _ _ n) in Hk;
    [|intros x; by rewrite length_fmap|done].
  rewrite lookup_enumerate in Hk.
  destruct (parameters_per_run e !! (k `div` n)%nat) as [q|]; [|done].
  simpl in Hk. rewrite list_lookup_fmap in Hk.
  destruct (scenarios e !! (k `mod` n)%nat) as [sc|]; [|done].
  simpl in Hk. injection Hk as <-. done.
Qed.

(** C2, as the design document has it, fails: with two scenarios the two
    runs of one parameter set both receive run id 0, the second of them
    at position 1 of the expansion. *)
Lemma run_id_shared_by_scenarios :
  ∃ e, __init__ (Single sample_1) (Several ["x"; "y"]) 1%Z false = Ok e
       ∧ ¬ run_id_is_index e ∧ ¬ run_ids_distinct e.
Proof.
  destruct (__init__ (Single sample_1) (Several ["x"; "y"]) 1%Z false)
    as [e|x] eqn:He; [|by vm_compute in He].
  exists e. split; [done|].
  destruct (init_fields _ _ _ _ _ He) as (Hp & Hs & _ & _ & Hppr & _).
  assert (sequential_work e
          = [(Some sample_1, 0%Z, Some "x"); (Some sample_1, 0%Z, Some "y")])
    as Hw.
  { unfold sequential_work. rewrite Hppr, Hp, Hs. reflexivity. }
  split.
  - intros H. specialize (H 1%nat (Some sample_1, 0%Z, Some "y")).
    rewrite Hw in H. specialize (H eq_refl). discriminate.
  - intros H.
    specialize (H 0%nat 1%nat (Some sample_1, 0%Z, Some "x")
                  (Some sample_1, 0%Z, Some "y")).
    rewrite Hw in H. by apply H.
Qed.

(** C2, amended: the run specification at position [k] of the expansion
    carries the run id [k div len(scenarios)], the position of its
    parameter set in [parameters_per_run] (parameter sets × iterations),
    together with scenario number [k mod len(scenarios)].  Two
    specifications share a run id exactly when they belong to the same
    entry of [parameters_per_run], that is when they differ in the
    scenario only; with a single scenario the run id is the index. *)
Theorem run_id_of_work e (j k : nat) (wj wk : work) :
  sequential_work e !! j = Some wj →
  sequential_work e !! k = Some wk →
  let n := length (scenarios e) in
  run_id_of wk = Z.of_nat (k `div` n)
  ∧ parameters_per_run e !! (k `div` n)%nat = Some wk.1.1
  ∧ scenarios e !! (k `mod` n)%nat = Some wk.2
  ∧ (run_id_of wj = run_id_of wk ↔ (j `div` n = k `div` n)%nat)
  ∧ (n = 1%nat → run_id_of wk = Z.of_nat k).
Proof.
  intros Hj Hk n.
  destruct (lookup_sequential_work _ _ _ Hj) as (Hn & Hrj & _).
  destruct (lookup_sequential_work _ _ _ Hk) as (_ & Hrk & Hpk & Hsk).
  fold n in Hn, Hrj, Hrk, Hpk, Hsk.
  repeat split; try done.
  - rewrite Hrj, Hrk. lia.
  - rewrite Hrj, Hrk. intros ->. done.
  - intros H1. rewrite Hrk, H1, Nat.div_1_r. done.
Qed.

Lemma run_id_of_work_witness :
  ∃ e, __init__ (Several [sample_1; sample_2]) (Several ["x"; "y"]) 1%Z false
       = Ok e
       ∧ run_id_of (Some sample_2, 1%Z, Some "x") = 1%Z
       ∧ (run_id_of (Some sample_2, 1%Z, Some "y")
          = run_id_of (Some sample_2, 1%Z, Some "x") ↔ 1%nat = 1%nat).
Proof.
  destruct (__init__ (Several [sample_1; sample_2]) (Several ["x"; "y"])
              1%Z false) as [e|x] eqn:He; [|by vm_compute in He].
  exists e. split; [reflexivity|].
  destruct (init_fields _ _ _ _ _ He) as (Hp & Hs & _ & _ & Hppr & _).
  assert (sequential_work e !! 3%nat = Some (Some sample_2, 1%Z, Some "y"))
    as H3.
  { unfold sequential_work. rewrite Hppr, Hp, Hs. reflexivity. }
  assert (sequential_work e !! 2%nat = Some (Some sample_2, 1%Z, Some "x"))
    as H2.
  { unfold sequential_work. rewrite Hppr, Hp, Hs. reflexivity. }
  destruct (run_id_of_work e 3 2 _ _ H3 H2) as (Hid & _ & _ & Hshare & _).
  rewrite Hs in Hid, Hshare. split; [exact Hid | exact Hshare].
Defined.

(** C3: the pooled worker looks its parameter set up in [self.parameters],
    where the sequential loop walks [self.parameters_per_run].  With one
    parameter set and two iterations the sequential run with id 1 uses
    the parameter set again; the worker for [sim_id] 1 computes run id 1
    and raises [IndexError], and with it the pooled run. *)
Theorem pooled_worker_index_error :
  ∃ e, __init__ (Single sample_1) Absent 2%Z false = Ok e
       ∧ sim_ids e = [0%Z; 1%Z]
       ∧ sequential_work e !! 1%nat = Some (Some sample_1, 1%Z, None)
       ∧ _single_sim_work e 1 = Raise IndexError
       ∧ ∀ model_run : work → bundle,
           run_parallel model_run e = Raise IndexError.
Proof.
  destruct (__init__ (Single sample_1) Absent 2%Z false)
    as [e|x] eqn:He; [|by vm_compute in He].
  exists e. split; [reflexivity|].
  destruct (init_fields _ _ _ _ _ He) as (Hp & Hs & _ & _ & Hppr & Hn).
  assert (sim_ids e = [0%Z; 1%Z]) as Hids.
  { unfold sim_ids. rewrite Hn, Hppr, Hp, Hs. reflexivity. }
  assert (_single_sim_work e 1 = Raise IndexError) as Hbad.
  { unfold _single_sim_work. rewrite Hp, Hs. reflexivity. }
  repeat split; try done.
  - unfold sequential_work. rewrite Hppr, Hp, Hs. reflexivity.
  - intros model_run. unfold run_parallel, _single_sim.
    assert (_single_sim_work e 0 = Ok (Some sample_1, 0%Z, None)) as Hgood.
    { unfold _single_sim_work. rewrite Hp, Hs. reflexivity. }
    rewrite Hids. simpl. rewrite Hbad, Hgood. reflexivity.
Qed.

(** The pooled worker in general: it takes up run id [sim_id div n] and
    scenario [sim_id mod n], as the sequential loops do, but looks the
    parameter set up in [self.parameters]. *)
Lemma getitem_nonneg {A} (l : list A) (i : Z) :
  (0 ≤ i)%Z →
  getitem l i = match l !! Z.to_nat i with
                | Some x => Ok x
                | None => Raise IndexError
                end.
Proof.
  intros Hi. unfold getitem.
  destruct (Z.ltb_spec i 0) as [?|_]; [lia|].
  destruct (Z.ltb_spec i 0) as [?|_]; [lia|]. done.
Qed.

Lemma single_sim_work_unfold e (sim_id : Z) :
  let n := Z.of_nat (length (scenarios e)) in
  (0 < n)%Z →
  _single_sim_work e sim_id
  = p ← getitem (parameters e) (sim_id / n)%Z;
    scenario ← getitem (scenarios e) (sim_id mod n)%Z;
    Ok (p, (sim_id / n)%Z, scenario).
Proof.
  intros n Hn. unfold _single_sim_work, mod_, floordiv. fold n.
  destruct (Z.eqb_spec n 0) as [?|_]; [lia|].
  cbn [mbind result_bind].
  replace ((sim_id - sim_id mod n) / n)%Z with (sim_id / n)%Z; [done|].
  pose proof (Z.div_mod sim_id n ltac:(lia)) as Hdm.
  replace (sim_id - sim_id mod n)%Z with ((sim_id / n) * n)%Z by lia.
  by rewrite Z.div_mul by lia.
Qed.

Lemma pooled_worker_beyond_parameters e (sim_id : Z) :
  let n := Z.of_nat (length (scenarios e)) in
  (0 < n)%Z → (0 ≤ sim_id)%Z →
  (Z.of_nat (length (parameters e)) ≤ sim_id / n)%Z →
  _single_sim_work e sim_id = Raise IndexError.
Proof.
  intros n Hn Hs Hlen. rewrite single_sim_work_unfold by done. fold n.
  rewrite (getitem_nonneg (parameters e)) by (apply Z.div_pos; lia).
  rewrite lookup_ge_None_2 by lia. done.
Qed.

Lemma lookup_list_mul {A} (l : list A) (i : Z) (k : nat) :
  (1 ≤ i)%Z → (k < length l)%nat → list_mul l i !! k = l !! k.
Proof.
  intros Hi Hk. unfold list_mul.
  destruct (Z.to_nat i) as [|j] eqn:Hj; [lia|].
  simpl. by rewrite lookup_app_l.
Qed.

Lemma pooled_worker_first_iteration e (k : nat) :
  let n := length (scenarios e) in
  parameters_per_run e = list_mul (parameters e) (iterations e) →
  (1 ≤ iterations e)%Z →
  (k < length (parameters e) * n)%nat →
  ∃ w, sequential_work e !! k = Some w
       ∧ _single_sim_work e (Z.of_nat k) = Ok w.
Proof.
  intros n Hppr Hit Hk.
  assert (0 < n)%nat as Hn by (destruct n; lia).
  assert (k `div` n < length (parameters e))%nat as Hq
    by (apply Nat.Div0.div_lt_upper_bound; lia).
  assert (k `mod` n < n)%nat as Hr by (apply Nat.mod_upper_bound; lia).
  destruct (lookup_lt_is_Some_2 (parameters e) _ Hq) as [q Hq'].
  destruct (lookup_lt_is_Some_2 (scenarios e) _ Hr) as [sc Hsc].
  exists (q, Z.of_nat (k `div` n), sc). split.
  - unfold sequential_work.
    rewrite (lookup_bind_uniform _ _ n);
      [|intros x; by rewrite length_fmap|done].
    rewrite lookup_enumerate, Hppr, lookup_list_mul, Hq' by done.
    simpl. rewrite list_lookup_fmap, Hsc. done.
  - rewrite single_sim_work_unfold by (fold n; lia). fold n.
    rewrite <- Nat2Z.inj_div, <- Nat2Z.inj_mod.
    rewrite !getitem_nonneg by lia.
    rewrite !Nat2Z.id, Hq', Hsc. done.
Qed.

(** ** The documentation of the parameters *)

Lemma to_float_nan_default (o : option pyval) :
  default PNaN (to_float <$> o) = to_float (default PNaN o).
Proof. by destruct o. Qed.

Lemma column_DataFrame_of (data : list (option pdict)) (c : label) :
  column (DataFrame_of data) c
  = convert_objects ((λ r, default PNaN (record_cells r !! c)) <$> data).
Proof.
  unfold column, DataFrame_of, convert_objects. cbn [df_rows].
  assert ((λ d : pdict, default PNaN (d !! c)) <$> (record_cells <$> data)
          = (λ r, default PNaN (record_cells r !! c)) <$> data) as Hobjs
    by (by rewrite <- list_fmap_compose).
  apply list_eq. intros i.
  rewrite list_lookup_fmap, list_lookup_imap, list_lookup_fmap.
  destruct (data !! i) as [r|] eqn:Hi; cbn [fmap option_fmap option_map].
  - cbn [row_cells]. rewrite map_lookup_imap, Hobjs.
    destruct (as_floats _).
    + rewrite !list_lookup_fmap, Hi. cbn [fmap option_fmap option_map].
      by destruct (record_cells r !! c).
    + rewrite list_lookup_fmap, Hi. cbn [fmap option_fmap option_map].
      by destruct (record_cells r !! c).
  - destruct (as_floats _); by rewrite ?list_lookup_fmap, Hi.
Qed.

Lemma elem_of_columns_DataFrame_of (data : list (option pdict)) (c : label) :
  c ∈ df_columns (DataFrame_of data)
  ↔ ∃ r, r ∈ data ∧ is_Some (record_cells r !! c).
Proof.
  unfold DataFrame_of. simpl.
  rewrite elem_of_distinct, list_elem_of_bind. split.
  - intros (d & Hc & Hd). apply list_elem_of_fmap in Hd as (r & -> & Hr).
    exists r. split; [done|]. by apply elem_of_dom, elem_of_elements.
  - intros (r & Hr & Hc). exists (record_cells r). split.
    + by apply elem_of_elements, elem_of_dom.
    + apply list_elem_of_fmap. eauto.
Qed.

(** A column with a value that is no number stays as it is. *)
Lemma convert_objects_object (s : list pyval) (v : pyval) :
  v ∈ s → is_number v = false → convert_objects s = s.
Proof.
  intros Hv Hn. unfold convert_objects, as_floats.
  assert (forallb is_number s = false) as ->; [|done].
  apply not_true_is_false. intros Hall. rewrite forallb_forall in Hall.
  apply list_elem_of_In, Hall in Hv. congruence.
Qed.

Lemma length_rows_DataFrame_of (data : list (option pdict)) :
  length (df_rows (DataFrame_of data)) = length data.
Proof. unfold DataFrame_of. simpl. by rewrite length_imap, length_fmap. Qed.

Lemma column_drop_ne (df : DataFrame) (c c' : label) :
  c ≠ c' → column (drop c' df) c = column df c.
Proof.
  intros Hne. unfold column, drop. simpl.
  rewrite <- list_fmap_compose. apply list_fmap_ext.
  intros i r _. simpl. by rewrite lookup_delete_ne.
Qed.

(** A step of the loop raises nothing but the [TypeError] of [unique],
    and keeps the columns other than its own as they are. *)
Lemma document_column_cases (st : pdict * DataFrame) (col : label) :
  document_column st col = Raise TypeError
  ∨ ∃ st', document_column st col = Ok st'
           ∧ ∀ c, c ≠ col → column st'.2 c = column st.2 c.
Proof.
  unfold document_column, unique.
  destruct (forallb hashable (column st.2 col)); simpl; [|by left].
  right. case_bool_decide as Hlen.
  - destruct (column st.2 col) as [|v s] eqn:Hs; [done|]. simpl.
    eexists. split; [done|]. simpl. intros c Hc. by apply column_drop_ne.
  - eauto.
Qed.

Lemma document_column_unhashable (st : pdict * DataFrame) (col : label) :
  forallb hashable (column st.2 col) = false →
  document_column st col = Raise TypeError.
Proof. unfold document_column, unique. by intros ->. Qed.

Lemma for_each_document_unhashable (cols : list label) (c : label)
    (st : pdict * DataFrame) :
  c ∈ cols → forallb hashable (column st.2 c) = false →
  for_each document_column st cols = Raise TypeError.
Proof.
  revert st. induction cols as [|x cols IH]; intros st Hc Hbad.
  - by apply elem_of_nil in Hc.
  - simpl. destruct (decide (x = c)) as [->|Hne].
    + by rewrite document_column_unhashable.
    + destruct (document_column_cases st x) as [->|(st' & -> & Hcol)];
        [done|]. simpl.
      apply IH.
      * apply elem_of_cons in Hc as [->|Hc]; done.
      * by rewrite Hcol.
Qed.

(** C5: a parameter list with an unhashable value makes the documentation
    pass fail, with the [TypeError] that [unique] raises while hashing the
    column.  The pass itself raises nothing: the check that the comment in
    [_parameters_to_output] asks for is not there. *)
Theorem unhashable_parameter_raises_TypeError (ps : list pdict)
    (d : pdict) (c : label) (v : pyval) :
  d ∈ ps → d !! c = Some v → hashable v = false →
  _parameters_to_output (Some <$> ps) = Raise TypeError.
Proof.
  intros Hd Hc Hv. unfold _parameters_to_output.
  rewrite (for_each_document_unhashable _ c); [done| |].
  - apply elem_of_columns_DataFrame_of. exists (Some d). split.
    + apply list_elem_of_fmap. eauto.
    + simpl. by rewrite Hc.
  - simpl. rewrite column_DataFrame_of.
    assert (v ∈ (λ r : option pdict, default PNaN (record_cells r !! c))
                  <$> (Some <$> ps)) as Hin.
    { apply list_elem_of_fmap. exists (Some d). split.
      - simpl. by rewrite Hc.
      - apply list_elem_of_fmap. eauto. }
    rewrite (convert_objects_object _ v Hin) by (by destruct v).
    apply not_true_is_false. intros Hall.
    rewrite forallb_forall in Hall.
    specialize (Hall v). rewrite Hv in Hall. apply diff_false_true, Hall.
    by apply list_elem_of_In.
Qed.

Lemma unhashable_parameter_raises_TypeError_witness :
  _parameters_to_output
    (Some <$> [ {[ LName "a" := PInt 1 ]};
                {[ LName "a" := PDict [("x", 1%Z)] ]} ])
  = Raise TypeError.
Proof.
  apply (unhashable_parameter_raises_TypeError _
           {[ LName "a" := PDict [("x", 1%Z)] ]} (LName "a")
           (PDict [("x", 1%Z)])).
  - apply list_elem_of_In. simpl. auto.
  - reflexivity.
  - reflexivity.
Defined.

(** A column has one unique value when it is not empty and all its
    values are that of its first row. *)
Lemma distinct_single (l : list pyval) :
  length (distinct l) = 1 ↔ ∃ x, head l = Some x ∧ ∀ y, y ∈ l → y = x.
Proof.
  split.
  - intros Hlen.
    destruct (distinct l) as [|x [|? ?]] eqn:Hr; try done.
    assert (∀ y, y ∈ l → y = x) as Hall.
    { intros y Hy. apply elem_of_distinct in Hy. rewrite Hr in Hy.
      by apply list_elem_of_singleton in Hy. }
    exists x. split; [|done].
    destruct l as [|h l]; [done|]. simpl. f_equal. apply Hall. left.
  - intros (x & Hhd & Hall).
    assert (x ∈ distinct l) as Hx.
    { apply elem_of_distinct. destruct l; [done|].
      injection Hhd as ->. left. }
    assert (∀ y, y ∈ distinct l → y = x) as Hall'.
    { intros y Hy. by apply Hall, elem_of_distinct. }
    pose proof (NoDup_distinct l) as Hnd.
    destruct (distinct l) as [|a [|b r]].
    + by apply elem_of_nil in Hx.
    + done.
    + exfalso. apply NoDup_cons in Hnd as [Hnd _]. apply Hnd.
      assert (a = b) as ->; [|left].
      transitivity x; [|symmetry]; apply Hall'; [left | right; left].
Qed.

Lemma distinct_not_single (l : list pyval) :
  l ≠ [] → length (distinct l) ≠ 1 → ∃ x y, x ∈ l ∧ y ∈ l ∧ x ≠ y.
Proof.
  intros Hne Hlen. destruct l as [|h l]; [done|].
  destruct (decide (Forall (λ y, y = h) (h :: l))) as [Hall|Hex].
  - exfalso. apply Hlen, distinct_single. exists h. split; [done|].
    by apply Forall_forall.
  - apply not_Forall_Exists in Hex; [|apply _].
    apply Exists_exists in Hex as (y & Hy & Hneq).
    exists y, h. repeat split; [done | left | done].
Qed.

Lemma document_column_hashable (st : pdict * DataFrame) (col : label) :
  forallb hashable (column st.2 col) = true →
  (single st.2 col ∧
   ∃ v, head (column st.2 col) = Some v
        ∧ document_column st col = Ok (<[col := v]> st.1, drop col st.2))
  ∨ (¬ single st.2 col ∧ document_column st col = Ok st).
Proof.
  intros Hh. unfold document_column, unique, single. rewrite Hh. simpl.
  case_bool_decide as Hlen.
  - left. split; [done|].
    apply distinct_single in Hlen as (x & Hhd & _).
    exists x. split; [done|].
    destruct (column st.2 col) as [|v s]; simplify_eq/=; done.
  - by right.
Qed.

(** The loop over the columns on tables of hashable values: the columns
    with one unique value move to [fixed_pars], the others stay. *)
Lemma for_each_document_hashable (cols : list label) :
  ∀ st : pdict * DataFrame,
    NoDup cols →
    (∀ c, c ∈ cols → forallb hashable (column st.2 c) = true) →
    ∃ st', for_each document_column st cols = Ok st'
      ∧ (∀ c, c ∈ cols → single st.2 c →
              st'.1 !! c = head (column st.2 c))
      ∧ (∀ c, ¬ (c ∈ cols ∧ single st.2 c) → st'.1 !! c = st.1 !! c)
      ∧ (∀ c, c ∈ df_columns st'.2
              ↔ c ∈ df_columns st.2 ∧ ¬ (c ∈ cols ∧ single st.2 c))
      ∧ length (df_rows st'.2) = length (df_rows st.2)
      ∧ ((∀ c, c ∈ cols → ¬ single st.2 c) → st' = st).
Proof.
  induction cols as [|x cols IH]; intros st Hnd Hh.
  - exists st. simpl.
    split; [done|]. split; [intros c Hc; by apply elem_of_nil in Hc|].
    split; [done|]. split; [|done].
    intros c. split; [|by intros [? _]].
    intros Hc. split; [done|]. intros [Hx _]. by apply elem_of_nil in Hx.
  - apply NoDup_cons in Hnd as [Hx Hnd]. simpl.
    assert (∀ d c, c ∈ cols → column (drop x d) c = column d c) as Hkeep.
    { intros d c Hc. apply column_drop_ne. intros ->. done. }
    destruct (document_column_hashable st x) as
      [(Hs & v & Hv & ->)|(Hs & ->)]; [apply Hh; left| |]; simpl.
    + destruct (IH (<[x := v]> st.1, drop x st.2) Hnd) as
        (st' & -> & Hfix & Hrest & Hcols & Hrows & _).
      { simpl. intros c Hc. rewrite Hkeep by done. apply Hh. by right. }
      simpl in *. exists st'. split; [done|].
      assert (∀ c, c ∈ cols → single (drop x st.2) c ↔ single st.2 c)
        as Hsingle.
      { intros c Hc. unfold single. by rewrite Hkeep. }
      split; [|split; [|split; [|split]]].
      * intros c Hc Hsc. apply elem_of_cons in Hc as [->|Hc].
        -- rewrite Hrest, lookup_insert_eq; [done|]. by intros [? _].
        -- rewrite Hfix, Hkeep; [done..|]. by apply Hsingle.
      * intros c Hc. rewrite Hrest.
        -- apply lookup_insert_ne. intros <-. apply Hc. split; [left|done].
        -- intros [Hin Hsc]. apply Hc. split; [by right|].
           by apply Hsingle.
      * intros c. rewrite Hcols. unfold drop at 1. simpl.
        rewrite list_elem_of_filter. split.
        -- intros [[Hne Hin] Hno]. split; [done|].
           intros [Hc Hsc]. apply elem_of_cons in Hc as [->|Hc]; [done|].
           apply Hno. split; [done|]. by apply Hsingle.
        -- intros [Hin Hno]. split; [split; [|done]|].
           ++ intros ->. apply Hno. split; [left|done].
           ++ intros [Hc Hsc]. apply Hno. split; [by right|].
              by apply Hsingle.
      * rewrite Hrows. unfold drop. simpl. by rewrite length_fmap.
      * intros Hnone. exfalso. apply (Hnone x); [left|done].
    + destruct (IH st Hnd) as (st' & -> & Hfix & Hrest & Hcols & Hrows & Hid).
      { intros c Hc. apply Hh. by right. }
      exists st'. split; [done|].
      split; [|split; [|split; [|split]]].
      * intros c Hc Hsc. apply elem_of_cons in Hc as [->|Hc]; [done|].
        by apply Hfix.
      * intros c Hc. apply Hrest. intros [Hin Hsc]. apply Hc.
        split; [by right|done].
      * intros c. rewrite Hcols. split.
        -- intros [Hin Hno]. split; [done|]. intros [Hc Hsc].
           apply elem_of_cons in Hc as [->|Hc]; [done|]. by apply Hno.
        -- intros [Hin Hno]. split; [done|]. intros [Hc Hsc]. apply Hno.
           split; [by right|done].
      * done.
      * intros Hnone. apply Hid. intros c Hc. apply Hnone. by right.
Qed.

Lemma report_of_state (data : list (option pdict)) (st : pdict * DataFrame) :
  for_each document_column (∅, DataFrame_of data)
    (df_columns (DataFrame_of data)) = Ok st →
  _parameters_to_output data
  = Ok (if bool_decide (st.1 ≠ ∅) && empty st.2 then Fixed st.1
        else if bool_decide (st.1 = ∅) && negb (empty st.2) then Table st.2
        else FixedVaried st.1 st.2).
Proof.
  unfold _parameters_to_output. intros ->. simpl.
  by destruct (bool_decide (st.1 ≠ ∅) && empty st.2),
              (bool_decide (st.1 = ∅) && negb (empty st.2)).
Qed.

Lemma hashable_to_float (v : pyval) : hashable (to_float v) = hashable v.
Proof. by destruct v. Qed.

Lemma convert_objects_hashable (s : list pyval) :
  forallb hashable s = true → forallb hashable (convert_objects s) = true.
Proof.
  unfold convert_objects. destruct (as_floats s); [|done].
  rewrite !forallb_forall. intros H v Hv.
  apply list_elem_of_In, list_elem_of_fmap in Hv as (w & -> & Hw).
  rewrite hashable_to_float. by apply H, list_elem_of_In.
Qed.

Lemma to_float_none_as_nan (v : pyval) :
  to_float v = to_float (none_as_nan v).
Proof. by destruct v. Qed.

(** A column stored as floats has a missing value. *)
Lemma as_floats_missing (s : list pyval) :
  as_floats s = true →
  (∀ v, v ∈ s → is_number v = true) ∧ ∃ v, v ∈ s ∧ none_as_nan v = PNaN.
Proof.
  unfold as_floats. intros [Hn Hm]%andb_prop. split.
  - intros v Hv. rewrite forallb_forall in Hn. by apply Hn, list_elem_of_In.
  - apply orb_prop in Hm as [Hm|[Hm _]%andb_prop];
      apply existsb_exists in Hm as (v & Hv & Hm); exists v;
      (split; [by apply list_elem_of_In|by destruct v]).
Qed.

(** A column of missing values with a NaN among them is stored as
    floats. *)
Lemma as_floats_all_missing (s : list pyval) :
  (∀ v, v ∈ s → none_as_nan v = PNaN) → PNaN ∈ s → as_floats s = true.
Proof.
  intros Hall Hnan. unfold as_floats. apply andb_true_intro. split.
  - apply forallb_forall. intros v Hv%list_elem_of_In.
    specialize (Hall v Hv). by destruct v.
  - apply orb_true_intro. left. apply existsb_exists. exists PNaN.
    split; [by apply list_elem_of_In|done].
Qed.

Section report.

Variable ps : list pdict.

Local Abbreviation df0 := (DataFrame_of (Some <$> ps)).

Lemma column_parameters (c : label) : column df0 c = stored ps c.
Proof.
  rewrite column_DataFrame_of, <- list_fmap_compose. done.
Qed.

Lemma columns_parameters (c : label) : c ∈ df_columns df0 ↔ occurs ps c.
Proof.
  unfold occurs. rewrite elem_of_columns_DataFrame_of. split.
  - intros (r & Hr & Hc). apply list_elem_of_fmap in Hr as (d & -> & Hd).
    eauto.
  - intros (d & Hd & Hc). exists (Some d). split; [|done].
    apply list_elem_of_fmap. eauto.
Qed.

Lemma column_parameters_hashable (c : label) :
  all_hashable ps → forallb hashable (column df0 c) = true.
Proof.
  intros Hhashable. rewrite column_parameters.
  apply convert_objects_hashable, forallb_forall. intros v Hv.
  apply list_elem_of_In, list_elem_of_fmap in Hv as (d & -> & Hd).
  unfold tabulated. destruct (d !! c) as [v|] eqn:Hc; simpl; [|done].
  by apply (Hhashable d c).
Qed.

(** The stored values of a column are all the same exactly if the
    parameter is fixed in the table. *)
Lemma stored_fixed (c : label) :
  (∀ v w, v ∈ stored ps c → w ∈ stored ps c → v = w) ↔ fixed_in_table ps c.
Proof.
  unfold stored, convert_objects.
  destruct (as_floats ((λ d, tabulated d c) <$> ps)) eqn:Hf; split.
  - intros H d d' Hd Hd'.
    apply as_floats_missing in Hf as (Hn & e & He & Hm).
    assert (∀ d1, d1 ∈ ps → none_as_nan (tabulated d1 c) = PNaN) as Hall.
    { intros d1 Hd1.
      assert (to_float (tabulated d1 c) = to_float e) as Heq.
      { apply H; apply list_elem_of_fmap.
        - exists (tabulated d1 c). split; [done|].
          apply list_elem_of_fmap. eauto.
        - by exists e. }
      rewrite (to_float_none_as_nan e), Hm in Heq.
      assert (is_number (tabulated d1 c) = true) as Hn1.
      { apply Hn. apply list_elem_of_fmap. eauto. }
      by destruct (tabulated d1 c). }
    by rewrite !Hall.
  - intros H v w (x & -> & (d & -> & Hd)%list_elem_of_fmap)%list_elem_of_fmap
             (y & -> & (d' & -> & Hd')%list_elem_of_fmap)%list_elem_of_fmap.
    rewrite (to_float_none_as_nan (tabulated d c)),
      (to_float_none_as_nan (tabulated d' c)). f_equal. by apply H.
  - intros H d d' Hd Hd'. f_equal. apply H; apply list_elem_of_fmap; eauto.
  - intros H v w (d & -> & Hd)%list_elem_of_fmap
             (d' & -> & Hd')%list_elem_of_fmap.
    destruct (decide (tabulated d c = tabulated d' c)) as [|Hne]; [done|].
    exfalso. pose proof (H d d' Hd Hd') as Hdd.
    assert (none_as_nan (tabulated d c) = PNaN
            ∧ (tabulated d c = PNaN ∨ tabulated d' c = PNaN)) as [Hm Hnan].
    { destruct (tabulated d c), (tabulated d' c);
        cbn [none_as_nan] in Hdd; try done; try (split; [done|]; by auto). }
    rewrite as_floats_all_missing in Hf; [done| |].
    + intros x (d1 & -> & Hd1)%list_elem_of_fmap.
      by rewrite (H d1 d Hd1 Hd).
    + destruct Hnan as [<-|<-]; apply list_elem_of_fmap; eauto.
Qed.

Lemma single_stored (c : label) :
  ps ≠ [] → single df0 c ↔ ∀ v w, v ∈ stored ps c → w ∈ stored ps c → v = w.
Proof.
  intros Hps. unfold single. rewrite column_parameters. split.
  - intros (x & _ & Hall)%distinct_single v w Hv Hw.
    by rewrite (Hall v), (Hall w).
  - intros Hall. apply distinct_single.
    destruct (stored ps c) as [|x l] eqn:Hs.
    + apply (f_equal length) in Hs. unfold stored, convert_objects in Hs.
      destruct (as_floats _); rewrite ?length_fmap in Hs; by destruct ps.
    + exists x. split; [done|]. intros y Hy. apply Hall; [done|left].
Qed.

Lemma single_fixed (c : label) :
  occurs ps c → single df0 c ↔ fixed_in_table ps c.
Proof.
  intros (d0 & Hd0 & _). rewrite single_stored, stored_fixed; [done|].
  intros ->. by apply elem_of_nil in Hd0.
Qed.

Lemma fixed_or_varied (c : label) :
  fixed_in_table ps c ∨ varied_in_table ps c.
Proof.
  destruct ps as [|d0 l] eqn:Hps.
  - left. intros d d' Hd. by apply elem_of_nil in Hd.
  - destruct (decide (Forall (λ d, none_as_nan (tabulated d c)
                                   = none_as_nan (tabulated d0 c))
                        (d0 :: l))) as [Hall|Hno].
    + left. rewrite Forall_forall in Hall. intros d d' Hd Hd'.
      by rewrite (Hall d Hd), (Hall d' Hd').
    + right. apply not_Forall_Exists in Hno; [|apply _].
      apply Exists_exists in Hno as (d & Hd & Hne).
      exists d, d0. split; [done|]. split; [left|done].
Qed.

Lemma not_single_varied (c : label) :
  occurs ps c → ¬ single df0 c ↔ varied_in_table ps c.
Proof.
  intros Hocc. split.
  - intros Hns. destruct (fixed_or_varied c) as [Hf|Hv]; [|done].
    by apply single_fixed in Hf.
  - intros (d & d' & Hd & Hd' & Hne) Hs.
    apply single_fixed in Hs; [|done]. by apply Hne, Hs.
Qed.

(** A parameter whose values are identical as they are given is stored
    as it is given. *)
Lemma stored_fixed_parameter (c : label) :
  fixed_parameter ps c → stored ps c = (λ d, tabulated d c) <$> ps.
Proof.
  intros Hfix. unfold stored, convert_objects.
  destruct (as_floats _) eqn:Hf; [|done].
  destruct (as_floats_missing _ Hf)
    as (_ & e & (d & -> & Hd)%list_elem_of_fmap & Hm).
  assert (∀ x, x ∈ (λ d, tabulated d c) <$> ps → x = tabulated d c) as Hall.
  { intros x (d' & -> & Hd')%list_elem_of_fmap. by apply Hfix. }
  destruct (decide (tabulated d c = PNaN)) as [Hnan|Hnone].
  - rewrite <- (list_fmap_id ((λ d, tabulated d c) <$> ps)) at 2.
    apply list_fmap_ext. intros i x Hx%list_elem_of_lookup_2.
    by rewrite (Hall x Hx), Hnan.
  - exfalso. assert (tabulated d c = PNone) as Hn
      by (by destruct (tabulated d c)).
    unfold as_floats in Hf. apply andb_prop in Hf as [_ Hf].
    apply orb_prop in Hf as [Hf|[_ Hf]%andb_prop];
      apply existsb_exists in Hf as (x & Hx%list_elem_of_In & Hf);
      by rewrite (Hall x Hx), Hn in Hf.
Qed.

Lemma fixed_parameter_in_table (c : label) :
  fixed_parameter ps c → fixed_in_table ps c.
Proof. intros Hfix d d' Hd Hd'. f_equal. by apply Hfix. Qed.

Lemma head_column_fixed (c : label) (d : pdict) :
  d ∈ ps → fixed_parameter ps c →
  head (column df0 c) = Some (tabulated d c).
Proof.
  intros Hd Hfix. rewrite column_parameters, stored_fixed_parameter by done.
  destruct ps as [|d1 l]; [by apply elem_of_nil in Hd|].
  simpl. f_equal. apply Hfix; [left|done].
Qed.

Lemma rows_parameters : occurs_any ps → df_rows df0 ≠ [].
Proof.
  intros (c & d & Hd & _) Hnil.
  apply (f_equal length) in Hnil.
  rewrite length_rows_DataFrame_of, length_fmap in Hnil.
  destruct ps; [by apply elem_of_nil in Hd|done].
Qed.

End report.

(** C6, as the design document has it, fails on a parameter set without
    parameters: every parameter (there is none) is identical across the
    runs, and every parameter varies, yet the report is the two-part
    structure, with both parts empty. *)
Lemma report_shape_without_parameters : ¬ report_shape_claim [∅].
Proof.
  intros ([f Hf] & _).
  - intros c (d & Hd & [v Hv]).
    apply list_elem_of_singleton in Hd as ->. by rewrite lookup_empty in Hv.
  - vm_compute in Hf. discriminate.
Qed.

(** So it does on a parameter that one set gives as NaN and another as
    [None]: the two differ as they are given, every parameter varies, yet
    the table stores NaN for both and the report is the flat mapping. *)
Lemma report_shape_none_beside_nan :
  ¬ report_shape_claim
      [ {[ LName "a" := PNaN ]}; {[ LName "a" := PNone ]} ].
Proof.
  intros (_ & Hvar & _). destruct Hvar as [df Hdf].
  - intros c (d & Hd & [v Hv]).
    assert (c = LName "a") as ->.
    { apply elem_of_cons in Hd as [->|Hd];
        [|apply list_elem_of_singleton in Hd as ->];
        by apply lookup_singleton_Some in Hv as [<- _]. }
    exists {[ LName "a" := PNaN ]}, {[ LName "a" := PNone ]}.
    split; [left|]. split; [right; left|]. by vm_compute.
  - vm_compute in Hdf. discriminate.
Qed.

(** C6, amended: for every parameter list of hashable values (the
    integers of the 64-bit range) in which some parameter occurs, the
    report is a flat fixed mapping (of the shared values, as the table
    stores them) if every parameter is identical across the sets, the
    whole table if every parameter varies, and the two-part structure,
    fixed parameters in the one part and varied ones in the other, if
    both kinds exist; [None] and a missing value count as identical, the
    table storing both as NaN.  A list in which no parameter occurs
    yields the two-part structure with both parts empty. *)
Theorem report_shape (ps : list pdict) :
  all_hashable ps → int64_values ps →
  let report := _parameters_to_output (Some <$> ps) in
  (occurs_any ps → (∀ c, occurs ps c → fixed_in_table ps c) →
   ∃ f, report = Ok (Fixed f)
        ∧ ∀ c, occurs ps c →
               ∃ v, f !! c = Some v ∧ ∀ w, w ∈ stored ps c → w = v)
  ∧ (occurs_any ps → (∀ c, occurs ps c → varied_in_table ps c) →
     report = Ok (Table (DataFrame_of (Some <$> ps))))
  ∧ ((∃ c, occurs ps c ∧ fixed_in_table ps c) →
     (∃ c, occurs ps c ∧ varied_in_table ps c) →
     ∃ f df, report = Ok (FixedVaried f df)
             ∧ (∀ c, is_Some (f !! c) ↔ occurs ps c ∧ fixed_in_table ps c)
             ∧ (∀ c, c ∈ df_columns df
                     ↔ occurs ps c ∧ varied_in_table ps c))
  ∧ (¬ occurs_any ps →
     report = Ok (FixedVaried ∅ (DataFrame_of (Some <$> ps)))).
Proof.
  intros Hh _ report.
  set (df0 := DataFrame_of (Some <$> ps)).
  destruct (for_each_document_hashable (df_columns df0) (∅, df0))
    as (st & Hst & Hfix & Hrest & Hcols & Hrows & Hid).
  { apply NoDup_distinct. }
  { intros c _. by apply column_parameters_hashable. }
  cbn [fst snd] in Hfix, Hrest, Hcols, Hrows, Hid.
  assert (∀ c, c ∈ df_columns df0 ↔ occurs ps c) as Hcp
    by apply columns_parameters.
  pose proof (report_of_state _ _ Hst) as Hrep. fold report in Hrep.
  assert (∀ c, occurs ps c → single df0 c → is_Some (st.1 !! c)) as Hsome.
  { intros c Hocc Hs. rewrite Hfix; [|by apply columns_parameters|done].
    apply distinct_single in Hs as (x & -> & _). eauto. }
  assert (∀ c, is_Some (st.1 !! c) → occurs ps c ∧ single df0 c) as Hsome'.
  { intros c Hc.
    destruct (decide (c ∈ df_columns df0)) as [Hin|Hout].
    - destruct (decide (length (distinct (column df0 c)) = 1))
        as [Hs|Hns].
      + split; [by apply columns_parameters|done].
      + rewrite Hrest, lookup_empty in Hc by (by intros [_ ?]).
        by destruct Hc.
    - rewrite Hrest, lookup_empty in Hc by (by intros [? _]).
      by destruct Hc. }
  repeat split.
  - (* every parameter fixed *)
    intros Hany Hall. exists st.1. split.
    + rewrite Hrep. destruct Hany as [c0 Hc0].
      rewrite bool_decide_eq_true_2.
      2:{ intros Hempty. destruct (Hsome c0) as [v Hv]; [done| |].
          - by apply single_fixed, Hall.
          - by rewrite Hempty, lookup_empty in Hv. }
      unfold empty. rewrite bool_decide_eq_true_2; [done|].
      apply elem_of_nil_inv. intros c [Hin Hno]%Hcols. apply Hno.
      split; [done|]. apply columns_parameters in Hin.
      by apply single_fixed, Hall.
    + intros c Hocc.
      assert (single df0 c) as Hs by (by apply single_fixed, Hall).
      rewrite Hfix; [|by apply columns_parameters|done].
      unfold single, df0 in Hs. rewrite column_parameters in Hs.
      apply distinct_single in Hs as (x & Hx & Hallx).
      exists x. unfold df0. by rewrite column_parameters.
  - (* every parameter varied *)
    intros Hany Hall. rewrite Hrep, Hid.
    2:{ intros c Hin. apply columns_parameters in Hin.
        by apply not_single_varied, Hall. }
    simpl. rewrite bool_decide_eq_false_2 by (by intros H; apply H).
    simpl. rewrite bool_decide_eq_true_2 by done. simpl.
    unfold empty.
    rewrite !bool_decide_eq_false_2; [done|by apply rows_parameters|].
    destruct Hany as [c0 Hc0]. apply columns_parameters in Hc0.
    intros Hnil. fold df0 in Hc0. rewrite Hnil in Hc0.
    by apply elem_of_nil in Hc0.
  - (* both kinds *)
    intros (c1 & Hocc1 & Hfix1) (c2 & Hocc2 & Hvar2).
    exists st.1, st.2. split; [|split].
    + rewrite Hrep.
      assert (empty st.2 = false) as ->.
      { unfold empty. rewrite !bool_decide_eq_false_2; [done| |].
        - intros Hnil. apply (f_equal length) in Hnil.
          rewrite Hrows in Hnil. apply length_zero_iff_nil in Hnil.
          apply (rows_parameters ps); [by exists c2|done].
        - intros Hnil.
          assert (c2 ∈ df_columns st.2) as Hin; [|rewrite Hnil in Hin;
                                                  by apply elem_of_nil in Hin].
          apply Hcols. split; [by apply columns_parameters|].
          intros [_ Hs]. by apply (not_single_varied ps c2) in Hs. }
      rewrite andb_false_r. simpl.
      rewrite bool_decide_eq_false_2; [done|].
      intros Hempty. destruct (Hsome c1) as [v Hv]; [done| |].
      * by apply single_fixed.
      * by rewrite Hempty, lookup_empty in Hv.
    + intros c. split.
      * intros [Hocc Hs]%Hsome'. split; [done|]. by apply single_fixed.
      * intros [Hocc Hf]. apply Hsome; [done|]. by apply single_fixed.
    + intros c. rewrite Hcols, Hcp. split.
      * intros [Hocc Hno]. split; [done|]. apply not_single_varied; [done|].
        intros Hs. apply Hno. by split.
      * intros [Hocc Hv]. split; [done|]. intros [_ Hs].
        by apply (not_single_varied ps c) in Hs.
  - (* no parameter at all *)
    intros Hnone. unfold report, _parameters_to_output.
    assert (df_columns df0 = []) as Hnil.
    { apply elem_of_nil_inv. intros c Hc%columns_parameters.
      apply Hnone. by exists c. }
    fold df0. rewrite Hnil. simpl.
    rewrite bool_decide_eq_false_2 by (by intros H; apply H). simpl.
    unfold empty. rewrite Hnil. simpl. done.
Qed.

(** The two sample sets agree on [a] and differ on [b]: [a] is reported
    as fixed and [b] as varied. *)
Lemma report_shape_witness :
  ∃ f df,
    _parameters_to_output (Some <$> [sample_1; sample_2])
    = Ok (FixedVaried f df)
    ∧ is_Some (f !! LName "a") ∧ LName "b" ∈ df_columns df.
Proof.
  assert (all_hashable [sample_1; sample_2]) as Hh.
  { intros d c v Hd Hc.
    assert (d = sample_1 ∨ d = sample_2) as [-> | ->].
    { apply elem_of_cons in Hd as [->|Hd]; [by left|].
      apply list_elem_of_singleton in Hd as ->. by right. }
    - unfold sample_1 in Hc.
      apply lookup_insert_Some in Hc as [[_ <-]|[_ Hc]]; [done|].
      apply lookup_singleton_Some in Hc as [_ <-]. done.
    - unfold sample_2 in Hc.
      apply lookup_insert_Some in Hc as [[_ <-]|[_ Hc]]; [done|].
      apply lookup_singleton_Some in Hc as [_ <-]. done. }
  assert (occurs [sample_1; sample_2] (LName "a")) as Hoa.
  { exists sample_1. split; [left|]. by exists (PInt 1). }
  assert (occurs [sample_1; sample_2] (LName "b")) as Hob.
  { exists sample_1. split; [left|]. by exists (PInt 5). }
  assert (int64_values [sample_1; sample_2]) as Hi.
  { intros d c z Hd Hc.
    assert (d = sample_1 ∨ d = sample_2) as [-> | ->].
    { apply elem_of_cons in Hd as [->|Hd]; [by left|].
      apply list_elem_of_singleton in Hd as ->. by right. }
    - unfold sample_1 in Hc.
      apply lookup_insert_Some in Hc as [[_ [= <-]]|[_ Hc]]; [lia|].
      apply lookup_singleton_Some in Hc as [_ [= <-]]. lia.
    - unfold sample_2 in Hc.
      apply lookup_insert_Some in Hc as [[_ [= <-]]|[_ Hc]]; [lia|].
      apply lookup_singleton_Some in Hc as [_ [= <-]]. lia. }
  assert (fixed_in_table [sample_1; sample_2] (LName "a")) as Hfa.
  { intros d d' Hd Hd'.
    assert (∀ x, x ∈ [sample_1; sample_2] →
                 tabulated x (LName "a") = PInt 1) as Ha.
    { intros x Hx. apply elem_of_cons in Hx as [->|Hx]; [done|].
      apply list_elem_of_singleton in Hx as ->. done. }
    by rewrite !Ha. }
  assert (varied_in_table [sample_1; sample_2] (LName "b")) as Hvb.
  { exists sample_1, sample_2. split; [left|]. split; [right; left|].
    discriminate. }
  destruct (report_shape [sample_1; sample_2] Hh Hi) as (_ & _ & Hboth & _).
  destruct Hboth as (f & df & Hrep & Hf & Hdf); [by eauto..|].
  exists f, df. split; [exact Hrep|].
  split; [by apply Hf | by apply Hdf].
Defined.

(** ** The merge of the outputs *)

Lemma add_field_classify record combined_output item :
  add_field record combined_output item
  = match classify record item with
    | Skip => Ok combined_output
    | ToTypes items =>
        for_each (add_by_type item.1)
          (if bool_decide (combined_output !! item.1 = None)
           then <[item.1 := ByType ∅]> combined_output else combined_output)
          items
    | ToList v => add_other item.1 v combined_output
    end.
Proof.
  unfold add_field, classify.
  destruct (bool_decide (item.1 ∈ ["parameters"; "log"])); [done|].
  destruct (bool_decide (item.1 = "variables") && negb record); [done|].
  by destruct (if bool_decide (item.1 = "variables")
               then as_DataDict item.2 else None).
Qed.

Lemma classify_ToTypes record item items :
  classify record item = ToTypes items →
  item.1 = "variables" ∧ record = true ∧ item.2 = DataDict items.
Proof.
  unfold classify.
  destruct (bool_decide (item.1 ∈ ["parameters"; "log"])); [done|].
  case_bool_decide as Hk; simpl.
  - destruct record; simpl; [|done].
    destruct item.2 as [x|its] eqn:Hv; simpl; [done|].
    intros [= ->]. done.
  - done.
Qed.

Lemma classify_typed record item v :
  (record = true → variables_typed item) →
  classify record item = ToList v → item.1 ≠ "variables" ∧ v = item.2.
Proof.
  unfold classify. intros Hty.
  destruct (bool_decide (item.1 ∈ ["parameters"; "log"])); [done|].
  case_bool_decide as Hk; simpl.
  - destruct record; simpl; [|done].
    destruct (Hty eq_refl Hk) as (items & -> & _). done.
  - intros [= <-]. done.
Qed.

Lemma for_each_cons {A S} (body : S → A → result S) s x l :
  for_each body s (x :: l) = s' ← body s x; for_each body s' l.
Proof. done. Qed.

Lemma leaves_of_cons ty (item : string * leaf) items :
  leaves_of ty (item :: items)
  = (if decide (item.1 = ty) then [item.2] else []) ++ leaves_of ty items.
Proof. unfold leaves_of. simpl. by destruct (decide (item.1 = ty)). Qed.

Lemma add_by_type_ByType key (combined_output : gmap string slot) d item :
  combined_output !! key = Some (ByType d) →
  add_by_type key combined_output item
  = Ok (<[key := ByType
                   (<[item.1 := default []
                        ((if bool_decide (d !! item.1 = None)
                          then <[item.1 := []]> d else d) !! item.1)
                        ++ [item.2]]>
                      (if bool_decide (d !! item.1 = None)
                       then <[item.1 := []]> d else d))]> combined_output).
Proof. unfold add_by_type. by intros ->. Qed.

Lemma for_each_add_by_type (key : string) (items : list (string * leaf)) :
  ∀ (combined_output : gmap string slot) (d : gmap string (list leaf)),
    combined_output !! key = Some (ByType d) →
    ∃ d', for_each (add_by_type key) combined_output items
          = Ok (<[key := ByType d']> combined_output)
      ∧ ∀ ty, d' !! ty = match leaves_of ty items with
                         | [] => d !! ty
                         | l => Some (default [] (d !! ty) ++ l)
                         end.
Proof.
  induction items as [|[ty0 x] items IH]; intros comb d Hd.
  - exists d. split; [|done]. simpl. by rewrite insert_id.
  - rewrite for_each_cons, (add_by_type_ByType _ _ d) by done.
    cbn [fst snd mbind result_bind].
    set (d0 := if bool_decide (d !! ty0 = None) then <[ty0 := []]> d else d).
    assert (default [] (d0 !! ty0) = default [] (d !! ty0)) as Hd0.
    { unfold d0. case_bool_decide as Hn; [|done].
      by rewrite lookup_insert_eq, Hn. }
    assert (∀ ty, ty ≠ ty0 → d0 !! ty = d !! ty) as Hd0'.
    { intros ty Hne. unfold d0. case_bool_decide; [|done].
      by rewrite lookup_insert_ne. }
    rewrite Hd0.
    set (d1 := <[ty0 := default [] (d !! ty0) ++ [x]]> d0).
    destruct (IH (<[key := ByType d1]> comb) d1) as (d' & -> & Hd').
    { by rewrite lookup_insert_eq. }
    exists d'. split; [by rewrite insert_insert_eq|].
    intros ty. rewrite Hd', leaves_of_cons. cbn [fst snd].
    destruct (decide (ty0 = ty)) as [->|Hne].
    + unfold d1. rewrite lookup_insert_eq. cbn [default app].
      destruct (leaves_of ty items) as [|y l]; [done|].
      f_equal. unfold id. by rewrite <- app_assoc.
    + unfold d1. rewrite lookup_insert_ne, Hd0' by done. done.
Qed.

Lemma as_values_snoc (l : list value) (v : value) :
  as_values (l ++ [v]) = Some (Values (l ++ [v])).
Proof. by destruct l. Qed.

Lemma existsb_false_type_leaves record ty its :
  existsb (has_types record) its = false → its ≫= type_leaves record ty = [].
Proof.
  induction its as [|it its IH]; [done|].
  intros H. cbn [existsb] in H. apply orb_false_elim in H as [Hit Hits].
  change ((it :: its) ≫= type_leaves record ty)
    with (type_leaves record ty it ++ (its ≫= type_leaves record ty)).
  rewrite IH by done. unfold has_types in Hit. unfold type_leaves.
  by destruct (classify record it).
Qed.

Lemma bind_snoc {A B} (f : A → list B) (l : list A) (x : A) :
  (l ++ [x]) ≫= f = (l ≫= f) ++ f x.
Proof. rewrite bind_app. simpl. by rewrite app_nil_r. Qed.

(** The closed form of the merge of the items of a list of bundles. *)
Lemma for_each_add_field record (its : list (string * value)) :
  (record = true → Forall variables_typed its) →
  ∃ combined_output,
    for_each (add_field record) ∅ its = Ok combined_output
    ∧ combined_of record its combined_output.
Proof.
  unfold combined_of.
  induction its as [|it its IH] using rev_ind; intros Hty.
  - exists ∅. split; [done|]. split.
    + intros key _. apply lookup_empty.
    + apply lookup_empty.
  - destruct IH as (comb & Hcomb & Hvals & Hvars).
    { intros Hr. specialize (Hty Hr). by apply Forall_app in Hty as [? _]. }
    assert (record = true → variables_typed it) as Hit.
    { intros Hr. specialize (Hty Hr).
      rewrite Forall_app, Forall_singleton in Hty. by destruct Hty. }
    rewrite for_each_app, Hcomb. cbn [mbind result_bind for_each].
    rewrite add_field_classify.
    destruct (classify record it) as [|items|v] eqn:Hcl.
    + (* skipped *)
      assert (∀ key, field_values record key it = []) as Hfv
        by (intros; unfold field_values; by rewrite Hcl).
      assert (has_types record it = false) as Hht
        by (unfold has_types; by rewrite Hcl).
      assert (∀ ty, type_leaves record ty it = []) as Htl
        by (intros; unfold type_leaves; by rewrite Hcl).
      exists comb. split; [done|]. split.
      * intros key Hkey. rewrite bind_snoc, Hfv, app_nil_r. by apply Hvals.
      * rewrite existsb_app. cbn [existsb]. rewrite Hht, !orb_false_r.
        destruct (existsb (has_types record) its); [|done].
        destruct Hvars as (d & Hd & Hty'). exists d. split; [done|].
        intros ty. rewrite bind_snoc, Htl, app_nil_r. apply Hty'.
    + (* a variables subdict *)
      assert (∀ key, field_values record key it = []) as Hfv
        by (intros; unfold field_values; by rewrite Hcl).
      assert (has_types record it = true) as Hht
        by (unfold has_types; by rewrite Hcl).
      assert (∀ ty, type_leaves record ty it = leaves_of ty items) as Htl
        by (intros; unfold type_leaves; by rewrite Hcl).
      apply classify_ToTypes in Hcl as (Hk & _ & _).
      rewrite Hk.
      set (comb1 := if bool_decide (comb !! "variables" = None)
                    then <["variables" := ByType ∅]> comb else comb).
      assert (∃ d, comb1 !! "variables" = Some (ByType d)
                   ∧ ∀ ty, d !! ty = as_list (its ≫= type_leaves record ty))
        as (d & Hd & Hdty).
      { unfold comb1. destruct (existsb (has_types record) its) eqn:Hex.
        - destruct Hvars as (d & Hd & Hdty). exists d.
          rewrite Hd, bool_decide_eq_false_2 by done. done.
        - rewrite Hvars, bool_decide_eq_true_2 by done. exists ∅.
          rewrite lookup_insert_eq. split; [done|]. intros ty.
          by rewrite existsb_false_type_leaves. }
      destruct (for_each_add_by_type "variables" items comb1 d Hd)
        as (d' & -> & Hd').
      eexists. split; [done|]. split.
      * intros key Hkey. rewrite lookup_insert_ne by done.
        rewrite bind_snoc, Hfv, app_nil_r, <- Hvals by done.
        unfold comb1. case_bool_decide; [|done].
        by rewrite lookup_insert_ne.
      * rewrite existsb_app. cbn [existsb]. rewrite Hht, orb_true_r.
        exists d'. rewrite lookup_insert_eq.
        split; [done|]. intros ty. rewrite Hd', Hdty, bind_snoc, Htl.
        destruct (leaves_of ty items) as [|x l]; [by rewrite app_nil_r|].
        by destruct (its ≫= type_leaves record ty).
    + (* another output type *)
      assert (has_types record it = false) as Hht
        by (unfold has_types; by rewrite Hcl).
      assert (∀ ty, type_leaves record ty it = []) as Htl
        by (intros; unfold type_leaves; by rewrite Hcl).
      assert (∀ key, field_values record key it
                     = if decide (it.1 = key) then [v] else []) as Hfv
        by (intros; unfold field_values; by rewrite Hcl).
      apply (classify_typed _ _ _ Hit) in Hcl as [Hk ->].
      unfold add_other. rewrite (Hvals _ Hk).
      set (l := its ≫= field_values record it.1).
      exists (<[it.1 := Values (l ++ [it.2])]> comb). split.
      * destruct l as [|v0 l0] eqn:Hl; cbn [as_values].
        -- rewrite bool_decide_eq_true_2 by done.
           rewrite lookup_insert_eq. by rewrite insert_insert_eq.
        -- rewrite bool_decide_eq_false_2 by done.
           rewrite (Hvals _ Hk). fold l. by rewrite Hl.
      * split.
        -- intros key Hkey. rewrite bind_snoc, Hfv.
           destruct (decide (it.1 = key)) as [<-|Hne].
           ++ rewrite lookup_insert_eq. fold l. by rewrite as_values_snoc.
           ++ rewrite lookup_insert_ne, app_nil_r by done. by apply Hvals.
        -- rewrite existsb_app. cbn [existsb].
           rewrite Hht, !orb_false_r, lookup_insert_ne by done.
           destruct (existsb (has_types record) its); [|done].
           destruct Hvars as (d & Hd & Hdty). exists d. split; [done|].
           intros ty. rewrite bind_snoc, Htl, app_nil_r. apply Hdty.
Qed.

(** ** [_combine_dataframes] *)

Lemma for_each_ext_in {A S} (body body' : S → A → result S) s l :
  (∀ s x, x ∈ l → body s x = body' s x) →
  for_each body s l = for_each body' s l.
Proof.
  revert s. induction l as [|x l IH]; intros s H; [done|].
  rewrite !for_each_cons, H by left.
  destruct (body' s x); [|done]. cbn [mbind result_bind].
  apply IH. intros s' y Hy. apply H. by right.
Qed.

(** A loop that stores one computed entry per key. *)
Lemma for_each_insert_list {V W} (g : string → V → result W)
    (l : list (string * V)) :
  ∀ out : gmap string W,
    NoDup l.*1 →
    (∀ k v, (k, v) ∈ l → ∃ w, g k v = Ok w) →
    ∃ out', for_each (λ out kv, w ← g kv.1 kv.2; Ok (<[kv.1 := w]> out)) out l
            = Ok out'
      ∧ (∀ k v, (k, v) ∈ l → ∃ w, g k v = Ok w ∧ out' !! k = Some w)
      ∧ (∀ k, k ∉ l.*1 → out' !! k = out !! k).
Proof.
  induction l as [|[k v] l IH]; intros out Hnd Hg.
  - exists out. split; [done|]. split; [|done].
    intros k v Hkv. by apply elem_of_nil in Hkv.
  - rewrite fmap_cons in Hnd. apply NoDup_cons in Hnd as [Hk Hnd].
    destruct (Hg k v) as [w Hw]; [left|].
    rewrite for_each_cons. cbn [fst snd]. rewrite Hw.
    cbn [mbind result_bind].
    destruct (IH (<[k := w]> out) Hnd) as (out' & -> & Hin & Hout).
    { intros k' v' Hkv. apply Hg. by right. }
    exists out'. split; [done|]. split.
    + intros k' v' [Heq|Hkv]%elem_of_cons.
      * injection Heq as -> ->. exists w. split; [done|].
        rewrite Hout by done. apply lookup_insert_eq.
      * by apply Hin.
    + intros k' Hk'. rewrite fmap_cons in Hk'.
      apply not_elem_of_cons in Hk' as [Hne Hk'].
      rewrite Hout by done. by apply lookup_insert_ne.
Qed.

Lemma for_each_insert_map {V W} (g : string → V → result W)
    (m : gmap string V) (out : gmap string W) :
  (∀ k v, m !! k = Some v → ∃ w, g k v = Ok w) →
  ∃ out', for_each (λ out kv, w ← g kv.1 kv.2; Ok (<[kv.1 := w]> out))
            out (map_to_list m) = Ok out'
    ∧ (∀ k v, m !! k = Some v → ∃ w, g k v = Ok w ∧ out' !! k = Some w)
    ∧ (∀ k, m !! k = None → out' !! k = out !! k).
Proof.
  intros Hg.
  destruct (for_each_insert_list g (map_to_list m) out)
    as (out' & Hout' & Hin & Hout).
  { apply NoDup_fst_map_to_list. }
  { intros k v Hkv. apply Hg. by apply elem_of_map_to_list. }
  exists out'. split; [done|]. split.
  - intros k v Hkv. apply Hin. by apply elem_of_map_to_list.
  - intros k Hk. apply Hout. intros Hin'.
    apply list_elem_of_fmap in Hin' as ([k' v] & -> & Hkv).
    apply elem_of_map_to_list in Hkv. simpl in Hk. congruence.
Qed.

Lemma combine_field_slot (output : gmap string outval) (item : string * slot) :
  item.1 ≠ "log" →
  combine_field output item
  = o ← combine_slot item.2; Ok (<[item.1 := o]> output).
Proof.
  intros Hlog. unfold combine_field, combine_slot.
  destruct item.2 as [values|values].
  - destruct (bool_decide (values ≠ []) && forallb value_is_frame values).
    + by destruct (concat_frames (leaves values)).
    + by rewrite bool_decide_eq_true_2.
  - by destruct (for_each _ ∅ (map_to_list values)).
Qed.

Lemma concat_frames_stack (objs : list leaf) :
  objs ≠ [] → forallb is_frame objs = true →
  concat_frames objs = Ok (stack objs).
Proof.
  intros Hne Hall. unfold concat_frames. destruct objs; [done|].
  by rewrite Hall.
Qed.

Lemma leaves_frames (l : list value) :
  forallb value_is_frame l = true →
  length (leaves l) = length l ∧ forallb is_frame (leaves l) = true.
Proof.
  induction l as [|v l IH]; [done|]. cbn [forallb].
  intros [Hv Hl]%andb_prop. destruct (IH Hl) as [IH1 IH2].
  destruct v as [[df|?]|?]; try done.
  change (leaves (Leaf (Frame df) :: l)) with (Frame df :: leaves l).
  split; [simpl; by rewrite IH1|done].
Qed.

Lemma combine_slot_Values (l : list value) :
  l ≠ [] →
  combine_slot (Values l)
  = Ok (if forallb value_is_frame l
        then Table (stack (leaves l)) else Listed l).
Proof.
  intros Hne. unfold combine_slot. rewrite bool_decide_eq_true_2 by done.
  cbn [andb]. destruct (forallb value_is_frame l) eqn:Hall; [|done].
  destruct (leaves_frames l Hall) as [Hlen Hfr].
  rewrite concat_frames_stack; [done| |done].
  intros Hnil. rewrite Hnil in Hlen. by destruct l.
Qed.

Lemma combine_slot_ByType (d : gmap string (list leaf)) :
  (∀ ty lv, d !! ty = Some lv → lv ≠ [] ∧ forallb is_frame lv = true) →
  ∃ sub, combine_slot (ByType d) = Ok (SubDataDict sub)
         ∧ ∀ ty, sub !! ty = stack <$> d !! ty.
Proof.
  intros Hd. unfold combine_slot.
  destruct (for_each_insert_map (λ _ lv, concat_frames lv) d ∅)
    as (sub & -> & Hin & Hout).
  { intros ty lv Hlv. exists (stack lv).
    destruct (Hd ty lv Hlv). by apply concat_frames_stack. }
  exists sub. split; [done|]. intros ty.
  destruct (d !! ty) as [lv|] eqn:Hlv.
  - destruct (Hin ty lv Hlv) as (w & Hw & ->). simpl. f_equal.
    destruct (Hd ty lv Hlv) as [Hne Hall].
    rewrite concat_frames_stack in Hw by done. by injection Hw.
  - rewrite Hout by done. apply lookup_empty.
Qed.

Lemma field_values_nil record key item :
  key ∈ ["parameters"; "log"] → field_values record key item = [].
Proof.
  intros Hkey. unfold field_values, classify.
  case_bool_decide as Hk; [done|].
  destruct (bool_decide (item.1 = "variables") && negb record); [done|].
  destruct (if bool_decide (item.1 = "variables")
            then as_DataDict item.2 else None); [done|].
  destruct (decide (item.1 = key)) as [Heq|]; [|done].
  by rewrite Heq in Hk.
Qed.

Lemma bind_nil_all {A B} (f : A → list B) (l : list A) :
  (∀ x, f x = []) → l ≫= f = [].
Proof.
  intros Hf. induction l as [|x l IH]; [done|].
  change ((x :: l) ≫= f) with (f x ++ (l ≫= f)). by rewrite Hf, IH.
Qed.

Lemma type_leaves_frames record ty (its : list (string * value)) :
  (record = true → Forall variables_typed its) →
  forallb is_frame (its ≫= type_leaves record ty) = true.
Proof.
  intros Hty. apply forallb_forall. intros x Hx.
  apply list_elem_of_In, list_elem_of_bind in Hx as (it & Hx & Hit).
  unfold type_leaves in Hx.
  destruct (classify record it) as [|items|] eqn:Hcl;
    try by apply elem_of_nil in Hx.
  apply classify_ToTypes in Hcl as (Hk & Hr & Hv).
  specialize (Hty Hr). rewrite Forall_forall in Hty.
  destruct (Hty it Hit Hk) as (items' & Hv' & Hfr).
  rewrite Hv in Hv'. injection Hv' as <-.
  apply list_elem_of_omap in Hx as ([ty' y] & Hy & Hsome).
  rewrite Forall_forall in Hfr. specialize (Hfr _ Hy). simpl in *.
  destruct (decide (ty' = ty)); [|done]. by injection Hsome as <-.
Qed.

(** The closed form of [aggregate] on the items of its bundles. *)
Lemma for_each_combine_field record (its : list (string * value))
    (combined_output : gmap string slot) :
  (record = true → Forall variables_typed its) →
  combined_of record its combined_output →
  ∃ out, _combine_dataframes combined_output ∅ = Ok out
         ∧ output_of record its out.
Proof.
  intros Hty [Hvals Hvars].
  assert (∀ k s, combined_output !! k = Some s →
                 k ≠ "log"
                 ∧ ∃ o, combine_slot s = Ok o
                        ∧ (k ≠ "variables" →
                           Some o = field_output
                                      (its ≫= field_values record k))
                        ∧ (k = "variables" →
                           ∃ sub, o = SubDataDict sub
                             ∧ ∀ ty, sub !! ty
                                 = stack <$> as_list
                                     (its ≫= type_leaves record ty))) as Hslot.
  { intros k s Hs. split.
    { intros ->. rewrite Hvals in Hs by done.
      rewrite bind_nil_all in Hs; [done|].
      intros x. apply field_values_nil. right; left. }
    destruct (decide (k = "variables")) as [->|Hk].
    - destruct (existsb (has_types record) its); [|congruence].
      destruct Hvars as (d & Hd & Hdty). rewrite Hd in Hs.
      injection Hs as <-.
      destruct (combine_slot_ByType d) as (sub & Hsub & Hsubty).
      { intros ty lv Hlv. rewrite Hdty in Hlv.
        pose proof (type_leaves_frames record ty its Hty) as Hfr.
        destruct (its ≫= type_leaves record ty); [done|].
        injection Hlv as <-. done. }
      exists (SubDataDict sub). split; [done|]. split; [done|].
      intros _. exists sub. split; [done|]. intros ty.
      by rewrite Hsubty, Hdty.
    - rewrite Hvals in Hs by done.
      destruct (its ≫= field_values record k) as [|v l] eqn:Hl; [done|].
      injection Hs as <-. rewrite combine_slot_Values by done.
      eexists. split; [done|]. split; [done|]. done. }
  unfold _combine_dataframes.
  rewrite (for_each_ext_in _
             (λ out kv, o ← (λ _ s, combine_slot s) kv.1 kv.2;
                        Ok (<[kv.1 := o]> out))).
  2:{ intros out [k s] Hks. apply elem_of_map_to_list in Hks.
      apply combine_field_slot. by apply (Hslot k s). }
  destruct (for_each_insert_map (λ _ s, combine_slot s) combined_output ∅)
    as (out & -> & Hin & Hout).
  { intros k s Hs. destruct (Hslot k s Hs) as (_ & o & Ho & _). eauto. }
  exists out. split; [done|]. split.
  - intros key Hkey.
    destruct (combined_output !! key) as [s|] eqn:Hs.
    + destruct (Hin key s Hs) as (w & Hw & ->).
      destruct (Hslot key s Hs) as (_ & o & Ho & Hfield & _).
      rewrite Hw in Ho. injection Ho as ->. by apply Hfield.
    + rewrite Hout, lookup_empty by done.
      rewrite Hvals in Hs by done.
      by destruct (its ≫= field_values record key).
  - destruct (existsb (has_types record) its).
    + destruct Hvars as (d & Hd & Hdty).
      destruct (Hin _ _ Hd) as (w & Hw & ->).
      destruct (Hslot _ _ Hd) as (_ & o & Ho & _ & Hsub).
      rewrite Hw in Ho. injection Ho as ->.
      destruct (Hsub eq_refl) as (sub & -> & Hsubty). eauto.
    + rewrite Hout, lookup_empty by done. done.
Qed.

Lemma aggregate_items record (bs : list bundle) :
  aggregate record bs
  = combined_output ← for_each (add_field record) ∅ (bs ≫= id);
    _combine_dataframes combined_output ∅.
Proof.
  unfold aggregate, _add_single_output_to_combined.
  by rewrite for_each_bind.
Qed.

Lemma aggregate_output record (bs : list bundle) :
  (record = true → Forall (Forall variables_typed) bs) →
  ∃ out, aggregate record bs = Ok out ∧ output_of record (bs ≫= id) out.
Proof.
  intros Hty.
  assert (record = true → Forall variables_typed (bs ≫= id)) as Hty'.
  { intros Hr. specialize (Hty Hr). apply Forall_forall. intros it Hit.
    apply list_elem_of_bind in Hit as (b & Hit & Hb).
    rewrite Forall_forall in Hty. specialize (Hty b Hb).
    rewrite Forall_forall in Hty. by apply Hty. }
  rewrite aggregate_items.
  destruct (for_each_add_field record (bs ≫= id) Hty') as (comb & -> & Hcomb).
  cbn [mbind result_bind].
  by apply for_each_combine_field.
Qed.

(** ** Aggregation in another order *)

Lemma bind_bind {A B C} (f : A → list B) (g : B → list C) (l : list A) :
  (l ≫= f) ≫= g = l ≫= λ x, f x ≫= g.
Proof.
  induction l as [|x l IH]; [done|].
  change ((x :: l) ≫= f) with (f x ++ (l ≫= f)).
  rewrite bind_app, IH. done.
Qed.

Lemma leaves_bind {A} (f : A → list value) (l : list A) :
  leaves (l ≫= f) = l ≫= λ x, leaves (f x).
Proof.
  induction l as [|x l IH]; [done|].
  change ((x :: l) ≫= f) with (f x ++ (l ≫= f)).
  unfold leaves in *. rewrite omap_app, IH. done.
Qed.

Lemma forallb_Permutation {A} (f : A → bool) (l l' : list A) :
  l ≡ₚ l' → forallb f l = forallb f l'.
Proof.
  induction 1 as [|x l l' _ IH|x y l|l l' l'' _ IH1 _ IH2]; simpl.
  - done.
  - by rewrite IH.
  - by destruct (f x), (f y).
  - congruence.
Qed.

Lemma existsb_Permutation {A} (f : A → bool) (l l' : list A) :
  l ≡ₚ l' → existsb f l = existsb f l'.
Proof.
  induction 1 as [|x l l' _ IH|x y l|l l' l'' _ IH1 _ IH2]; simpl.
  - done.
  - by rewrite IH.
  - by destruct (f x), (f y).
  - congruence.
Qed.

Lemma distinct_Permutation `{EqDecision A} (l l' : list A) :
  l ≡ₚ l' → distinct l ≡ₚ distinct l'.
Proof.
  intros Hperm. apply NoDup_Permutation; try apply NoDup_distinct.
  intros x. by rewrite !elem_of_distinct, Hperm.
Qed.

(** Blocks filtered and put one after the other: the order of the blocks
    does not matter as long as at most one of them keeps a row. *)
Lemma filter_bind_unique {A B} (P : B → Prop) `{∀ y, Decision (P y)}
    (Q : A → Prop) `{∀ x, Decision (Q x)} (f : A → list B) (L L' : list A) :
  L ≡ₚ L' →
  (∀ x, filter P (f x) ≠ [] → Q x) →
  length (filter Q L) ≤ 1 →
  filter P (L ≫= f) = filter P (L' ≫= f).
Proof.
  intros Hperm HQ.
  induction Hperm as [|x l l' _ IH|x y l|l l' l'' Hp1 IH1 _ IH2];
    intros Hlen.
  - done.
  - change (filter P (f x ++ (l ≫= f)) = filter P (f x ++ (l' ≫= f))).
    rewrite !filter_app, IH; [done|].
    rewrite filter_cons in Hlen. destruct (decide (Q x)); simpl in Hlen; lia.
  - change (filter P (f y ++ f x ++ (l ≫= f))
            = filter P (f x ++ f y ++ (l ≫= f))).
    rewrite !filter_app.
    destruct (filter P (f x)) as [|r rs] eqn:Hx; [done|].
    destruct (filter P (f y)) as [|r' rs'] eqn:Hy; [done|].
    exfalso.
    rewrite !filter_cons in Hlen.
    rewrite decide_True in Hlen by (apply HQ; by rewrite Hy).
    rewrite decide_True in Hlen by (apply HQ; by rewrite Hx).
    simpl in Hlen. lia.
  - rewrite IH1 by done. apply IH2.
    assert (filter Q l ≡ₚ filter Q l') as Hf by (by rewrite Hp1).
    apply Permutation_length in Hf. lia.
Qed.

Lemma same_table_stack (bs bs' : list bundle) (H : bundle → list leaf) :
  bs ≡ₚ bs' →
  (∀ b r, r ∈ H b ≫= frame_rows → r ∈ bundle_rows b) →
  same_table bs (stack (bs ≫= H)) (stack (bs' ≫= H)).
Proof.
  intros Hperm Hrows. unfold same_table, stack. cbn [df_rows df_columns].
  split; [by rewrite Hperm|].
  split; [apply distinct_Permutation; by rewrite Hperm|].
  intros rid Hsole. unfold rows_of_run. rewrite !bind_bind.
  apply (filter_bind_unique _ (carries rid)); [done| |done].
  intros b Hne. unfold carries, rows_of_run.
  destruct (filter _ (H b ≫= frame_rows)) as [|r rs] eqn:Hf; [done|].
  assert (r ∈ filter (λ r, head (row_index r) = Some rid)
                (H b ≫= frame_rows)) as Hr by (rewrite Hf; left).
  apply list_elem_of_filter in Hr as [HP Hr].
  intros Hnil.
  assert (r ∈ filter (λ r, head (row_index r) = Some rid) (bundle_rows b))
    as Hin by (apply list_elem_of_filter; split; [done|by apply Hrows]).
  rewrite Hnil in Hin. by apply elem_of_nil in Hin.
Qed.

Lemma classify_ToList record item v :
  classify record item = ToList v → v = item.2.
Proof.
  unfold classify.
  destruct (bool_decide (item.1 ∈ ["parameters"; "log"])); [done|].
  destruct (bool_decide (item.1 = "variables") && negb record); [done|].
  destruct (if bool_decide (item.1 = "variables")
            then as_DataDict item.2 else None); [done|].
  by intros [= <-].
Qed.

Lemma field_values_rows record key (b : bundle) (r : Row) :
  r ∈ leaves (b ≫= field_values record key) ≫= frame_rows →
  r ∈ bundle_rows b.
Proof.
  intros (x & Hr & Hx)%list_elem_of_bind.
  apply list_elem_of_omap in Hx as (v & Hv & Hleaf).
  apply list_elem_of_bind in Hv as (it & Hv & Hit).
  unfold field_values in Hv.
  destruct (classify record it) as [| |v'] eqn:Hcl;
    try by apply elem_of_nil in Hv.
  apply classify_ToList in Hcl as ->.
  destruct (decide (it.1 = key)); [|by apply elem_of_nil in Hv].
  apply list_elem_of_singleton in Hv as ->.
  apply list_elem_of_bind. exists it. split; [|done].
  destruct it.2; [|done]. injection Hleaf as ->. done.
Qed.

Lemma type_leaves_rows record ty (b : bundle) (r : Row) :
  r ∈ (b ≫= type_leaves record ty) ≫= frame_rows → r ∈ bundle_rows b.
Proof.
  intros (x & Hr & Hx)%list_elem_of_bind.
  apply list_elem_of_bind in Hx as (it & Hx & Hit).
  unfold type_leaves in Hx.
  destruct (classify record it) as [|items|] eqn:Hcl;
    try by apply elem_of_nil in Hx.
  apply classify_ToTypes in Hcl as (_ & _ & Hv).
  apply list_elem_of_omap in Hx as ([ty' y] & Hy & Hsome).
  simpl in Hsome. destruct (decide (ty' = ty)); [|done].
  injection Hsome as ->.
  apply list_elem_of_bind. exists it. split; [|done].
  rewrite Hv. simpl. apply list_elem_of_bind. exists (ty', x). done.
Qed.

(** C4, as the design document has it, fails: the tables are stacked in
    the order the bundles arrive in.  Two bundles that carry the same run
    id (the two scenarios of one run) leave the rows of that run id in
    arrival order; and for bundles of different runs the combined outputs
    as such differ with the order. *)
Lemma merge_follows_arrival_order :
  ¬ merge_order_independent false
      [measure_bundle 0 1; measure_bundle 0 2]
      [measure_bundle 0 2; measure_bundle 0 1]
  ∧ aggregate false [measure_bundle 0 1; measure_bundle 1 2]
    ≠ aggregate false [measure_bundle 1 2; measure_bundle 0 1].
Proof.
  assert (∀ r1 x1 r2 x2 out,
            aggregate false [measure_bundle r1 x1; measure_bundle r2 x2]
            = Ok out →
            out !! "measures"
            = Some (Table (stack [Frame (measure_frame r1 x1);
                                  Frame (measure_frame r2 x2)]))) as Hm.
  { intros r1 x1 r2 x2 out Hout.
    destruct (aggregate_output false
                [measure_bundle r1 x1; measure_bundle r2 x2])
      as (o & Ho & Hf & _); [done|].
    rewrite Hout in Ho. injection Ho as <-. by rewrite Hf. }
  split.
  - intros H. destruct H as (out & out' & Hout & Hout' & Hid).
    { apply perm_swap. }
    specialize (Hid "measures" _ _ 0%Z (Hm _ _ _ _ _ Hout)
                  (Hm _ _ _ _ _ Hout')).
    vm_compute in Hid. discriminate.
  - intros H.
    destruct (aggregate_output false
                [measure_bundle 0 1; measure_bundle 1 2])
      as (out & Hout & _); [done|].
    destruct (aggregate_output false
                [measure_bundle 1 2; measure_bundle 0 1])
      as (out' & Hout' & _); [done|].
    pose proof (Hm _ _ _ _ _ Hout) as H1.
    pose proof (Hm _ _ _ _ _ Hout') as H2.
    rewrite Hout, Hout' in H. injection H as <-.
    rewrite H1 in H2. vm_compute in H2. discriminate.
Qed.

(** C4, amended: for every collection of run bundles (whose variables
    field, when variables are recorded, is a subdict of tables per object
    type), aggregating the bundles in any permutation of the submission
    order succeeds as it does in submission order and yields the same
    fields, each with the same rows and columns up to order: the tables
    are stacked in arrival order.  Row for row the result is identical
    for every run id that a single bundle carries. *)
Theorem aggregate_permutation record (bs bs' : list bundle) :
  bs ≡ₚ bs' →
  (record = true → Forall (Forall variables_typed) bs) →
  ∃ out out',
    aggregate record bs = Ok out ∧ aggregate record bs' = Ok out'
    ∧ ∀ key, option_Forall2 (same_output bs) (out !! key) (out' !! key).
Proof.
  intros Hperm Hty.
  destruct (aggregate_output record bs Hty) as (out & Hout & Hf & Hv).
  destruct (aggregate_output record bs') as (out' & Hout' & Hf' & Hv').
  { intros Hr. rewrite <- Hperm. by apply Hty. }
  exists out, out'. split; [done|]. split; [done|].
  intros key. destruct (decide (key = "variables")) as [->|Hk].
  - rewrite <- (existsb_Permutation _ (bs ≫= id) (bs' ≫= id)) in Hv'
      by (by rewrite Hperm).
    destruct (existsb (has_types record) (bs ≫= id)).
    + destruct Hv as (sub & -> & Hsub), Hv' as (sub' & -> & Hsub').
      constructor. constructor. intros ty.
      rewrite Hsub, Hsub', !bind_bind.
      set (T := λ b : bundle, id b ≫= type_leaves record ty).
      pose proof (same_table_stack bs bs' T Hperm
                    (type_leaves_rows record ty)) as Hst.
      assert (bs ≫= T ≡ₚ bs' ≫= T) as Hp by (by rewrite Hperm).
      destruct (bs ≫= T) as [|x l], (bs' ≫= T) as [|x' l']; simpl.
      * constructor.
      * by apply Permutation_nil_cons in Hp.
      * symmetry in Hp. by apply Permutation_nil_cons in Hp.
      * by constructor.
    + rewrite Hv, Hv'. constructor.
  - rewrite Hf, Hf', !bind_bind by done.
    set (F := λ b : bundle, id b ≫= field_values record key).
    pose proof (same_table_stack bs bs' (λ b, leaves (F b)) Hperm
                  (field_values_rows record key)) as Hst.
    rewrite <- !leaves_bind in Hst.
    assert (bs ≫= F ≡ₚ bs' ≫= F) as Hp by (by rewrite Hperm).
    pose proof (forallb_Permutation value_is_frame _ _ Hp) as Hall.
    destruct (bs ≫= F) as [|x l], (bs' ≫= F) as [|x' l'].
    + constructor.
    + by apply Permutation_nil_cons in Hp.
    + symmetry in Hp. by apply Permutation_nil_cons in Hp.
    + unfold field_output. rewrite <- Hall.
      constructor. destruct (forallb value_is_frame (x :: l)).
      * by constructor.
      * by constructor.
Qed.

Lemma aggregate_permutation_witness :
  ∃ out out',
    aggregate true [recorded_bundle 0 1; recorded_bundle 1 2] = Ok out
    ∧ aggregate true [recorded_bundle 1 2; recorded_bundle 0 1] = Ok out'
    ∧ ∀ key,
        option_Forall2
          (same_output [recorded_bundle 0 1; recorded_bundle 1 2])
          (out !! key) (out' !! key).
Proof.
  apply (aggregate_permutation true
           [recorded_bundle 0 1; recorded_bundle 1 2]
           [recorded_bundle 1 2; recorded_bundle 0 1]).
  - apply perm_swap.
  - intros _.
    assert (∀ rid x, Forall variables_typed (recorded_bundle rid x)) as Hb.
    { intros rid x. unfold recorded_bundle.
      repeat apply Forall_cons_2; try apply Forall_nil_2;
        try (intros Hk; discriminate Hk).
      intros _. eexists. split; [reflexivity|].
      apply Forall_cons_2; [reflexivity|apply Forall_nil_2]. }
    apply Forall_cons_2; [apply Hb|].
    apply Forall_cons_2; [apply Hb|]. apply Forall_nil_2.
Defined.

(** * Further properties of the experiment *)

(** ** Runs without work, and the two modes of [run] *)

Lemma combine_dataframes_empty (output : gmap string outval) :
  _combine_dataframes ∅ output = Ok output.
Proof. unfold _combine_dataframes. by rewrite map_to_list_empty. Qed.

Lemma pool_map_lookup {A B} (f : A → result B) (ids : list A) :
  ∀ ws : list B,
    length ids = length ws →
    (∀ k i w, ids !! k = Some i → ws !! k = Some w → f i = Ok w) →
    pool_map f ids = Ok ws.
Proof.
  induction ids as [|i ids IH]; intros [|w ws] Hlen Hf; try done.
  simpl. rewrite (Hf 0 i w) by done. cbn [mbind result_bind].
  rewrite (IH ws); [done|by injection Hlen|].
  intros k i' w' Hi Hw. by apply (Hf (S k)).
Qed.

Lemma pool_map_bind {A B C} (f : A → result B) (g : B → C) (ids : list A) :
  pool_map (λ i, mbind (M := result) (λ w, Ok (g w)) (f i)) ids
  = mbind (M := result) (λ ws : list B, Ok (g <$> ws)) (pool_map f ids).
Proof.
  induction ids as [|i ids IH]; [done|]. simpl.
  destruct (f i) as [w|]; [|done]. cbn [mbind result_bind].
  rewrite IH. by destruct (pool_map f ids).
Qed.

Lemma pool_map_raise {A B} (f : A → result B) (ids1 ids2 : list A) i e :
  (∀ j, j ∈ ids1 → ∃ w, f j = Ok w) → f i = Raise e →
  pool_map f (ids1 ++ i :: ids2) = Raise e.
Proof.
  intros Hok Hi. induction ids1 as [|j ids1 IH]; simpl.
  - by rewrite Hi.
  - destruct (Hok j) as [w ->]; [left|]. cbn [mbind result_bind].
    rewrite IH; [done|]. intros j' Hj'. apply Hok. by right.
Qed.

Lemma lookup_sim_ids e (k : nat) (i : Z) :
  sim_ids e !! k = Some i → i = Z.of_nat k.
Proof.
  unfold sim_ids, range. intros [-> _]%lookup_seqZ. lia.
Qed.

(** With at most one iteration the pool is handed the work of the
    sequential loops. *)
Lemma pool_map_single_iteration e :
  parameters_per_run e = list_mul (parameters e) (iterations e) →
  number_of_runs e = Z.of_nat (length (parameters_per_run e)) →
  (iterations e ≤ 1)%Z →
  pool_map (_single_sim_work e) (sim_ids e) = Ok (sequential_work e).
Proof.
  intros Hppr Hn Hit. apply pool_map_lookup.
  - apply Nat2Z.inj. rewrite length_sim_ids by lia.
    rewrite length_sequential_work, Hn. lia.
  - intros k i w Hi Hw. apply lookup_sim_ids in Hi as ->.
    destruct (decide (iterations e = 1%Z)) as [H1|H1].
    + destruct (pooled_worker_first_iteration e k Hppr) as (w' & Hw' & Hs).
      * lia.
      * apply lookup_lt_Some in Hw.
        rewrite length_sequential_work, Hppr, length_list_mul, H1 in Hw.
        simpl in Hw. lia.
      * congruence.
    + apply lookup_lt_Some in Hw.
      rewrite length_sequential_work, Hppr, length_list_mul in Hw.
      replace (Z.to_nat (iterations e)) with 0%nat in Hw by lia.
      simpl in Hw. lia.
Qed.

Lemma run_parallel_work (model_run : work → bundle) e (ws : list work) :
  pool_map (_single_sim_work e) (sim_ids e) = Ok ws →
  run_parallel model_run e
  = for_each (λ combined_output w,
        _add_single_output_to_combined (record e) (model_run w)
          combined_output)
      ∅ ws.
Proof.
  intros Hws. unfold run_parallel, _single_sim.
  rewrite pool_map_bind, Hws. cbn [mbind result_bind].
  by rewrite for_each_fmap.
Qed.

(** X1: with one iteration (or none) a pooled run gives what the
    sequential run gives: the workers are handed the same parameter sets,
    run ids and scenarios in the same order. *)
Theorem run_pool_single_iteration (model_run : work → bundle)
    parameters0 scenarios0 iterations0 record0 e :
  __init__ parameters0 scenarios0 iterations0 record0 = Ok e →
  (iterations0 ≤ 1)%Z →
  pool_map (_single_sim_work e) (sim_ids e) = Ok (sequential_work e)
  ∧ run model_run e true = run model_run e false.
Proof.
  intros Hinit Hit.
  destruct (init_fields _ _ _ _ _ Hinit) as (_ & _ & Hi & _ & Hppr & Hn).
  assert (pool_map (_single_sim_work e) (sim_ids e) = Ok (sequential_work e))
    as Hpool.
  { apply pool_map_single_iteration; [by rewrite Hi|done|by rewrite Hi]. }
  split; [done|]. unfold run.
  by rewrite (run_parallel_work _ _ _ Hpool), run_normal_work.
Qed.

Lemma run_pool_single_iteration_witness :
  ∃ e, __init__ (Several [sample_1; sample_2]) (Several ["x"; "y"]) 1%Z true
       = Ok e
       ∧ run (λ w, recorded_bundle (run_id_of w) 7) e true
         = run (λ w, recorded_bundle (run_id_of w) 7) e false.
Proof.
  destruct (__init__ (Several [sample_1; sample_2]) (Several ["x"; "y"])
              1%Z true) as [e|x] eqn:He; [|by vm_compute in He].
  exists e. split; [reflexivity|].
  apply (run_pool_single_iteration _ _ _ _ _ e He). lia.
Defined.

(** X2: with two or more iterations, a parameter set and a scenario, a
    pooled run raises [IndexError]: the worker of the first run of the
    second iteration looks beyond [self.parameters]. *)
Theorem run_pool_more_iterations (model_run : work → bundle)
    parameters0 scenarios0 iterations0 record0 e :
  __init__ parameters0 scenarios0 iterations0 record0 = Ok e →
  (2 ≤ iterations0)%Z → parameters e ≠ [] → scenarios e ≠ [] →
  run model_run e true = Raise IndexError.
Proof.
  intros Hinit Hit Hps Hsc.
  destruct (init_fields _ _ _ _ _ Hinit) as (_ & _ & Hi & _ & Hppr & Hn).
  set (n := length (scenarios e)).
  set (m := length (parameters e)).
  assert (0 < n)%nat as Hn0 by (unfold n; destruct (scenarios e); simpl; [done|lia]).
  assert (0 < m)%nat as Hm0 by (unfold m; destruct (parameters e); simpl; [done|lia]).
  set (K := Z.of_nat (m * n)).
  assert (K < number_of_runs e * Z.of_nat n)%Z as Hlt.
  { unfold K. rewrite Hn, Hppr, length_list_mul. fold m. nia. }
  assert (sim_ids e
          = seqZ 0 K
            ++ K :: seqZ (Z.succ K)
                      (Z.pred (number_of_runs e * Z.of_nat n - K))) as Hids.
  { unfold sim_ids, range. fold n.
    replace (number_of_runs e * Z.of_nat n)%Z
      with (K + (number_of_runs e * Z.of_nat n - K))%Z at 1 by lia.
    rewrite seqZ_app by lia. rewrite Z.add_0_l.
    by rewrite (seqZ_cons K) by lia. }
  assert (pool_map (_single_sim_work e) (sim_ids e) = Raise IndexError)
    as Hpool.
  { rewrite Hids. apply pool_map_raise.
    - intros j Hj. apply elem_of_seqZ in Hj.
      destruct (pooled_worker_first_iteration e (Z.to_nat j))
        as (w & _ & Hw); [by rewrite Hi|lia|fold m n; lia|].
      exists w. by rewrite Z2Nat.id in Hw by lia.
    - apply pooled_worker_beyond_parameters; fold n m; [lia|lia|].
      unfold K. rewrite Nat2Z.inj_mul, Z.div_mul by lia. lia. }
  unfold run, run_parallel, _single_sim.
  by rewrite pool_map_bind, Hpool.
Qed.

Lemma run_pool_more_iterations_witness :
  ∃ e, __init__ (Several [sample_1; sample_2]) Absent 3%Z false = Ok e
       ∧ run (λ w, measure_bundle (run_id_of w) 7) e true = Raise IndexError.
Proof.
  destruct (__init__ (Several [sample_1; sample_2]) Absent 3%Z false)
    as [e|x] eqn:He; [|by vm_compute in He].
  exists e. split; [reflexivity|].
  destruct (init_fields _ _ _ _ _ He) as (Hp & Hs & _).
  apply (run_pool_more_iterations _ _ _ _ _ e He).
  - lia.
  - by rewrite Hp.
  - by rewrite Hs.
Defined.

(** X3: an experiment without work (no iteration, or an empty list of
    scenarios) runs no model in either mode, and [run] returns
    [self.output] as [__init__] left it. *)
Theorem run_without_work (model_run : work → bundle)
    parameters0 scenarios0 iterations0 record0 e (pool : bool) :
  __init__ parameters0 scenarios0 iterations0 record0 = Ok e →
  (iterations0 ≤ 0)%Z ∨ scenarios e = [] →
  sequential_work e = [] ∧ sim_ids e = []
  ∧ run model_run e pool = Ok (output e).
Proof.
  intros Hinit Hnone.
  destruct (init_fields _ _ _ _ _ Hinit) as (_ & _ & Hi & _ & Hppr & Hn).
  assert (sequential_work e = []) as Hseq.
  { apply length_zero_iff_nil. rewrite length_sequential_work.
    destruct Hnone as [Hit| ->]; [|simpl; lia].
    rewrite Hppr, length_list_mul.
    replace (Z.to_nat iterations0) with 0%nat by lia. done. }
  assert (sim_ids e = []) as Hids.
  { apply length_zero_iff_nil, Nat2Z.inj. rewrite length_sim_ids by lia.
    rewrite Hn, <- Nat2Z.inj_mul, <- length_sequential_work, Hseq. done. }
  split; [done|]. split; [done|].
  unfold run. destruct pool.
  - unfold run_parallel. rewrite Hids. simpl.
    apply combine_dataframes_empty.
  - rewrite run_normal_work, Hseq. simpl. apply combine_dataframes_empty.
Qed.

Lemma run_without_work_witness :
  ∃ e, __init__ (Single sample_1) (Single "x") 0%Z true = Ok e
       ∧ run (λ w, measure_bundle (run_id_of w) 7) e true = Ok (output e)
       ∧ run (λ w, measure_bundle (run_id_of w) 7) e false = Ok (output e).
Proof.
  destruct (__init__ (Single sample_1) (Single "x") 0%Z true)
    as [e|x] eqn:He; [|by vm_compute in He].
  exists e. split; [reflexivity|].
  split.
  - apply (run_without_work _ _ _ _ _ e true He). left. lia.
  - apply (run_without_work _ _ _ _ _ e false He). left. lia.
Defined.

(** ** What the parameters report holds *)

Lemma document_column_step (st st' : pdict * DataFrame) (col : label) :
  document_column st col = Ok st' →
  st' = st ∨ ∃ v, st' = (<[col := v]> st.1, drop col st.2).
Proof.
  unfold document_column. destruct (unique (column st.2 col)); [|done].
  cbn [mbind result_bind]. case_bool_decide.
  - destruct (first (column st.2 col)) as [v|]; [|done].
    intros [= <-]. right. by exists v.
  - intros [= <-]. by left.
Qed.

(** The loop drops columns and touches nothing else of the table. *)
Lemma for_each_document_table (cols : list label) :
  ∀ st st' : pdict * DataFrame,
    for_each document_column st cols = Ok st' →
    (∀ c, c ∈ df_columns st'.2 →
          c ∈ df_columns st.2 ∧ column st'.2 c = column st.2 c)
    ∧ row_index <$> df_rows st'.2 = row_index <$> df_rows st.2.
Proof.
  induction cols as [|x cols IH]; intros st st' Hst.
  - injection Hst as <-. done.
  - rewrite for_each_cons in Hst.
    destruct (document_column st x) as [st1|] eqn:Hx; [|done].
    cbn [mbind result_bind] in Hst.
    destruct (IH _ _ Hst) as [Hc Hr].
    apply document_column_step in Hx as [->|(v & ->)]; [done|].
    cbn [snd] in Hc, Hr. split.
    + intros c Hin. destruct (Hc c Hin) as [Hin1 Hcol].
      unfold drop in Hin1. cbn [df_columns] in Hin1.
      apply list_elem_of_filter in Hin1 as [Hne Hin1].
      split; [done|]. rewrite Hcol. by apply column_drop_ne.
    + rewrite Hr. unfold drop. cbn [df_rows].
      by rewrite <- list_fmap_compose.
Qed.

Lemma row_index_DataFrame_of (data : list (option pdict)) :
  row_index <$> df_rows (DataFrame_of data)
  = (λ i, [Z.of_nat i]) <$> seq 0 (length data).
Proof.
  unfold DataFrame_of. cbn [df_rows].
  apply list_eq. intros i.
  rewrite !list_lookup_fmap, list_lookup_imap, list_lookup_fmap.
  destruct (data !! i) as [r|] eqn:Hi; simpl.
  - rewrite lookup_seq_lt by (by eapply lookup_lt_Some). done.
  - rewrite lookup_seq_ge by (by apply lookup_ge_None). done.
Qed.

(** A parameter that every set defines, with a value that is neither
    [None] nor NaN, is stored as it is given. *)
Lemma stored_as_given (ps : list pdict) (c : label) :
  (∀ d, d ∈ ps → ∃ v, d !! c = Some v ∧ v ≠ PNone ∧ v ≠ PNaN) →
  stored ps c = (λ d, tabulated d c) <$> ps.
Proof.
  intros Hdef. unfold stored, convert_objects.
  destruct (as_floats _) eqn:Hf; [|done].
  apply as_floats_missing in Hf
    as (_ & e & (d & -> & Hd)%list_elem_of_fmap & Hm).
  destruct (Hdef d Hd) as (v & Hv & Hnone & Hnan).
  unfold tabulated in Hm. rewrite Hv in Hm. cbn [default] in Hm.
  by destruct v.
Qed.

(** X4: the report never loses a parameter.  Every parameter that
    occurs is either a key of the fixed part, with the one value that the
    table stores for it, or a column of the varied table, which holds its
    stored values for all parameter sets, one row per set under the
    indices 0, 1, ... in the order of the list.  The stored values are
    the given ones where every set gives the parameter a value other than
    [None] and NaN; beside a missing value the table stores [None] as NaN
    and an integer as the float nearest to it. *)
Theorem report_content (ps : list pdict) :
  all_hashable ps → int64_values ps →
  ∃ o, _parameters_to_output (Some <$> ps) = Ok o
    ∧ (∀ c v, report_fixed o !! c = Some v →
              occurs ps c ∧ ∀ w, w ∈ stored ps c → w = v)
    ∧ (∀ df, report_varied o = Some df →
         row_index <$> df_rows df
         = (λ i, [Z.of_nat i]) <$> seq 0 (length ps)
         ∧ ∀ c, c ∈ df_columns df →
                varied_in_table ps c ∧ column df c = stored ps c)
    ∧ (∀ c, occurs ps c →
            is_Some (report_fixed o !! c)
            ∨ ∃ df, report_varied o = Some df ∧ c ∈ df_columns df)
    ∧ (∀ c, (∀ d, d ∈ ps → ∃ v, d !! c = Some v ∧ v ≠ PNone ∧ v ≠ PNaN) →
            stored ps c = (λ d, tabulated d c) <$> ps).
Proof.
  intros Hh _.
  set (df0 := DataFrame_of (Some <$> ps)).
  destruct (for_each_document_hashable (df_columns df0) (∅, df0))
    as (st & Hst & Hfix & Hrest & Hcols & Hrows & _).
  { apply NoDup_distinct. }
  { intros c _. by apply column_parameters_hashable. }
  cbn [fst snd] in Hfix, Hrest, Hcols, Hrows.
  destruct (for_each_document_table _ _ _ Hst) as [Hkeep Hindex].
  cbn [fst snd] in Hkeep, Hindex.
  assert (∀ c, c ∈ df_columns df0 ↔ occurs ps c) as Hcp
    by apply columns_parameters.
  assert (∀ c v, st.1 !! c = Some v →
                 occurs ps c ∧ ∀ w, w ∈ stored ps c → w = v) as Hfixed.
  { intros c v Hv.
    destruct (decide (c ∈ df_columns df0
                      ∧ length (distinct (column df0 c)) = 1))
      as [[Hin Hs]|Hno].
    - split; [by apply Hcp|]. intros w Hw.
      rewrite (Hfix c Hin Hs) in Hv.
      apply distinct_single in Hs as (x & Hx & Hall).
      rewrite Hx in Hv. injection Hv as <-. apply Hall.
      unfold df0. by rewrite column_parameters.
    - rewrite (Hrest c Hno), lookup_empty in Hv. done. }
  assert (∀ c, c ∈ df_columns st.2 →
               varied_in_table ps c
               ∧ column st.2 c = stored ps c) as Hvaried.
  { intros c Hin. destruct (Hkeep c Hin) as [_ ->].
    split; [|apply column_parameters].
    apply Hcols in Hin as [Hin Hno].
    apply not_single_varied; [by apply Hcp|]. intros Hs. by apply Hno. }
  assert (row_index <$> df_rows st.2
          = (λ i, [Z.of_nat i]) <$> seq 0 (length ps)) as Hidx.
  { rewrite Hindex. unfold df0.
    by rewrite row_index_DataFrame_of, length_fmap. }
  assert (∀ c, occurs ps c →
               is_Some (st.1 !! c) ∨ c ∈ df_columns st.2) as Hpart.
  { intros c Hocc.
    destruct (decide (length (distinct (column df0 c)) = 1)) as [Hs|Hns].
    - left. rewrite Hfix; [|by apply Hcp|done].
      apply distinct_single in Hs as (x & -> & _). eauto.
    - right. apply Hcols. split; [by apply Hcp|]. by intros [_ ?]. }
  pose proof (report_of_state _ _ Hst) as Hrep.
  eexists. split; [exact Hrep|].
  match goal with
  | |- ?A ∧ ?B ∧ ?C ∧ _ =>
      cut (A ∧ B ∧ C);
      [intros (HA & HB & HC); split; [exact HA|]; split; [exact HB|];
       split; [exact HC|]; intros c; apply stored_as_given|]
  end.
  destruct (bool_decide (st.1 ≠ ∅) && empty st.2) eqn:Hflat;
    [|destruct (bool_decide (st.1 = ∅) && negb (empty st.2)) eqn:Htab].
  - (* the flat mapping *)
    cbn [report_fixed report_varied].
    split; [done|]. split; [done|].
    intros c Hocc. destruct (Hpart c Hocc) as [?|Hin]; [by left|].
    exfalso. apply andb_prop in Hflat as [_ Hempty].
    unfold empty in Hempty. apply orb_prop in Hempty as [He|He];
      apply bool_decide_eq_true in He.
    + rewrite He in Hin. by apply elem_of_nil in Hin.
    + apply (f_equal length) in He. rewrite Hrows in He.
      unfold df0 in He.
      rewrite length_rows_DataFrame_of, length_fmap in He.
      destruct Hocc as (d & Hd & _). destruct ps; [|done].
      by apply elem_of_nil in Hd.
  - (* the table *)
    cbn [report_fixed report_varied].
    split; [intros c v Hv; by rewrite lookup_empty in Hv|].
    split; [by intros df [= <-]|].
    intros c Hocc. right. exists st.2. split; [done|].
    destruct (Hpart c Hocc) as [[v Hv]|Hin]; [|done].
    apply andb_prop in Htab as [He _]. apply bool_decide_eq_true in He.
    by rewrite He, lookup_empty in Hv.
  - (* the two parts *)
    cbn [report_fixed report_varied].
    split; [done|]. split; [by intros df [= <-]|].
    intros c Hocc. destruct (Hpart c Hocc) as [?|Hin]; [by left|].
    right. by exists st.2.
Qed.

Lemma report_content_witness :
  ∃ o, _parameters_to_output (Some <$> [sample_1; sample_2]) = Ok o
    ∧ (∀ c v, report_fixed o !! c = Some v →
              occurs [sample_1; sample_2] c
              ∧ ∀ w, w ∈ stored [sample_1; sample_2] c → w = v)
    ∧ (∀ df, report_varied o = Some df →
         row_index <$> df_rows df = [[0%Z]; [1%Z]]
         ∧ ∀ c, c ∈ df_columns df →
                varied_in_table [sample_1; sample_2] c
                ∧ column df c = stored [sample_1; sample_2] c)
    ∧ (∀ c, occurs [sample_1; sample_2] c →
            is_Some (report_fixed o !! c)
            ∨ ∃ df, report_varied o = Some df ∧ c ∈ df_columns df)
    ∧ (∀ c, (∀ d, d ∈ [sample_1; sample_2] →
                  ∃ v, d !! c = Some v ∧ v ≠ PNone ∧ v ≠ PNaN) →
            stored [sample_1; sample_2] c
            = (λ d, tabulated d c) <$> [sample_1; sample_2]).
Proof.
  assert (∀ d c v, d ∈ [sample_1; sample_2] → d !! c = Some v →
                   v ∈ [PInt 1; PInt 5; PInt 6]) as Hv.
  { intros d c v Hd Hc.
    assert (d = sample_1 ∨ d = sample_2) as [-> | ->].
    { apply elem_of_cons in Hd as [->|Hd]; [by left|].
      apply list_elem_of_singleton in Hd as ->. by right. }
    - unfold sample_1 in Hc.
      apply lookup_insert_Some in Hc as [[_ <-]|[_ Hc]]; [left|].
      apply lookup_singleton_Some in Hc as [_ <-]. right. left.
    - unfold sample_2 in Hc.
      apply lookup_insert_Some in Hc as [[_ <-]|[_ Hc]]; [left|].
      apply lookup_singleton_Some in Hc as [_ <-]. right. right. left. }
  apply (report_content [sample_1; sample_2]).
  - intros d c v Hd Hc. specialize (Hv d c v Hd Hc).
    repeat (apply elem_of_cons in Hv as [->|Hv]; [done|]).
    by apply elem_of_nil in Hv.
  - intros d c z Hd Hc. specialize (Hv d c _ Hd Hc).
    repeat (apply elem_of_cons in Hv as [[= ->]|Hv]; [lia|]).
    by apply elem_of_nil in Hv.
Defined.

(** X5: a single parameter dictionary (or a list that repeats one) is
    documented as it is: the report is that dictionary, flat. *)
Theorem report_of_one_parameter_set (d : pdict) (n : nat) :
  d ≠ ∅ → (∀ c v, d !! c = Some v → hashable v = true) →
  _parameters_to_output (Some <$> replicate (S n) d) = Ok (Fixed d).
Proof.
  intros Hne Hh.
  set (ps := replicate (S n) d).
  assert (∀ x, x ∈ ps → x = d) as Hps
    by (intros x Hx; by apply elem_of_replicate in Hx as [-> _]).
  assert (d ∈ ps) as Hd by (apply elem_of_replicate; split; [done|lia]).
  assert (all_hashable ps) as Hall.
  { intros x c v Hx Hc. apply Hps in Hx as ->. by apply (Hh c). }
  set (df0 := DataFrame_of (Some <$> ps)).
  destruct (for_each_document_hashable (df_columns df0) (∅, df0))
    as (st & Hst & Hfix & Hrest & Hcols & Hrows & _).
  { apply NoDup_distinct. }
  { intros c _. by apply column_parameters_hashable. }
  cbn [fst snd] in Hfix, Hrest, Hcols, Hrows.
  assert (∀ c, c ∈ df_columns df0 ↔ occurs ps c) as Hcp
    by apply columns_parameters.
  assert (∀ c, occurs ps c ↔ is_Some (d !! c)) as Hocc.
  { intros c. split.
    - intros (x & Hx & Hc). by apply Hps in Hx as ->.
    - intros Hc. by exists d. }
  assert (∀ c, occurs ps c → length (distinct (column df0 c)) = 1)
    as Hsingle.
  { intros c Hc. apply (single_fixed ps c Hc).
    intros x x' Hx Hx'. apply Hps in Hx as ->. by apply Hps in Hx' as ->. }
  assert (st.1 = d) as Hst1.
  { apply map_eq. intros c.
    destruct (d !! c) as [v|] eqn:Hc.
    - assert (occurs ps c) as Hoc by (apply Hocc; eauto).
      rewrite Hfix; [|by apply Hcp|by apply Hsingle].
      unfold df0. rewrite (head_column_fixed ps c d Hd).
      + unfold tabulated. by rewrite Hc.
      + intros x x' Hx Hx'. apply Hps in Hx as ->. by apply Hps in Hx' as ->.
    - rewrite Hrest, lookup_empty; [done|].
      intros [Hin _]. apply Hcp, Hocc in Hin. rewrite Hc in Hin.
      by destruct Hin. }
  rewrite (report_of_state _ _ Hst), Hst1.
  rewrite bool_decide_eq_true_2 by done.
  unfold empty. rewrite bool_decide_eq_true_2; [done|].
  apply elem_of_nil_inv. intros c [Hin Hno]%Hcols. apply Hno.
  split; [done|]. by apply Hsingle, Hcp.
Qed.

Lemma report_of_one_parameter_set_witness :
  _parameters_to_output (Some <$> replicate 1 sample_1) = Ok (Fixed sample_1).
Proof.
  apply (report_of_one_parameter_set sample_1 0).
  - intros H. apply (f_equal (lookup (LName "a"))) in H. discriminate H.
  - intros c v Hc. unfold sample_1 in Hc.
    apply lookup_insert_Some in Hc as [[_ <-]|[_ Hc]]; [done|].
    apply lookup_singleton_Some in Hc as [_ <-]. done.
Defined.

(** ** What the merge keeps apart *)

Lemma has_types_without_record (its : list (string * value)) :
  existsb (has_types false) its = false.
Proof.
  induction its as [|it its IH]; [done|].
  cbn [existsb]. rewrite IH, orb_false_r. unfold has_types.
  destruct (classify false it) eqn:Hcl; [done| |done].
  by apply classify_ToTypes in Hcl as (_ & ? & _).
Qed.

(** X6: without recording, the merge of any bundles succeeds, and the
    combined output has no variables, nor the parameters and the log of a
    run. *)
Theorem aggregate_without_record (bs : list bundle) :
  ∃ out, aggregate false bs = Ok out
    ∧ out !! "variables" = None
    ∧ out !! "parameters" = None
    ∧ out !! "log" = None.
Proof.
  destruct (aggregate_output false bs) as (out & Hout & Hf & Hv); [done|].
  exists out. split; [done|]. split; [|split].
  - by rewrite has_types_without_record in Hv.
  - rewrite Hf by done. rewrite bind_nil_all; [done|].
    intros x. apply field_values_nil. left.
  - rewrite Hf by done. rewrite bind_nil_all; [done|].
    intros x. apply field_values_nil. right; left.
Qed.

Lemma for_each_rel {A S} (R : S → S → Prop) (body : S → A → result S)
    (l : list A) :
  (∀ s, R s s) → (∀ s1 s2 s3, R s1 s2 → R s2 s3 → R s1 s3) →
  (∀ s x s', x ∈ l → body s x = Ok s' → R s s') →
  ∀ s s', for_each body s l = Ok s' → R s s'.
Proof.
  intros Hrefl Htrans. induction l as [|x l IH]; intros Hbody s s' Hs.
  - injection Hs as <-. apply Hrefl.
  - rewrite for_each_cons in Hs.
    destruct (body s x) as [s1|] eqn:Hx; [|done].
    cbn [mbind result_bind] in Hs.
    apply (Htrans _ s1).
    + apply (Hbody s x); [left|done].
    + apply IH; [|done]. intros s0 y s0' Hy. apply Hbody. by right.
Qed.

(** An item touches the entry of its own key and no other. *)
Lemma add_field_other_keys record (comb comb' : gmap string slot)
    (it : string * value) (k : string) :
  add_field record comb it = Ok comb' →
  k ≠ it.1 ∨ k ∈ ["parameters"; "log"] → comb' !! k = comb !! k.
Proof.
  intros Hadd Hk. rewrite add_field_classify in Hadd.
  destruct (classify record it) as [|items|v] eqn:Hcl.
  - by injection Hadd as <-.
  - apply classify_ToTypes in Hcl as (Hkey & _ & _).
    assert (k ≠ it.1) as Hne.
    { destruct Hk as [?|Hk]; [done|]. rewrite Hkey. intros ->.
      apply elem_of_cons in Hk as [?|Hk]; [done|].
      by apply list_elem_of_singleton in Hk. }
    transitivity
      ((if bool_decide (comb !! it.1 = None)
        then <[it.1 := ByType ∅]> comb else comb) !! k).
    + apply (for_each_rel (λ c c' : gmap string slot, c' !! k = c !! k)
               (add_by_type it.1) items); [done|congruence| |done].
      intros s x s' _. unfold add_by_type.
      destruct (s !! it.1) as [[l|d]|];
        [by destruct (str_in_list x.1 l)| |done].
      intros [= <-]. by rewrite lookup_insert_ne.
    + case_bool_decide; [|done]. by rewrite lookup_insert_ne.
  - assert (k ≠ it.1) as Hne.
    { destruct Hk as [?|Hk]; [done|]. intros ->.
      unfold classify in Hcl. by rewrite bool_decide_eq_true_2 in Hcl. }
    unfold add_other in Hadd.
    destruct (bool_decide (comb !! it.1 = None)).
    + rewrite lookup_insert_eq in Hadd. injection Hadd as <-.
      by rewrite !lookup_insert_ne.
    + destruct (comb !! it.1) as [[l|?]|]; try done.
      injection Hadd as <-. by rewrite lookup_insert_ne.
Qed.

Lemma add_single_output_reserved record (b : bundle)
    (comb comb' : gmap string slot) (k : string) :
  _add_single_output_to_combined record b comb = Ok comb' →
  k ∈ ["parameters"; "log"] → comb' !! k = comb !! k.
Proof.
  intros Hadd Hk.
  apply (for_each_rel (λ c c' : gmap string slot, c' !! k = c !! k)
           (add_field record) b); [done|congruence| |done].
  intros s x s' _ Hx. apply (add_field_other_keys _ _ _ _ _ Hx). by right.
Qed.

Lemma combine_field_other_keys (out out' : gmap string outval)
    (it : string * slot) (k : string) :
  combine_field out it = Ok out' → k ≠ it.1 → out' !! k = out !! k.
Proof.
  unfold combine_field. intros Hc Hk.
  destruct it.2 as [values|values].
  - destruct (bool_decide (values ≠ []) && forallb value_is_frame values).
    + destruct (concat_frames (leaves values)); [|done].
      injection Hc as <-. by rewrite lookup_insert_ne.
    + destruct (bool_decide (it.1 ≠ "log")); injection Hc as <-; [|done].
      by rewrite lookup_insert_ne.
  - destruct (for_each _ ∅ (map_to_list values)); [|done].
    injection Hc as <-. by rewrite lookup_insert_ne.
Qed.

Lemma combine_dataframes_other_keys (comb : gmap string slot)
    (out out' : gmap string outval) (k : string) :
  _combine_dataframes comb out = Ok out' →
  comb !! k = None → out' !! k = out !! k.
Proof.
  intros Hc Hk.
  apply (for_each_rel (λ o o' : gmap string outval, o' !! k = o !! k)
           combine_field (map_to_list comb)); [done|congruence| |done].
  intros s [k' v] s' Hin Hx. apply (combine_field_other_keys _ _ _ _ Hx).
  apply elem_of_map_to_list in Hin. simpl. congruence.
Qed.

(** X7: [run] never touches the parameters report: whatever the models
    return, the output of a run that succeeds has under ['parameters']
    what [__init__] documented. *)
Theorem run_keeps_parameters_report (model_run : work → bundle)
    parameters0 scenarios0 iterations0 record0 e (pool : bool)
    (out : gmap string outval) :
  __init__ parameters0 scenarios0 iterations0 record0 = Ok e →
  run model_run e pool = Ok out →
  ∃ report,
    _parameters_to_output (make_list parameters0 true) = Ok report
    ∧ out !! "parameters" = Some report.
Proof.
  intros Hinit Hrun.
  assert (∃ report,
            _parameters_to_output (make_list parameters0 true) = Ok report
            ∧ output e !! "parameters" = Some report) as (report & Hrep & Hout).
  { unfold __init__ in Hinit.
    destruct (_parameters_to_output (make_list parameters0 true)) as [r|];
      [|done].
    injection Hinit as <-. exists r. split; [done|].
    apply lookup_singleton_eq. }
  exists report. split; [done|]. rewrite <- Hout.
  unfold run in Hrun.
  destruct (if pool then run_parallel model_run e else run_normal model_run e)
    as [comb|] eqn:Hcomb; [|done].
  cbn [mbind result_bind] in Hrun.
  apply (combine_dataframes_other_keys _ _ _ _ Hrun).
  assert (∀ bs : list bundle,
            for_each (λ c b, _add_single_output_to_combined (record e) b c)
              ∅ bs = Ok comb →
            comb !! "parameters" = None) as Hbs.
  { intros bs Hfold. rewrite <- (lookup_empty (M := gmap string) "parameters").
    apply (for_each_rel
             (λ c c' : gmap string slot, c' !! "parameters" = c !! "parameters")
             (λ c b, _add_single_output_to_combined (record e) b c) bs);
      [done|congruence| |done].
    intros s b s' _ Hb. apply (add_single_output_reserved _ _ _ _ _ Hb).
    left. }
  destruct pool.
  - unfold run_parallel in Hcomb.
    destruct (pool_map (_single_sim model_run e) (sim_ids e)) as [bs|];
      [|done].
    by apply (Hbs bs).
  - rewrite run_normal_work in Hcomb.
    apply (Hbs (model_run <$> sequential_work e)). by rewrite for_each_fmap.
Qed.

(** Two runs, each returning a value of its own under ['parameters']. *)
Lemma run_keeps_parameters_report_witness :
  let model_run := λ w : work,
    [("parameters", Leaf (Scalar (PInt (run_id_of w))));
     ("measures", Leaf (Scalar (PInt 7)))] in
  ∃ e out,
    __init__ (Several [sample_1; sample_2]) Absent 1%Z false = Ok e
    ∧ length (sequential_work e) = 2
    ∧ run model_run e false = Ok out
    ∧ ∃ report,
        _parameters_to_output
          (make_list (Several [sample_1; sample_2]) true) = Ok report
        ∧ out !! "parameters" = Some report.
Proof.
  intros model_run.
  destruct (__init__ (Several [sample_1; sample_2]) Absent 1%Z false)
    as [e|x] eqn:He; [|by vm_compute in He].
  pose proof He as He'. vm_compute in He'. injection He' as He'. subst e.
  match type of He with
  | _ = Ok ?e =>
      destruct (run model_run e false) as [out|x] eqn:Hrun;
        [|by vm_compute in Hrun];
      exists e, out; split; [exact He|]; split; [by vm_compute|];
      split; [exact Hrun|];
      exact (run_keeps_parameters_report model_run _ _ _ _ e false out
               He Hrun)
  end.
Defined.

(** ** The combined output field by field *)

Lemma classify_plain record (it : string * value) :
  it.1 ∉ ["parameters"; "log"; "variables"] →
  classify record it = ToList it.2.
Proof.
  intros Hkey. unfold classify.
  rewrite bool_decide_eq_false_2.
  2:{ intros Hin. apply Hkey.
      apply elem_of_cons in Hin as [->|Hin]; [left|].
      apply list_elem_of_singleton in Hin as ->. right; left. }
  rewrite (bool_decide_eq_false_2 (it.1 = "variables")); [done|].
  intros Heq. apply Hkey. rewrite Heq. right; right; left.
Qed.

Lemma field_values_plain record key (it : string * value) :
  key ∉ ["parameters"; "log"; "variables"] →
  field_values record key it = if decide (it.1 = key) then [it.2] else [].
Proof.
  intros Hkey. unfold field_values.
  destruct (decide (it.1 = key)) as [Heq|Hne].
  - by rewrite classify_plain by (by rewrite Heq).
  - by destruct (classify record it).
Qed.

Lemma bind_field_values record key (bs : list bundle) :
  key ∉ ["parameters"; "log"; "variables"] →
  (bs ≫= id) ≫= field_values record key = bs ≫= bundle_field key.
Proof.
  intros Hkey. rewrite bind_bind.
  induction bs as [|b bs IH]; [done|].
  change ((b :: bs) ≫= bundle_field key)
    with (bundle_field key b ++ (bs ≫= bundle_field key)).
  rewrite <- IH.
  change ((b :: bs) ≫= (λ x, id x ≫= field_values record key))
    with ((b ≫= field_values record key)
          ++ (bs ≫= λ x, id x ≫= field_values record key)).
  f_equal. clear IH. unfold bundle_field.
  induction b as [|it b IH]; [done|].
  change ((it :: b) ≫= field_values record key)
    with (field_values record key it ++ (b ≫= field_values record key)).
  rewrite IH, field_values_plain by done. simpl.
  by destruct (decide (it.1 = key)).
Qed.

(** X8: the entry of the combined output for a field of the runs.  The
    runs that have the field contribute, in their order, and the others
    are not padded: no entry if no run has the field, the tables stacked
    if every value is a table, and otherwise the plain list of the
    values. *)
Theorem aggregate_field record (bs : list bundle) (key : string) :
  key ∉ ["parameters"; "log"; "variables"] →
  (record = true → Forall (Forall variables_typed) bs) →
  ∃ out, aggregate record bs = Ok out
    ∧ out !! key
      = match bs ≫= bundle_field key with
        | [] => None
        | l => Some (if forallb value_is_frame l
                     then Table {| df_columns :=
                                     distinct (leaves l ≫= frame_columns);
                                   df_rows := leaves l ≫= frame_rows |}
                     else Listed l)
        end.
Proof.
  intros Hkey Hty.
  destruct (aggregate_output record bs Hty) as (out & Hout & Hf & _).
  exists out. split; [done|].
  rewrite Hf.
  - rewrite bind_field_values by done.
    by destruct (bs ≫= bundle_field key).
  - intros ->. apply Hkey. right; right; left.
Qed.

Lemma aggregate_field_witness :
  ∃ out,
    aggregate true [recorded_bundle 0 1; [("log", Leaf (Scalar PNone))];
                    recorded_bundle 1 2] = Ok out
    ∧ out !! "measures"
      = Some (Table {| df_columns := [LName "x"];
                       df_rows := [mkRow [0%Z] {[ LName "x" := PInt 1 ]};
                                   mkRow [1%Z] {[ LName "x" := PInt 2 ]}] |}).
Proof.
  apply (aggregate_field true
           [recorded_bundle 0 1; [("log", Leaf (Scalar PNone))];
            recorded_bundle 1 2] "measures").
  - intros Hin. repeat (apply elem_of_cons in Hin as [Hin|Hin];
                        [discriminate Hin|]).
    by apply elem_of_nil in Hin.
  - intros _.
    assert (∀ rid x, Forall variables_typed (recorded_bundle rid x)) as Hb.
    { intros rid x. unfold recorded_bundle.
      repeat apply Forall_cons_2; try apply Forall_nil_2;
        try (intros Hk; discriminate Hk).
      intros _. eexists. split; [reflexivity|].
      apply Forall_cons_2; [reflexivity|apply Forall_nil_2]. }
    apply Forall_cons_2; [apply Hb|].
    apply Forall_cons_2.
    { apply Forall_cons_2; [intros Hk; discriminate Hk|apply Forall_nil_2]. }
    apply Forall_cons_2; [apply Hb|]. apply Forall_nil_2.
Defined.

(** X9: the variables of the runs are merged per object type: with
    recording on, the table of an object type stacks the tables that the
    runs recorded for this type, in the order of the runs, and an object
    type that no run recorded has no table. *)
Theorem aggregate_variables (bs : list bundle) (ty : string) :
  Forall (Forall variables_typed) bs →
  ∃ out, aggregate true bs = Ok out
    ∧ match out !! "variables" with
      | None => ∀ b, b ∈ bs → b ≫= type_leaves true ty = []
      | Some (SubDataDict sub) =>
          sub !! ty
          = match bs ≫= (λ b, b ≫= type_leaves true ty) with
            | [] => None
            | l => Some {| df_columns := distinct (l ≫= frame_columns);
                           df_rows := l ≫= frame_rows |}
            end
      | Some _ => False
      end.
Proof.
  intros Hty.
  destruct (aggregate_output true bs) as (out & Hout & _ & Hv); [done|].
  exists out. split; [done|].
  destruct (existsb (has_types true) (bs ≫= id)) eqn:Hex.
  - destruct Hv as (sub & -> & Hsub). rewrite Hsub, bind_bind.
    change (λ x : bundle, id x ≫= type_leaves true ty)
      with (λ b : bundle, b ≫= type_leaves true ty).
    by destruct (bs ≫= λ b, b ≫= type_leaves true ty).
  - rewrite Hv. intros b Hb.
    pose proof (existsb_false_type_leaves true ty _ Hex) as Hnil.
    rewrite bind_bind in Hnil.
    destruct (b ≫= type_leaves true ty) as [|x l] eqn:Hb'; [done|].
    exfalso.
    assert (x ∈ bs ≫= λ b, id b ≫= type_leaves true ty) as Hx.
    { apply list_elem_of_bind. exists b. split; [|done].
      unfold id. rewrite Hb'. left. }
    rewrite Hnil in Hx. by apply elem_of_nil in Hx.
Qed.

Lemma aggregate_variables_witness :
  ∃ out,
    aggregate true [recorded_bundle 0 1; recorded_bundle 1 2] = Ok out
    ∧ match out !! "variables" with
      | None => ∀ b, b ∈ [recorded_bundle 0 1; recorded_bundle 1 2] →
                     b ≫= type_leaves true "Agent" = []
      | Some (SubDataDict sub) =>
          sub !! "Agent"
          = Some {| df_columns := [LName "x"];
                    df_rows := [mkRow [0%Z] {[ LName "x" := PInt 1 ]};
                                mkRow [1%Z] {[ LName "x" := PInt 2 ]}] |}
      | Some _ => False
      end.
Proof.
  apply (aggregate_variables
           [recorded_bundle 0 1; recorded_bundle 1 2] "Agent").
  assert (∀ rid x, Forall variables_typed (recorded_bundle rid x)) as Hb.
  { intros rid x. unfold recorded_bundle.
    repeat apply Forall_cons_2; try apply Forall_nil_2;
      try (intros Hk; discriminate Hk).
    intros _. eexists. split; [reflexivity|].
    apply Forall_cons_2; [reflexivity|apply Forall_nil_2]. }
  apply Forall_cons_2; [apply Hb|].
  apply Forall_cons_2; [apply Hb|]. apply Forall_nil_2.
Defined.

(** ** Runs that disagree on the shape of their variables *)

(** X10: with record on, a run that returns its variables as one value (a
    table, say) after a run that returned them by object type cannot be
    merged: the list operation on the dictionary of the types is an
    [AttributeError], whatever the runs after it return. *)
Theorem aggregate_mixed_variables (bs1 bs2 : list bundle) (f1 f2 : bundle)
    (x : leaf) :
  Forall (Forall variables_typed) bs1 → Forall variables_typed f1 →
  (∃ b items, b ∈ bs1 ++ [f1] ∧ ("variables", DataDict items) ∈ b) →
  aggregate true (bs1 ++ (f1 ++ ("variables", Leaf x) :: f2) :: bs2)
  = Raise AttributeError.
Proof.
  intros Hbs1 Hf1 (b & items & Hb & Hitems).
  rewrite aggregate_items, bind_app, bind_cons.
  change (id (f1 ++ ("variables", Leaf x) :: f2))
    with (f1 ++ ("variables", Leaf x) :: f2).
  rewrite <- (app_assoc f1), app_assoc.
  set (pre := (bs1 ≫= id) ++ f1).
  assert (Forall variables_typed pre) as Hpre.
  { apply Forall_app. split; [|done]. apply Forall_forall. intros it Hit.
    apply list_elem_of_bind in Hit as (b' & Hit & Hb').
    rewrite Forall_forall in Hbs1. specialize (Hbs1 b' Hb').
    rewrite Forall_forall in Hbs1. by apply Hbs1. }
  assert (existsb (has_types true) pre = true) as Hty.
  { apply existsb_exists. exists ("variables", DataDict items). split.
    - apply list_elem_of_In. unfold pre.
      apply elem_of_app in Hb as [Hb|Hb].
      + apply elem_of_app. left. apply list_elem_of_bind. by exists b.
      + apply list_elem_of_singleton in Hb as ->. apply elem_of_app. by right.
    - done. }
  destruct (for_each_add_field true pre (λ _, Hpre))
    as (comb & Hcomb & _ & Hvars).
  rewrite Hty in Hvars. destruct Hvars as (d & Hd & _).
  rewrite for_each_app, Hcomb. cbn [mbind result_bind].
  rewrite for_each_app. cbn [app]. rewrite for_each_cons.
  assert (add_field true comb ("variables", Leaf x) = Raise AttributeError)
    as ->.
  { rewrite add_field_classify.
    change (classify true ("variables", Leaf x)) with (ToList (Leaf x)).
    unfold add_other. cbn [fst].
    rewrite bool_decide_eq_false_2 by (by rewrite Hd). by rewrite Hd. }
  done.
Qed.

Lemma aggregate_mixed_variables_witness :
  aggregate true
    ([[("variables",
        DataDict [("agent", Frame (mkDataFrame [] []))])]]
       ++ ([] ++ ("variables", Leaf (Frame (mkDataFrame [] []))) :: [])
       :: [])
  = Raise AttributeError.
Proof.
  apply (aggregate_mixed_variables
           [[("variables",
              DataDict [("agent", Frame (mkDataFrame [] []))])]]
           [] [] [] (Frame (mkDataFrame [] []))).
  - repeat constructor. intros _. eexists. split; [done|].
    by repeat constructor.
  - constructor.
  - eexists _, _. split; [left|left].
Defined.

(** ** The interactive view *)

(** The state the loop of [_parameters_to_output] ends in, in terms of
    the parameter list. *)
Lemma report_state (ps : list pdict) :
  all_hashable ps →
  ∃ st : pdict * DataFrame,
    for_each document_column (∅, DataFrame_of (Some <$> ps))
      (df_columns (DataFrame_of (Some <$> ps))) = Ok st
    ∧ (∀ c, is_Some (st.1 !! c) ↔ occurs ps c ∧ fixed_in_table ps c)
    ∧ (∀ c, c ∈ df_columns st.2 ↔ occurs ps c ∧ varied_in_table ps c)
    ∧ (∀ c, c ∈ df_columns st.2 → column st.2 c = stored ps c)
    ∧ length (df_rows st.2) = length ps
    ∧ NoDup (df_columns st.2).
Proof.
  intros Hh.
  set (df0 := DataFrame_of (Some <$> ps)).
  destruct (for_each_document_hashable (df_columns df0) (∅, df0))
    as (st & Hst & Hfix & Hrest & Hcols & Hrows & _).
  { apply NoDup_distinct. }
  { intros c _. by apply column_parameters_hashable. }
  cbn [fst snd] in Hfix, Hrest, Hcols, Hrows.
  destruct (for_each_document_table _ _ _ Hst) as [Hkeep _].
  cbn [fst snd] in Hkeep.
  assert (∀ c, c ∈ df_columns df0 ↔ occurs ps c) as Hcp
    by apply columns_parameters.
  exists st. split; [done|]. split; [|split; [|split; [|split]]].
  - intros c. split.
    + intros Hc.
      destruct (decide (c ∈ df_columns df0
                        ∧ length (distinct (column df0 c)) = 1))
        as [[Hin Hs]|Hno].
      * apply Hcp in Hin. split; [done|]. by apply single_fixed.
      * rewrite (Hrest c Hno), lookup_empty in Hc. by destruct Hc.
    + intros [Hocc Hf]. apply (single_fixed ps c Hocc) in Hf.
      rewrite Hfix; [|by apply Hcp|done].
      apply distinct_single in Hf as (x & Hx & _).
      unfold df0. rewrite Hx. eauto.
  - intros c. rewrite Hcols, Hcp. split.
    + intros [Hocc Hno]. split; [done|]. apply not_single_varied; [done|].
      intros Hs. apply Hno. by split.
    + intros [Hocc Hv]. split; [done|]. intros [_ Hs].
      by apply (not_single_varied ps c) in Hs.
  - intros c Hin. destruct (Hkeep c Hin) as [_ ->]. apply column_parameters.
  - rewrite Hrows. unfold df0.
    by rewrite length_rows_DataFrame_of, length_fmap.
  - assert (∀ cols (s s' : pdict * DataFrame),
              for_each document_column s cols = Ok s' →
              NoDup (df_columns s.2) → NoDup (df_columns s'.2)) as Hnd.
    { induction cols as [|x cols IH]; intros s s' Hs Hn.
      - by injection Hs as <-.
      - rewrite for_each_cons in Hs.
        destruct (document_column s x) as [s1|] eqn:Hx; [|done].
        cbn [mbind result_bind] in Hs. apply (IH _ _ Hs).
        apply document_column_step in Hx as [->|(v & ->)]; [done|].
        cbn [snd drop df_columns]. by apply NoDup_filter. }
    apply (Hnd _ _ _ Hst). apply NoDup_distinct.
Qed.

(** X11: for an experiment whose parameters are all fixed (none of them
    called [varied]), [interactive] finds no varied parameters, and the
    error it means to raise is the [NameError] of the name
    [AgentpyError]. *)
Theorem interactive_without_varied_parameters (ps : list pdict) :
  all_hashable ps → occurs_any ps →
  (∀ c, occurs ps c → fixed_parameter ps c) →
  ¬ occurs ps (LName "varied") →
  ∃ f, _parameters_to_output (Some <$> ps) = Ok (Fixed f)
       ∧ var_pars_of (Fixed f) = inl (NameError "AgentpyError").
Proof.
  intros Hh [c0 Hc0] Hall Hname.
  destruct (report_state ps Hh) as (st & Hst & Hfix & Hvar & _).
  exists st.1. split.
  - rewrite (report_of_state _ _ Hst).
    rewrite bool_decide_eq_true_2.
    2:{ intros He. destruct (proj2 (Hfix c0)) as [v Hv].
        - split; [done|]. by apply fixed_parameter_in_table, Hall.
        - by rewrite He, lookup_empty in Hv. }
    unfold empty. rewrite bool_decide_eq_true_2; [done|].
    apply elem_of_nil_inv. intros c [Hocc (d & d' & Hd & Hd' & Hne)]%Hvar.
    apply Hne. f_equal. by apply Hall.
  - unfold var_pars_of.
    destruct (st.1 !! LName "varied") as [v|] eqn:Hv; [|done].
    exfalso. apply Hname. apply Hfix. eauto.
Qed.

Lemma interactive_without_varied_parameters_witness :
  ∃ f, _parameters_to_output (Some <$> [sample_1; sample_1]) = Ok (Fixed f)
       ∧ var_pars_of (Fixed f) = inl (NameError "AgentpyError").
Proof.
  assert (∀ x, x ∈ [sample_1; sample_1] → x = sample_1) as Hx.
  { intros x Hin. apply elem_of_cons in Hin as [->|Hin]; [done|].
    by apply list_elem_of_singleton in Hin. }
  assert (∀ c v, sample_1 !! c = Some v →
                 (c = LName "a" ∨ c = LName "b") ∧ hashable v = true) as Hs.
  { intros c v Hc. unfold sample_1 in Hc.
    apply lookup_insert_Some in Hc as [[<- <-]|[_ Hc]]; [by auto|].
    apply lookup_singleton_Some in Hc as [<- <-]. by auto. }
  apply (interactive_without_varied_parameters [sample_1; sample_1]).
  - intros d c v Hd Hc. apply Hx in Hd as ->. by apply (Hs c v).
  - exists (LName "a"), sample_1. split; [left|]. by exists (PInt 1).
  - intros c _ d d' Hd Hd'. apply Hx in Hd as ->. by apply Hx in Hd' as ->.
  - intros (d & Hd & [v Hv]). apply Hx in Hd as ->.
    destruct (Hs _ _ Hv) as [[H|H] _]; discriminate H.
Defined.

Lemma dict_set_fresh {K V} `{EqDecision K} (k : K) (v : V)
    (d : list (K * V)) :
  k ∉ d.*1 → dict_set k v d = d ++ [(k, v)].
Proof.
  induction d as [|kv d IH]; [done|]. rewrite fmap_cons.
  intros [Hne Hk]%not_elem_of_cons. simpl.
  rewrite decide_False by done. by rewrite IH.
Qed.

(** The start value is found among the options unless it is NaN. *)
Lemma selection_found (v : pyval) (s : list pyval) :
  existsb (py_eq v) (v :: s) = negb (is_nan v).
Proof.
  cbn [existsb]. unfold py_eq at 1. rewrite bool_decide_eq_true_2 by done.
  rewrite andb_true_r. destruct (is_nan v) eqn:Hv; [|done].
  cbn [negb orb]. apply not_true_is_false.
  intros (x & _ & Hx)%existsb_exists. unfold py_eq in Hx. by rewrite Hv in Hx.
Qed.

(** The loop that creates the sliders, over columns that are not empty:
    it ends with the first slider that cannot be created. *)
Lemma widget_dict_of_columns (df : DataFrame) (cols : list label)
    (acc : list (label * Slider)) (good : label → bool) :
  NoDup (acc.*1 ++ cols) →
  (∀ c, c ∈ cols → column df c ≠ []) →
  (∀ c, c ∈ cols →
        good c = match c, head (column df c) with
                 | LName _, Some v => negb (is_nan v)
                 | _, _ => false
                 end) →
  for_each (λ widget_dict par_key,
      let par_list := column df par_key in
      v ← getitem par_list 0;
      w ← SelectionSlider par_list v par_key;
      Ok (dict_set par_key w widget_dict))
    acc cols
  = if forallb good cols
    then Ok (acc ++ ((λ c, (c, mkSlider (column df c)
                                  (default PNaN (head (column df c))) c))
                       <$> cols))
    else Raise TraitError.
Proof.
  revert acc. induction cols as [|c cols IH]; intros acc Hnd Hne Hgood.
  - simpl. by rewrite app_nil_r.
  - rewrite for_each_cons. cbn zeta. cbn [forallb].
    rewrite (Hgood c) by left.
    destruct (column df c) as [|v s] eqn:Hc; [by destruct (Hne c); [left|]|].
    change (getitem (v :: s) 0) with (Ok (A := pyval) v).
    cbn [mbind result_bind]. unfold SelectionSlider.
    destruct c as [name|i]; [|done].
    rewrite Hc. cbn [head].
    rewrite selection_found. destruct (is_nan v) eqn:Hv; [done|].
    cbn [negb andb mbind result_bind].
    rewrite dict_set_fresh.
    2:{ apply NoDup_app in Hnd as (_ & Hd & _). intros Hin.
        apply (Hd (LName name) Hin). left. }
    rewrite IH.
    + destruct (forallb good cols); [|done].
      rewrite fmap_cons, Hc, <- app_assoc. done.
    + rewrite fmap_app, <- app_assoc. done.
    + intros c' Hc'. apply Hne. by right.
    + intros c' Hc'. apply Hgood. by right.
Qed.

(** Whether the slider of a parameter starts, read off the first
    parameter set. *)
Lemma slider_starts_first_set (ps : list pdict) (d0 : pdict) (c : label) :
  head ps = Some d0 →
  (d0 !! c = None → slider_starts ps c = false)
  ∧ (∀ name v, c = LName name → d0 !! c = Some v → v ≠ PNone → v ≠ PNaN →
               slider_starts ps c = true).
Proof.
  destruct ps as [|d ps']; [done|]. intros [= ->].
  assert (∃ b : bool,
            head (stored (d0 :: ps') c)
            = Some (if b then to_float (tabulated d0 c)
                    else tabulated d0 c)) as [b Hb].
  { unfold stored, convert_objects.
    destruct (as_floats _); [by exists true|by exists false]. }
  unfold tabulated in Hb. split.
  - intros Hc. rewrite Hc in Hb. destruct c as [name|i]; [|done].
    unfold slider_starts. rewrite Hb. by destruct b.
  - intros name v -> Hc Hnone Hnan. rewrite Hc in Hb.
    unfold slider_starts. rewrite Hb. by destruct b, v.
Qed.

(** X12: for an experiment with varied parameters (no parameter being
    called [varied]), [interactive] goes through the columns of the varied
    table and creates a slider for each: over the values that the table
    stores for the parameter, in the order of the parameter sets, and set
    to the first of them.  A slider whose start value is NaN, as where the
    first parameter set lacks the parameter, or whose label is not a
    name, is refused with a [TraitError], which ends [interactive]; where
    the first parameter set gives every varied parameter a value (not
    [None], not NaN) under a name, all sliders are created. *)
Theorem interactive_sliders (ps : list pdict) :
  all_hashable ps → int64_values ps →
  (∃ c, occurs ps c ∧ varied_in_table ps c) →
  ¬ occurs ps (LName "varied") →
  ∃ report df,
    _parameters_to_output (Some <$> ps) = Ok report
    ∧ var_pars_of report = inr (VTable df)
    ∧ (∀ c, c ∈ df_columns df ↔ occurs ps c ∧ varied_in_table ps c)
    ∧ widget_dict_of df
      = (if forallb (slider_starts ps) (df_columns df)
         then Ok ((λ c, (c, mkSlider (stored ps c)
                              (default PNaN (head (stored ps c))) c))
                    <$> df_columns df)
         else Raise TraitError)
    ∧ (∀ d0 c, head ps = Some d0 →
         (d0 !! c = None → slider_starts ps c = false)
         ∧ (∀ name v, c = LName name → d0 !! c = Some v →
                      v ≠ PNone → v ≠ PNaN → slider_starts ps c = true)).
Proof.
  intros Hh _ (c1 & Hocc1 & Hvar1) Hname.
  destruct (report_state ps Hh)
    as (st & Hst & Hfix & Hvar & Hcol & Hrows & Hnd).
  assert (ps ≠ []) as Hps.
  { destruct Hocc1 as (d & Hd & _). intros ->. by apply elem_of_nil in Hd. }
  assert (∀ c, stored ps c ≠ []) as Hstored.
  { intros c Hnil. apply (f_equal length) in Hnil.
    unfold stored, convert_objects in Hnil.
    destruct (as_floats _); rewrite ?length_fmap in Hnil; by destruct ps. }
  assert (empty st.2 = false) as He.
  { unfold empty. rewrite !bool_decide_eq_false_2; [done| |].
    - intros Hnil. apply (f_equal length) in Hnil.
      rewrite Hrows in Hnil. by destruct ps.
    - intros Hnil. assert (c1 ∈ df_columns st.2) as Hin by (by apply Hvar).
      rewrite Hnil in Hin. by apply elem_of_nil in Hin. }
  assert (widget_dict_of st.2
          = (if forallb (slider_starts ps) (df_columns st.2)
             then Ok ((λ c, (c, mkSlider (stored ps c)
                                  (default PNaN (head (stored ps c))) c))
                        <$> df_columns st.2)
             else Raise TraitError)) as Hw.
  { unfold widget_dict_of.
    rewrite (widget_dict_of_columns _ _ _ (slider_starts ps)).
    - destruct (forallb _ _); [|done].
      cbn [app]. f_equal. apply list_fmap_ext. intros i c Hc.
      apply list_elem_of_lookup_2 in Hc. by rewrite Hcol.
    - done.
    - intros c Hc. rewrite Hcol by done. apply Hstored.
    - intros c Hc. unfold slider_starts.
      destruct c as [name|i]; [|done]. by rewrite Hcol. }
  pose proof (report_of_state _ _ Hst) as Hrep.
  rewrite He, andb_false_r in Hrep. cbn [negb] in Hrep.
  rewrite andb_true_r in Hrep.
  eexists _, st.2. split; [exact Hrep|]. split; [|split; [done|split]].
  - case_bool_decide as Hf; cbn [var_pars_of]; [|done].
    rewrite bool_decide_eq_false_2; [done|].
    intros Hin. apply Hname. by apply Hvar in Hin as [? _].
  - done.
  - intros d0 c Hd0. by apply slider_starts_first_set.
Qed.

Lemma interactive_sliders_witness :
  ∃ report df,
    _parameters_to_output (Some <$> [sample_1; sample_2]) = Ok report
    ∧ var_pars_of report = inr (VTable df)
    ∧ (∀ c, c ∈ df_columns df
            ↔ occurs [sample_1; sample_2] c
              ∧ varied_in_table [sample_1; sample_2] c)
    ∧ widget_dict_of df
      = (if forallb (slider_starts [sample_1; sample_2]) (df_columns df)
         then Ok ((λ c, (c, mkSlider (stored [sample_1; sample_2] c)
                              (default PNaN
                                 (head (stored [sample_1; sample_2] c))) c))
                    <$> df_columns df)
         else Raise TraitError)
    ∧ (∀ d0 c, head [sample_1; sample_2] = Some d0 →
         (d0 !! c = None → slider_starts [sample_1; sample_2] c = false)
         ∧ (∀ name v, c = LName name → d0 !! c = Some v →
                      v ≠ PNone → v ≠ PNaN →
                      slider_starts [sample_1; sample_2] c = true)).
Proof.
  assert (∀ x, x ∈ [sample_1; sample_2] → x = sample_1 ∨ x = sample_2) as Hx.
  { intros x Hin. apply elem_of_cons in Hin as [->|Hin]; [by left|].
    apply list_elem_of_singleton in Hin as ->. by right. }
  assert (∀ x c v, x ∈ [sample_1; sample_2] → x !! c = Some v →
                   (c = LName "a" ∨ c = LName "b")
                   ∧ v ∈ [PInt 1; PInt 5; PInt 6]) as Hs.
  { intros x c v Hin Hc. apply Hx in Hin as [-> | ->].
    - unfold sample_1 in Hc.
      apply lookup_insert_Some in Hc as [[<- <-]|[_ Hc]];
        [split; [by auto|left]|].
      apply lookup_singleton_Some in Hc as [<- <-].
      split; [by auto|right; left].
    - unfold sample_2 in Hc.
      apply lookup_insert_Some in Hc as [[<- <-]|[_ Hc]];
        [split; [by auto|left]|].
      apply lookup_singleton_Some in Hc as [<- <-].
      split; [by auto|right; right; left]. }
  apply (interactive_sliders [sample_1; sample_2]).
  - intros d c v Hd Hc. destruct (Hs d c v Hd Hc) as [_ Hv].
    repeat (apply elem_of_cons in Hv as [->|Hv]; [done|]).
    by apply elem_of_nil in Hv.
  - intros d c z Hd Hc. destruct (Hs d c _ Hd Hc) as [_ Hv].
    repeat (apply elem_of_cons in Hv as [[= ->]|Hv]; [lia|]).
    by apply elem_of_nil in Hv.
  - exists (LName "b"). split.
    + exists sample_1. split; [left|]. by exists (PInt 5).
    + exists sample_1, sample_2. split; [left|]. split; [right; left|].
      discriminate.
  - intros (d & Hd & [v Hv]).
    destruct (Hs _ _ _ Hd Hv) as [[H|H] _]; discriminate H.
Defined.

(** The sliders of the two samples, and the experiment whose first
    parameter set lacks the parameter that the second one has. *)
Lemma interactive_sliders_samples :
  (∃ df, _parameters_to_output (Some <$> [sample_1; sample_2])
         = Ok (FixedVaried {[ LName "a" := PInt 1 ]} df)
         ∧ widget_dict_of df
           = Ok [(LName "b",
                  mkSlider [PInt 5; PInt 6] (PInt 5) (LName "b"))])
  ∧ (∃ df, _parameters_to_output
             (Some <$> [ {[ LName "a" := PInt 1 ]};
                         {[ LName "a" := PInt 1; LName "b" := PInt 2 ]} ])
           = Ok (FixedVaried {[ LName "a" := PInt 1 ]} df)
           ∧ column df (LName "b") = [PNaN; PInt 2]
           ∧ widget_dict_of df = Raise TraitError).
Proof.
  split; eexists; (split; [by vm_compute|]); [|split]; by vm_compute.
Qed.

(** X13: the model of the interactive view gets the first parameter set,
    with the values of the sliders over it: a name among the updates has
    the updated value, every other name the value of the first parameter
    set, whatever the other sets hold; and updates that repeat the values
    of the first set give back the first set. *)
Theorem var_run_parameters (self : Experiment) (d : pdict)
    (rest : list (option pdict)) (param_updates : gmap string pyval) :
  parameters self = Some d :: rest →
  ∃ p, var_run self param_updates = Ok p
    ∧ (∀ k v, param_updates !! k = Some v → p !! LName k = Some v)
    ∧ (∀ k, param_updates !! k = None → p !! LName k = d !! LName k)
    ∧ (∀ i, p !! LPos i = d !! LPos i)
    ∧ ((∀ k v, param_updates !! k = Some v → d !! LName k = Some v) →
       p = d).
Proof.
  intros Hp. unfold var_run. rewrite Hp.
  change (getitem (Some d :: rest) 0) with (Ok (A := option pdict) (Some d)).
  cbn [mbind result_bind]. eexists. split; [done|].
  assert (∀ i, kmap (M2 := gmap label) LName param_updates !! LPos i = None)
    as Hpos.
  { intros i. apply lookup_kmap_None; [apply _|]. intros k Hk. done. }
  split; [|split; [|split]].
  - intros k v Hk. apply lookup_union_Some_l. by rewrite (lookup_kmap (M1 := gmap string) (M2 := gmap label) LName).
  - intros k Hk. rewrite lookup_union_r; [done|]. by rewrite (lookup_kmap (M1 := gmap string) (M2 := gmap label) LName).
  - intros i. by rewrite lookup_union_r.
  - intros Hsame. apply map_eq. intros [k|i].
    + destruct (param_updates !! k) as [v|] eqn:Hk.
      * rewrite (Hsame k v Hk). apply lookup_union_Some_l.
        by rewrite (lookup_kmap (M1 := gmap string) (M2 := gmap label) LName).
      * rewrite lookup_union_r; [done|]. by rewrite (lookup_kmap (M1 := gmap string) (M2 := gmap label) LName).
    + by rewrite lookup_union_r.
Qed.

Lemma var_run_parameters_witness :
  ∃ e p,
    __init__ (Several [sample_1; sample_2]) Absent 1%Z false = Ok e
    ∧ var_run e {[ "b" := PInt 6 ]} = Ok p
    ∧ p !! LName "b" = Some (PInt 6)
    ∧ p !! LName "a" = sample_1 !! LName "a".
Proof.
  destruct (__init__ (Several [sample_1; sample_2]) Absent 1%Z false)
    as [e|x] eqn:He; [|by vm_compute in He].
  destruct (init_fields _ _ _ _ _ He) as (Hp & _).
  destruct (var_run_parameters e sample_1 [Some sample_2]
              {[ "b" := PInt 6 ]} Hp) as (p & Hrun & Hupd & Hkeep & _).
  exists e, p. split; [reflexivity|]. split; [exact Hrun|].
  split; [by apply Hupd|by apply Hkeep].
Defined.

(** X14: the degenerate experiments.  One created without parameters
    documents the placeholder as a fixed column [0]: [interactive] ends
    in the [NameError], and [var_run] cannot copy the placeholder
    ([TypeError]).  One created with an empty parameter list documents
    the two-part structure, so [interactive] finds a varied table and
    creates no slider at all, and [var_run] finds no first parameter set
    ([IndexError]). *)
Theorem interactive_degenerate (scenarios0 : arg string) (iterations0 : Z)
    (record0 : bool) (param_updates : gmap string pyval) :
  (∃ e f, __init__ Absent scenarios0 iterations0 record0 = Ok e
     ∧ output e !! "parameters" = Some (Fixed f)
     ∧ var_pars_of (Fixed f) = inl (NameError "AgentpyError")
     ∧ var_run e param_updates = Raise TypeError)
  ∧ (∃ e report df,
       __init__ (Several []) scenarios0 iterations0 record0 = Ok e
       ∧ output e !! "parameters" = Some report
       ∧ var_pars_of report = inr (VTable df)
       ∧ widget_dict_of df = Ok []
       ∧ var_run e param_updates = Raise IndexError).
Proof.
  split.
  - assert (_parameters_to_output [None]
            = Ok (Fixed {[ LPos 0 := PNone ]})) as Hr by (by vm_compute).
    unfold __init__. change (make_list Absent true) with [@None pdict].
    rewrite Hr. cbn [mbind result_bind].
    eexists _, _. split; [done|]. cbn [output]. split; [|split].
    + apply lookup_singleton_eq.
    + done.
    + done.
  - assert (_parameters_to_output []
            = Ok (FixedVaried ∅ (mkDataFrame [] []))) as Hr by (by vm_compute).
    unfold __init__. change (make_list (Several []) true) with (@nil (option pdict)).
    rewrite Hr. cbn [mbind result_bind].
    eexists _, _, _. split; [done|]. cbn [output]. split; [|split; [|split]].
    + apply lookup_singleton_eq.
    + done.
    + done.
    + done.
Qed.

(** * The analysis module *)

Section grids.

Import analysis.

Context {rgba : Type}.
Variable clear : rgba.
Variable to_rgba : item cell → result rgba.

Lemma item_nested_ind {A : Type} (P : item A → Prop) :
  (∀ a, P (Cell a)) → (∀ l, Forall P l → P (Row l)) → ∀ i, P i.
Proof.
  intros HC HR. fix IH 1. intros [a|l]; [apply HC|].
  apply HR. induction l as [|x l IHl]; constructor; [apply IH|exact IHl].
Qed.

Lemma comprehension_cons {A B : Type} (f : A → result B) x l :
  comprehension f (x :: l)
  = (y ← f x; ys ← comprehension f l; Ok (y :: ys)).
Proof. reflexivity. Qed.

Lemma comprehension_ok {A B C : Type} (f : A → result B) (h : C → A)
    (g : C → B) l :
  (∀ x, x ∈ l → f (h x) = Ok (g x)) →
  comprehension f (h <$> l) = Ok (g <$> l).
Proof.
  induction l as [|x l IH]; intros H; [done|].
  rewrite !fmap_cons, comprehension_cons, (H x) by left.
  cbn [mbind result_bind].
  rewrite IH; [done|]. intros y Hy. apply H. by right.
Qed.

(** A comprehension whose elements are fine or raise [e] raises [e] as
    soon as one of them does. *)
Lemma comprehension_raise {A B : Type} (f : A → result B) (e : exn) l x :
  (∀ y, y ∈ l → (∃ z, f y = Ok z) ∨ f y = Raise e) →
  x ∈ l → f x = Raise e → comprehension f l = Raise e.
Proof.
  induction l as [|y l IH]; intros H Hx Hfx; [by apply elem_of_nil in Hx|].
  rewrite comprehension_cons.
  destruct (H y) as [[z Hz]|Hy]; [left| |by rewrite Hy].
  rewrite Hz. cbn [mbind result_bind].
  apply elem_of_cons in Hx as [->|Hx]; [congruence|].
  rewrite IH; [done| |done|done]. intros y' Hy'. apply H. by right.
Qed.

(** A comprehension with an element that raises raises. *)
Lemma comprehension_raises {A B : Type} (f : A → result B) l x e :
  x ∈ l → f x = Raise e → ∃ e', comprehension f l = Raise e'.
Proof.
  induction l as [|y l IH]; intros Hx Hfx; [by apply elem_of_nil in Hx|].
  rewrite comprehension_cons. destruct (f y) as [z|e'] eqn:Hy; [|by eauto].
  cbn [mbind result_bind].
  apply elem_of_cons in Hx as [->|Hx]; [congruence|].
  destruct (IH Hx Hfx) as [e' ->]. by eauto.
Qed.

Lemma forallb_is_cell {A : Type} (l : list (item A)) :
  forallb is_cell l = true → ∃ cs, l = Cell <$> cs.
Proof.
  induction l as [|[a|l'] l IH]; intros H.
  - by exists [].
  - simpl in H. destruct (IH H) as [cs ->]. by exists (a :: cs).
  - done.
Qed.

Lemma cells_row_of_cells {A : Type} (cs : list A) :
  (Cell <$> cs) ≫= cells = cs.
Proof.
  induction cs as [|c cs IH]; [done|].
  rewrite fmap_cons, bind_cons. cbn [cells app]. by rewrite IH.
Qed.

(** The lookups of a row of values. *)
Lemma lookups_covered (d : gmap cell cell) (cs : list cell) :
  (∀ c, c ∈ cs → covered (Some d) c = true) →
  comprehension (λ i, if is_nan i then Ok i else lookup_color d i)
    (Cell <$> cs)
  = Ok (Cell <$> (translate (Some d) <$> cs)).
Proof.
  intros H. rewrite <- list_fmap_compose. apply comprehension_ok.
  intros c Hc. specialize (H c Hc). cbn [compose].
  destruct c as [|z|s]; [done| |]; cbn [is_nan lookup_color];
    cbn [covered] in H; apply bool_decide_eq_true in H as [v Hv];
    cbn [translate]; by rewrite Hv.
Qed.

Lemma lookups_missing (d : gmap cell cell) (cs : list cell) (c : cell) :
  c ∈ cs → covered (Some d) c = false →
  comprehension (λ i, if is_nan i then Ok i else lookup_color d i)
    (Cell <$> cs)
  = Raise KeyError.
Proof.
  intros Hc Hno. apply (comprehension_raise _ _ _ (Cell c)).
  - intros i (c' & -> & _)%list_elem_of_fmap.
    destruct c' as [|z|s]; cbn [is_nan lookup_color]; [by eauto| |];
      (destruct (d !! _); [by eauto|by right]).
  - apply list_elem_of_fmap. eauto.
  - destruct c as [|z|s]; [done| |]; cbn [is_nan lookup_color];
      cbn [covered] in Hno; apply bool_decide_eq_false in Hno;
      (destruct (d !! _) eqn:Hd; [|done]); by destruct Hno.
Qed.

(** The first pass over a row of values. *)
Lemma first_pass_covered (color_dict : option (gmap cell cell)) cs :
  (∀ c, c ∈ cs → covered color_dict c = true) →
  match color_dict with
  | Some d =>
      comprehension (λ i, if is_nan i then Ok i else lookup_color d i)
        (Cell <$> cs)
  | None => Ok (Cell <$> cs)
  end = Ok (Cell <$> (translate color_dict <$> cs)).
Proof.
  intros H. destruct color_dict as [d|]; [by apply lookups_covered|].
  do 2 f_equal. rewrite <- (list_fmap_id cs) at 1. by apply list_fmap_ext.
Qed.

Lemma color_cells_plain (color_dict : option (gmap cell cell)) cs :
  (∀ c, c ∈ cs → covered color_dict c = true) →
  color_cells clear to_rgba color_dict false (Cell <$> cs)
  = Ok (map_item (λ c, Plain (translate color_dict c)) <$> (Cell <$> cs)).
Proof.
  intros H. unfold color_cells. rewrite (first_pass_covered _ _ H).
  cbn [mbind result_bind]. by rewrite <- !list_fmap_compose.
Qed.

Lemma color_cells_convert (color_dict : option (gmap cell cell)) cs
    (col : cell → rgba) :
  (∀ c, c ∈ cs → covered color_dict c = true) →
  (∀ c, c ∈ cs → translate color_dict c ≠ CNaN →
        to_rgba (Cell (translate color_dict c))
        = Ok (col (translate color_dict c))) →
  color_cells clear to_rgba color_dict true (Cell <$> cs)
  = Ok (map_item (λ c, Rgba (if decide (translate color_dict c = CNaN)
                             then clear else col (translate color_dict c)))
          <$> (Cell <$> cs)).
Proof.
  intros H Hcol. unfold color_cells. rewrite (first_pass_covered _ _ H).
  cbn [mbind result_bind].
  rewrite <- !list_fmap_compose. apply comprehension_ok.
  intros c Hc. cbn [compose map_item].
  destruct (decide (translate color_dict c = CNaN)) as [->|Hne]; [done|].
  assert (is_nan (Cell (translate color_dict c)) = false) as ->
    by (by destruct (translate color_dict c)).
  rewrite (Hcol c Hc Hne). done.
Qed.

Lemma apply_colors_rows color_dict convert (l0 : list (item cell)) l :
  _apply_colors clear to_rgba color_dict convert (Row (Row l0 :: l))
  = (l' ← comprehension (_apply_colors clear to_rgba color_dict convert)
            (Row l0 :: l); Ok (Row l')).
Proof. reflexivity. Qed.

Lemma apply_colors_cells color_dict convert (c : cell) l :
  _apply_colors clear to_rgba color_dict convert (Row (Cell c :: l))
  = (l' ← color_cells clear to_rgba color_dict convert (Cell c :: l);
     Ok (Row l')).
Proof. reflexivity. Qed.

(** A proper grid is made of rows of values or of proper grids. *)
Lemma proper_inv {A : Type} (l : list (item A)) :
  proper (Row l) = true →
  l ≠ [] ∧ ((∃ cs, l = Cell <$> cs)
            ∨ ((∃ l0 l', l = Row l0 :: l') ∧ Forall (λ g, proper g = true) l)).
Proof.
  destruct l as [|[a|l0] l]; [done| |]; intros H; (split; [done|]).
  - left. by apply forallb_is_cell.
  - right. split; [by eauto|]. apply Forall_forall. intros g Hg.
    cbn [proper] in H. rewrite forallb_forall in H.
    by apply H, list_elem_of_In.
Qed.

Lemma comprehension_cases {A B : Type} (f : A → result B) (p : A → bool)
    (g : A → B) (e : exn) l :
  (∀ x, x ∈ l → f x = if p x then Ok (g x) else Raise e) →
  comprehension f l = if forallb p l then Ok (g <$> l) else Raise e.
Proof.
  induction l as [|x l IH]; intros H; [done|].
  rewrite comprehension_cons, (H x) by left. cbn [forallb].
  destruct (p x); [|done]. cbn [mbind result_bind andb].
  rewrite IH by (intros y Hy; apply H; by right).
  by destruct (forallb p l).
Qed.

Lemma forallb_bind {A B : Type} (p : B → bool) (f : A → list B) l :
  forallb p (l ≫= f) = forallb (λ x, forallb p (f x)) l.
Proof.
  induction l as [|x l IH]; [done|].
  rewrite bind_cons, forallb_app. cbn [forallb]. by rewrite IH.
Qed.

(** Colouring a proper grid, given what colouring a row of values
    does. *)
Lemma apply_colors_grid color_dict convert (Q : cell → Prop)
    (f : cell → shade) :
  (∀ cs, (∀ c, c ∈ cs → Q c) →
         color_cells clear to_rgba color_dict convert (Cell <$> cs)
         = Ok (map_item f <$> (Cell <$> cs))) →
  ∀ g, proper g = true → (∀ c, c ∈ cells g → Q c) →
       _apply_colors clear to_rgba color_dict convert g = Ok (map_item f g).
Proof.
  intros Hrow g. induction g as [a|l IH] using item_nested_ind; [done|].
  intros [Hne [[cs ->]|[(l0 & l' & ->) Hp]]]%proper_inv HQ.
  - cbn [cells] in HQ. rewrite cells_row_of_cells in HQ.
    destruct cs as [|c cs]; [done|]. rewrite fmap_cons, apply_colors_cells.
    rewrite <- fmap_cons, (Hrow _ HQ). done.
  - rewrite apply_colors_rows.
    rewrite <- (list_fmap_id (Row l0 :: l')) at 1.
    rewrite (comprehension_ok _ id (map_item f)); [done|].
    intros g Hg. rewrite Forall_forall in IH, Hp.
    apply (IH g Hg (Hp g Hg)). intros c Hc. apply HQ.
    cbn [cells]. apply list_elem_of_bind. eauto.
Qed.

(** X15: colouring without conversion.  On a proper grid (rows, rows of
    rows, ..., none of them empty) whose values other than NaN all have
    an entry in [color_dict], [_apply_colors] returns the grid of the
    same shape in which NaN is kept and every other value is replaced by
    its entry (all values are kept where there is no [color_dict]). *)
Theorem apply_colors_translates (color_dict : option (gmap cell cell))
    (g : item cell) :
  proper g = true →
  (∀ c, c ∈ cells g → covered color_dict c = true) →
  _apply_colors clear to_rgba color_dict false g
  = Ok (map_item (λ c, Plain (translate color_dict c)) g).
Proof.
  apply (apply_colors_grid color_dict false
           (λ c, covered color_dict c = true)).
  intros cs. apply color_cells_plain.
Qed.

(** X16: colouring with conversion.  On a proper grid whose values are
    covered by [color_dict], if [to_rgba] accepts every colour that is
    not NaN, [_apply_colors] returns the grid of the same shape of the
    converted colours, a NaN (a value of the grid, or an entry of
    [color_dict]) being the transparent [(0., 0., 0., 0.)] without
    [to_rgba] being asked. *)
Theorem apply_colors_converts (color_dict : option (gmap cell cell))
    (col : cell → rgba) (g : item cell) :
  proper g = true →
  (∀ c, c ∈ cells g → covered color_dict c = true) →
  (∀ c, c ∈ cells g → translate color_dict c ≠ CNaN →
        to_rgba (Cell (translate color_dict c))
        = Ok (col (translate color_dict c))) →
  _apply_colors clear to_rgba color_dict true g
  = Ok (map_item (λ c, Rgba (if decide (translate color_dict c = CNaN)
                             then clear else col (translate color_dict c)))
          g).
Proof.
  intros Hp Hcov Hcol.
  apply (apply_colors_grid color_dict true
           (λ c, covered color_dict c = true
                 ∧ (translate color_dict c ≠ CNaN →
                    to_rgba (Cell (translate color_dict c))
                    = Ok (col (translate color_dict c))))); [|done|by auto].
  intros cs H. apply color_cells_convert; intros c Hc; by apply H.
Qed.

Lemma forallb_false {A : Type} (p : A → bool) l :
  forallb p l = false → ∃ x, x ∈ l ∧ p x = false.
Proof.
  induction l as [|x l IH]; [done|]. cbn [forallb].
  destruct (p x) eqn:Hx.
  - intros (y & Hy & Hpy)%IH. exists y. split; [by right|done].
  - intros _. exists x. split; [left|done].
Qed.

(** Without conversion a proper grid is translated or, for a value
    without colour, a [KeyError]. *)
Lemma apply_colors_plain_cases (d : gmap cell cell) (g : item cell) :
  proper g = true →
  _apply_colors clear to_rgba (Some d) false g
  = if forallb (covered (Some d)) (cells g)
    then Ok (map_item (λ c, Plain (translate (Some d) c)) g)
    else Raise KeyError.
Proof.
  induction g as [a|l IH] using item_nested_ind; [done|].
  intros [Hne [[cs ->]|[(l0 & l' & ->) Hp]]]%proper_inv.
  - cbn [cells]. rewrite cells_row_of_cells.
    destruct cs as [|c cs]; [done|]. rewrite fmap_cons, apply_colors_cells.
    rewrite <- fmap_cons.
    destruct (forallb (covered (Some d)) (c :: cs)) eqn:Hall.
    + rewrite color_cells_plain; [done|]. intros c' Hc'.
      rewrite forallb_forall in Hall. by apply Hall, list_elem_of_In.
    + apply forallb_false in Hall as (c' & Hc' & Hno).
      unfold color_cells. by rewrite (lookups_missing d _ c').
  - rewrite apply_colors_rows. cbn [cells]. rewrite forallb_bind.
    rewrite (comprehension_cases _
               (λ g, forallb (covered (Some d)) (cells g))
               (map_item (λ c, Plain (translate (Some d) c))) KeyError).
    + by destruct (forallb _ (Row l0 :: l')).
    + intros g Hg. rewrite Forall_forall in IH, Hp. by apply IH, Hp.
Qed.

(** A value without colour makes the colouring of a proper grid
    raise. *)
Lemma apply_colors_raises (d : gmap cell cell) (convert : bool)
    (g : item cell) (c : cell) :
  proper g = true → c ∈ cells g → covered (Some d) c = false →
  ∃ e, _apply_colors clear to_rgba (Some d) convert g = Raise e.
Proof.
  induction g as [a|l IH] using item_nested_ind; [done|].
  intros [Hne [[cs ->]|[(l0 & l' & ->) Hp]]]%proper_inv Hc Hno.
  - cbn [cells] in Hc. rewrite cells_row_of_cells in Hc.
    destruct cs as [|c' cs]; [done|]. rewrite fmap_cons, apply_colors_cells.
    rewrite <- fmap_cons. unfold color_cells.
    rewrite (lookups_missing d _ c) by done. by eauto.
  - rewrite apply_colors_rows. cbn [cells] in Hc.
    apply list_elem_of_bind in Hc as (g & Hc & Hg).
    rewrite Forall_forall in IH, Hp.
    destruct (IH g Hg (Hp g Hg) Hc Hno) as [e He].
    destruct (comprehension_raises
                (_apply_colors clear to_rgba (Some d) convert) _ g e Hg He)
      as [e' ->].
    by eauto.
Qed.

(** X17: a value without colour.  If a value of a proper grid other than
    NaN has no entry in [color_dict], [_apply_colors] raises and returns
    no grid, whatever the other values are; without conversion the
    exception is the [KeyError] of the lookup. *)
Theorem apply_colors_missing_color (d : gmap cell cell) (convert : bool)
    (g : item cell) (c : cell) :
  proper g = true → c ∈ cells g → c ≠ CNaN → d !! c = None →
  ∃ e, _apply_colors clear to_rgba (Some d) convert g = Raise e
       ∧ (convert = false → e = KeyError).
Proof.
  intros Hp Hc Hnan Hd.
  assert (covered (Some d) c = false) as Hno.
  { destruct c; [done| |]; cbn [covered]; apply bool_decide_eq_false;
      rewrite Hd; by intros [? ?]. }
  destruct (apply_colors_raises d convert g c Hp Hc Hno) as [e He].
  exists e. split; [done|]. intros ->.
  rewrite (apply_colors_plain_cases d g Hp) in He.
  destruct (forallb (covered (Some d)) (cells g)) eqn:Hall; [|congruence].
  rewrite forallb_forall in Hall.
  apply list_elem_of_In, Hall in Hc. congruence.
Qed.

(** X18: empty grids.  A two-dimensional grid without rows, or with an
    empty row (the values of the rows before it having colours), cannot
    be coloured: [gridplot] with a [color_dict] raises [IndexError].
    Without colour options [gridplot] draws the same grid as it is. *)
Theorem gridplot_empty_row (d : gmap cell cell) (rows : list (list cell)) :
  rows = [] ∨ [] ∈ rows →
  (∀ r c, r ∈ rows → c ∈ r → covered (Some d) c = true) →
  gridplot clear to_rgba (grid2 rows) (Some d) false = Raise IndexError
  ∧ gridplot clear to_rgba (grid2 rows) None false = Ok (plain (grid2 rows)).
Proof.
  intros Hrows Hcov. split; [|done].
  unfold gridplot. rewrite bool_decide_eq_true_2 by done. cbn [orb].
  destruct Hrows as [->|Hin]; [done|].
  destruct rows as [|r0 rows]; [by apply elem_of_nil in Hin|].
  unfold grid2. rewrite fmap_cons, apply_colors_rows.
  change (Row (Cell <$> r0) :: ((λ r, Row (Cell <$> r)) <$> rows))
    with ((λ r : list cell, Row (Cell <$> r)) <$> (r0 :: rows)).
  rewrite (comprehension_raise _ IndexError _ (Row (Cell <$> []))).
  - done.
  - intros g (r & -> & Hr)%list_elem_of_fmap.
    destruct r as [|c r]; [by right|left].
    rewrite fmap_cons, apply_colors_cells, <- fmap_cons.
    rewrite color_cells_plain; [by eauto|].
    intros c' Hc'. by apply (Hcov (c :: r)).
  - apply list_elem_of_fmap. by exists [].
  - done.
Qed.

End grids.

(** Sample grids and colours. *)
Lemma sample_grid_cells (c : analysis.cell) :
  c ∈ analysis.cells
        (analysis.grid2 [[analysis.CInt 1; analysis.CNaN]; [analysis.CInt 1]])
  → c = analysis.CInt 1 ∨ c = analysis.CNaN.
Proof.
  intros Hc. vm_compute in Hc.
  repeat (apply elem_of_cons in Hc as [->|Hc]; [by auto|]).
  by apply elem_of_nil in Hc.
Qed.

Lemma apply_colors_translates_witness :
  analysis._apply_colors (rgba := Z) 0%Z (λ _, Raise ValueError)
    (Some {[ analysis.CInt 1 := analysis.CStr "red" ]}) false
    (analysis.grid2 [[analysis.CInt 1; analysis.CNaN]; [analysis.CInt 1]])
  = Ok (analysis.map_item
          (λ c, analysis.Plain
                  (analysis.translate
                     (Some {[ analysis.CInt 1 := analysis.CStr "red" ]}) c))
          (analysis.grid2
             [[analysis.CInt 1; analysis.CNaN]; [analysis.CInt 1]])).
Proof.
  apply (apply_colors_translates 0%Z (λ _, Raise ValueError)).
  - reflexivity.
  - by intros c [-> | ->]%sample_grid_cells.
Defined.

Lemma apply_colors_converts_witness :
  analysis._apply_colors (rgba := Z) 0%Z (λ _, Ok 7%Z)
    (Some {[ analysis.CInt 1 := analysis.CStr "red" ]}) true
    (analysis.grid2 [[analysis.CInt 1; analysis.CNaN]; [analysis.CInt 1]])
  = Ok (analysis.map_item
          (λ c, analysis.Rgba
                  (if decide (analysis.translate
                                (Some {[ analysis.CInt 1
                                         := analysis.CStr "red" ]}) c
                              = analysis.CNaN)
                   then 0%Z else 7%Z))
          (analysis.grid2
             [[analysis.CInt 1; analysis.CNaN]; [analysis.CInt 1]])).
Proof.
  apply (apply_colors_converts 0%Z (λ _, Ok 7%Z) _ (λ _, 7%Z)).
  - reflexivity.
  - by intros c [-> | ->]%sample_grid_cells.
  - done.
Defined.

Lemma apply_colors_missing_color_witness :
  ∃ e, analysis._apply_colors (rgba := Z) 0%Z (λ _, Ok 7%Z)
         (Some {[ analysis.CInt 2 := analysis.CStr "red" ]}) false
         (analysis.grid2
            [[analysis.CInt 1; analysis.CNaN]; [analysis.CInt 1]])
       = Raise e
       ∧ (false = false → e = KeyError).
Proof.
  apply (apply_colors_missing_color 0%Z (λ _, Ok 7%Z) _ false _
           (analysis.CInt 1)).
  - reflexivity.
  - vm_compute. left.
  - done.
  - by vm_compute.
Defined.

Lemma gridplot_empty_row_witness :
  analysis.gridplot (rgba := Z) 0%Z (λ _, Ok 7%Z)
    (analysis.grid2 [[analysis.CInt 1]; []])
    (Some {[ analysis.CInt 1 := analysis.CStr "red" ]}) false
  = Raise IndexError
  ∧ analysis.gridplot (rgba := Z) 0%Z (λ _, Ok 7%Z)
      (analysis.grid2 [[analysis.CInt 1]; []]) None false
    = Ok (analysis.plain (analysis.grid2 [[analysis.CInt 1]; []])).
Proof.
  apply (gridplot_empty_row 0%Z (λ _, Ok 7%Z)).
  - right. right. left.
  - intros r c Hr Hc.
    apply elem_of_cons in Hr as [->|Hr].
    + apply list_elem_of_singleton in Hc as ->. by vm_compute.
    + apply list_elem_of_singleton in Hr as ->. by apply elem_of_nil in Hc.
Defined.
(** ** The frames of an animation *)

Section frames.

Import analysis.

Context {Model : Type}.
Variable run_setup : Model → Model.
Variable create_output : Model → Model.
Variable run_step : Model → Model.
Variable _stop : Model → bool.
Variable t : Model → Z.

(** A step of the animation, and [j] of them. *)
Local Abbreviation advance := (λ m, create_output (run_step m)).
Local Abbreviation after j m := (Nat.iter j advance m).
Local Abbreviation next := (next create_output run_step _stop t).
Local Abbreviation drain := (drain create_output run_step _stop t).

Lemma after_S (j : nat) (m : Model) : after (S j) m = after j (advance m).
Proof. apply Nat.iter_succ_r. Qed.

(** The loop once the two opening frames are out: a frame per step,
    until the model stops. *)
Lemma drain_loop (k : nat) :
  ∀ (fuel : nat) (c : closure),
    (2 ≤ pre_steps c)%Z →
    (∀ j, j < k → _stop (after j (model c)) = false) →
    _stop (after k (model c)) = true →
    k + 1 ≤ fuel →
    drain fuel c InLoop
    = Some ((λ j, t (after j (model c))) <$> seq 1 k,
            {| model := after k (model c); pre_steps := pre_steps c |}).
Proof.
  induction k as [|k IH]; intros fuel [m p] Hp Hrun Hstop Hfuel;
    cbn [model pre_steps] in *.
  - destruct fuel as [|fuel]; [lia|]. cbn [analysis.drain analysis.next].
    unfold loop. cbn [model pre_steps].
    change (_stop m = true) in Hstop. by rewrite Hstop.
  - destruct fuel as [|fuel]; [lia|]. cbn [analysis.drain analysis.next].
    unfold loop. cbn [model pre_steps].
    assert (_stop m = false) as -> by (apply (Hrun 0); lia).
    assert ((p <? 2)%Z = false) as -> by lia.
    rewrite (IH fuel {| model := advance m; pre_steps := p |}); cbn [model pre_steps].
    + f_equal. f_equal; [|by rewrite after_S].
      cbn [seq]. rewrite fmap_cons. f_equal.
      rewrite <- (fmap_S_seq 1 k), <- list_fmap_compose.
      apply list_fmap_ext. intros i j _. cbn [compose]. by rewrite after_S.
    + done.
    + intros j Hj. rewrite <- after_S. apply Hrun. lia.
    + by rewrite <- after_S.
    + lia.
Qed.

(** On a model that has not stopped, a call of [frames] starts in the
    loop. *)
Lemma drain_entry (fuel : nat) (c : closure) :
  _stop (model c) = false → drain fuel c Entry = drain fuel c InLoop.
Proof.
  intros Hc. destruct fuel as [|fuel]; [done|].
  cbn [analysis.drain analysis.next]. by rewrite Hc.
Qed.

(** An opening frame: the counter goes up, the model stays. *)
Lemma drain_opening (fuel : nat) (m : Model) (p : Z) :
  _stop m = false → (p < 2)%Z →
  drain (S fuel) {| model := m; pre_steps := p |} InLoop
  = match drain fuel {| model := m; pre_steps := p + 1 |} InLoop with
    | Some (l, c) => Some (t m :: l, c)
    | None => None
    end.
Proof.
  intros Hm Hp. cbn [analysis.drain analysis.next]. unfold loop.
  cbn [model pre_steps]. rewrite Hm.
  assert ((p <? 2)%Z = true) as -> by lia. done.
Qed.

(** A call of [frames] on a model that stops after [k] steps. *)
Lemma drain_frames (k fuel : nat) (c : closure) :
  (0 ≤ pre_steps c ≤ 2)%Z →
  (∀ j, j < k → _stop (after j (model c)) = false) →
  _stop (after k (model c)) = true →
  k + 3 ≤ fuel →
  drain fuel c Entry
  = Some (match k with
          | O => ([t (model c)], c)
          | S _ =>
              (replicate (Z.to_nat (2 - pre_steps c)) (t (model c))
                 ++ ((λ j, t (after j (model c))) <$> seq 1 k),
               {| model := after k (model c); pre_steps := 2 |})
          end).
Proof.
  intros Hp Hrun Hstop Hfuel. destruct k as [|k].
  - destruct fuel as [|[|fuel]]; [lia..|].
    cbn [analysis.drain analysis.next].
    change (_stop (model c) = true) in Hstop. by rewrite Hstop.
  - destruct c as [m p]. cbn [model pre_steps] in *.
    assert (_stop m = false) as Hm by (apply (Hrun 0); lia).
    rewrite drain_entry by done.
    assert (∀ fuel, S k + 1 ≤ fuel →
              drain fuel {| model := m; pre_steps := 2 |} InLoop
              = Some ((λ j, t (after j m)) <$> seq 1 (S k),
                      {| model := after (S k) m; pre_steps := 2 |})) as Hloop.
    { intros f Hf.
      by apply (drain_loop (S k) f {| model := m; pre_steps := 2 |}). }
    destruct fuel as [|[|fuel]]; [lia..|].
    destruct (decide (p = 2%Z)) as [->|Hp2]; [by rewrite Hloop by lia|].
    rewrite drain_opening by (done || lia).
    destruct (decide (p = 1%Z)) as [->|Hp1].
    + change (1 + 1)%Z with 2%Z. by rewrite Hloop by lia.
    + assert (p = 0%Z) as -> by lia. change (0 + 1)%Z with 1%Z.
      rewrite drain_opening by (done || lia).
      change (1 + 1)%Z with 2%Z. by rewrite Hloop by lia.
Qed.

Lemma animate_model (m : Model) (skip : Z) :
  model (animate run_setup create_output run_step m skip)
  = Nat.iter (Z.to_nat skip) run_step (create_output (run_setup m)).
Proof.
  unfold animate, range. cbn [model].
  generalize (create_output (run_setup m)). intros m0.
  destruct (decide (skip ≤ 0)%Z) as [Hs|Hs].
  - replace (Z.to_nat skip) with 0 by lia.
    by destruct skip.
  - rewrite <- (Z2Nat.id skip) at 1 by lia.
    generalize (Z.to_nat skip). intros n. generalize 0%Z. revert m0.
    induction n as [|n IH]; intros m0 z; [done|].
    rewrite Nat2Z.inj_succ, seqZ_cons by lia. cbn [fold_left].
    rewrite Z.pred_succ, IH. by rewrite <- Nat.iter_succ_r.
Qed.
(** X19: the frames of an animation.  [animate] sets the model up, creates
    its output and runs the skipped rounds, without output and whether or
    not the model stops in them.  If the model then stops after [k]
    further steps, [frames] yields the time of the state it starts from
    twice and then the time after each step, the stopping one included,
    and ends: [k + 2] frames, the model being left as the [k]th step
    leaves it.  If the model has stopped before the first frame, the
    time is yielded once. *)
Theorem animate_frames (m0 : Model) (skip : Z) (k fuel : nat) :
  let m := Nat.iter (Z.to_nat skip) run_step (create_output (run_setup m0)) in
  (∀ j, j < k → _stop (after j m) = false) →
  _stop (after k m) = true →
  k + 3 ≤ fuel →
  drain fuel (animate run_setup create_output run_step m0 skip) Entry
  = Some (match k with
          | O => ([t m], {| model := m; pre_steps := 0 |})
          | S _ => (t m :: t m :: ((λ j, t (after j m)) <$> seq 1 k),
                    {| model := after k m; pre_steps := 2 |})
          end).
Proof.
  intros m Hrun Hstop Hfuel.
  pose proof (animate_model m0 skip) as Hm. fold m in Hm.
  rewrite (drain_frames k); [|done|by rewrite Hm..|done].
  rewrite Hm. destruct k; [|done].
  f_equal. f_equal. unfold animate in *. cbn [model] in Hm.
  by rewrite Hm.
Qed.

(** X20: the frames shown again.  [frames] keeps its counter and the model
    in the variables of [animate], which a later call finds as the
    earlier one left them: once a call has run to its end, every further
    call yields one frame, the time the model stopped at, and changes
    nothing. *)
Theorem frames_again (k fuel : nat) (c : closure) :
  (0 ≤ pre_steps c ≤ 2)%Z →
  (∀ j, j < k → _stop (after j (model c)) = false) →
  _stop (after k (model c)) = true →
  k + 3 ≤ fuel →
  ∃ l c', drain fuel c Entry = Some (l, c')
          ∧ length l = (if decide (k = 0) then 1
                        else Z.to_nat (2 - pre_steps c) + k)
          ∧ drain fuel c' Entry = Some ([t (after k (model c))], c').
Proof.
  intros Hp Hrun Hstop Hfuel.
  rewrite (drain_frames k fuel c Hp Hrun Hstop Hfuel).
  destruct k as [|k].
  - eexists _, _. split; [done|]. split; [done|].
    apply (drain_frames 0); [done|intros j Hj; lia|done|done].
  - eexists _, _. split; [done|]. split.
    + rewrite length_app, length_replicate, length_fmap, length_seq. done.
    + apply (drain_frames 0 fuel
               {| model := after (S k) (model c); pre_steps := 2 |});
        [cbn [pre_steps]; lia|intros j Hj; lia|done|lia].
Qed.

(** X21: a model that never stops.  [frames] then never ends: however many
    frames are taken, there is a next one. *)
Theorem frames_never_end (c : closure) :
  (∀ j, _stop (after j (model c)) = false) →
  ∀ fuel, drain fuel c Entry = None.
Proof.
  intros Hrun fuel. rewrite drain_entry by apply (Hrun 0).
  revert c Hrun. induction fuel as [|fuel IH]; intros [m p] Hrun; [done|].
  cbn [model] in Hrun.
  cbn [analysis.drain analysis.next]. unfold loop. cbn [model pre_steps].
  assert (_stop m = false) as -> by apply (Hrun 0).
  destruct (p <? 2)%Z.
  - by rewrite IH.
  - rewrite IH; [done|]. intros j. cbn [model]. rewrite <- after_S.
    apply Hrun.
Qed.

End frames.

(** A model that counts its steps and stops at the third. *)
Lemma animate_frames_witness :
  analysis.drain id Z.succ (λ m, 3 <=? m)%Z id 6
    (analysis.animate id id Z.succ 0%Z 0%Z) analysis.Entry
  = Some ([0; 0; 1; 2; 3]%Z, {| analysis.model := 3%Z;
                                analysis.pre_steps := 2 |}).
Proof.
  apply (animate_frames id id Z.succ (λ m, 3 <=? m)%Z id 0%Z 0%Z 3 6).
  - intros [|[|[|j]]] Hj; [reflexivity..|lia].
  - reflexivity.
  - lia.
Defined.

Lemma frames_again_witness :
  ∃ l c',
    analysis.drain id Z.succ (λ m, 3 <=? m)%Z id 6
      {| analysis.model := 1%Z; analysis.pre_steps := 2 |} analysis.Entry
    = Some (l, c')
    ∧ length l = 2
    ∧ analysis.drain id Z.succ (λ m, 3 <=? m)%Z id 6 c' analysis.Entry
      = Some ([3%Z], c').
Proof.
  apply (frames_again id Z.succ (λ m, 3 <=? m)%Z id 2 6
           {| analysis.model := 1%Z; analysis.pre_steps := 2 |}).
  - cbn. lia.
  - intros [|[|j]] Hj; [reflexivity..|lia].
  - reflexivity.
  - lia.
Defined.

Lemma frames_never_end_witness :
  analysis.drain id Z.succ (λ _, false) id 100
    {| analysis.model := 0%Z; analysis.pre_steps := 0 |} analysis.Entry
  = None.
Proof.
  apply (frames_never_end id Z.succ (λ _, false) id
           {| analysis.model := 0%Z; analysis.pre_steps := 0 |}).
  done.
Defined.

(** * The model *)

Section stepping.

Import model.

Variable setup : Model → Model.
Variable step : Model → Model.

(** Without a limit and without a call of [stop()] the loop runs up to
    the ceiling and raises there. *)
Lemma step_loop_reaches_ceiling (fuel : nat) :
  keeps_clock step → never_stops step →
  ∀ (done : nat) (m : Model),
    _stop m = false → (t m ≤ t_max m)%Z →
    (Z.to_nat (t_max m - t m) ≤ fuel)%nat →
    ∃ m', step_loop step fuel None done m
          = Failed RuntimeLimitError (done + Z.to_nat (t_max m - t m)) m'
      ∧ t m' = t_max m ∧ t_max m' = t_max m.
Proof.
  intros Hclock Hstop.
  induction fuel as [|fuel IH]; intros done m Hs Ht Hfuel.
  - exists m. simpl. rewrite bool_decide_eq_true_2 by lia.
    replace (Z.to_nat (t_max m - t m)) with 0%nat by lia.
    rewrite Nat.add_0_r. split; [done|]. split; [lia|done].
  - simpl. case_bool_decide as Hc.
    + exists m. replace (Z.to_nat (t_max m - t m)) with 0%nat by lia.
      rewrite Nat.add_0_r. split; [done|]. split; [lia|done].
    + rewrite Hs. simpl.
      destruct (Hclock (set_t (t m + 1) m)) as [Ht' Hmax'].
      simpl in Ht', Hmax'.
      destruct (IH (S done) (step (set_t (t m + 1) m))) as (m' & -> & Hm').
      * by apply Hstop.
      * rewrite Ht', Hmax'. lia.
      * rewrite Ht', Hmax'. lia.
      * exists m'. rewrite Hmax' in Hm'. rewrite Ht', Hmax'.
        split; [|done].
        replace (S done + Z.to_nat (t_max m - (t m + 1)))%nat
          with (done + Z.to_nat (t_max m - t m))%nat by lia.
        done.
Qed.

(** C7, amended: a Model without a [steps] parameter, run without a
    [steps] argument, under the ceiling of 1,000,000 that it is created
    with, not stopped and not past the ceiling, with hooks that never call
    [stop()] and leave the clock and the ceiling to the model: [run()]
    executes the steps up to the ceiling and raises [RuntimeLimitError]
    there, with [t] equal to 1,000,000; it does not return. *)
Theorem run_raises_at_ceiling (fuel : nat) (m : Model) :
  keeps_clock setup → keeps_clock step →
  never_stops setup → never_stops step →
  p m !! "steps" = None → _stop m = false →
  t_max m = hard_ceiling → (t m ≤ hard_ceiling)%Z →
  (Z.to_nat (hard_ceiling - t m) ≤ fuel)%nat →
  ∃ m', run setup step fuel None m
        = Failed RuntimeLimitError (Z.to_nat (hard_ceiling - t m)) m'
    ∧ t m' = 1000000%Z.
Proof.
  intros Hcs Hck Hss Hsk Hp Hstop Hmax Ht Hfuel.
  unfold run, effective_limit. rewrite Hp.
  destruct (Hcs m) as [Ht0 Hmax0].
  destruct (step_loop_reaches_ceiling fuel Hck Hsk 0 (setup m))
    as (m' & -> & Hm' & _).
  - by apply Hss.
  - rewrite Ht0, Hmax0, Hmax. done.
  - by rewrite Ht0, Hmax0, Hmax.
  - exists m'. rewrite Ht0, Hmax0, Hmax in *. done.
Qed.

(** C9: with [t_max] set to 0 the first step boundary raises: no step is
    executed and [t] is what it was before the run. *)
Theorem run_with_zero_ceiling (fuel : nat) (steps : option Z) (m : Model) :
  keeps_clock setup → t_max m = 0%Z → (0 ≤ t m)%Z →
  run setup step fuel steps m = Failed RuntimeLimitError 0 (setup m)
  ∧ executed (run setup step fuel steps m) = 0%nat
  ∧ t (final (run setup step fuel steps m)) = t m.
Proof.
  intros Hcs Hmax Ht. destruct (Hcs m) as [Ht0 Hmax0].
  assert (run setup step fuel steps m = Failed RuntimeLimitError 0 (setup m))
    as ->.
  { unfold run. destruct fuel; simpl;
      rewrite bool_decide_eq_true_2 by lia; done. }
  done.
Qed.

End stepping.

Import model.

(** C7, as the design document has it, fails on a Model whose ceiling was
    lowered, as [tests/test_model.py] does with [t_max = 0]: without a
    [steps] parameter and with hooks that do nothing, the error is raised
    at [t = 0], not at 1,000,000. *)
Lemma run_ceiling_lowered : ¬ design.run_ceiling_claim.
Proof.
  intros H.
  destruct (H id id (set_t_max 0 (new_model ∅))) as (fuel & n & m' & Hrun & Ht).
  - reflexivity.
  - intros m Hm. exact Hm.
  - assert (run id id fuel None (set_t_max 0 (new_model ∅))
            = Failed RuntimeLimitError 0 (set_t_max 0 (new_model ∅))) as Heq
      by (by destruct fuel).
    rewrite Heq in Hrun. injection Hrun as _ <-. discriminate Ht.
Qed.

(** The run of [tests/test_model.py] from [t = 999_999]: one step, then
    the error at 1,000,000. *)
Lemma run_raises_at_ceiling_witness :
  ∃ m', run id id 1 None (set_t 999999 (new_model ∅))
        = Failed RuntimeLimitError 1 m'
    ∧ t m' = 1000000%Z.
Proof.
  apply (run_raises_at_ceiling id id 1 (set_t 999999 (new_model ∅))).
  - intros m. split; reflexivity.
  - intros m. split; reflexivity.
  - intros m Hm. exact Hm.
  - intros m Hm. exact Hm.
  - reflexivity.
  - reflexivity.
  - reflexivity.
  - vm_compute. discriminate.
  - vm_compute. lia.
Defined.

(** The run of [tests/test_model.py] with [steps = 1] and [t_max = 0]. *)
Lemma run_with_zero_ceiling_witness :
  let m := set_t_max 0 (new_model {[ "steps" := 1%Z ]}) in
  run id id 5 None m = Failed RuntimeLimitError 0 m
  ∧ executed (run id id 5 None m) = 0%nat
  ∧ t (final (run id id 5 None m)) = 0%Z.
Proof.
  apply (run_with_zero_ceiling id id 5 None
           (set_t_max 0 (new_model {[ "steps" := 1%Z ]}))); done.
Defined.

(** ** The recorder *)

(** Two variables recorded one after the other on a Model whose log is
    empty. *)
Lemma record_two (index_key : string) (index_series : Z → list Z → list Z)
    (a b : string) (va vb : Z) (m : Model) :
  a ≠ b → index_key ≠ a → index_key ≠ b →
  attrs m !! a = Some va → attrs m !! b = Some vb → _log m = ∅ →
  ∃ m', record index_key index_series [a; b] m = Ok m'
        ∧ _log m'
          = {[ a := [va]; b := [vb];
               index_key
               := index_series (t m) (index_series (t m) []) ]}.
Proof.
  intros Hab Hka Hkb Ha Hb Hlog. unfold record.
  rewrite !for_each_cons. unfold record_one at 2. rewrite Ha, Hlog.
  cbn [mbind result_bind]. unfold record_one.
  cbn [attrs set_log _log t for_each]. rewrite Hb.
  eexists. split; [done|]. cbn [_log].
  apply map_eq. intros i.
  destruct (decide (i = a)) as [->|Hia];
    [|destruct (decide (i = b)) as [->|Hib];
      [|destruct (decide (i = index_key)) as [->|Hik]]];
    by simplify_map_eq.
Qed.

(** C8, as the design document has it, fails: [tests/test_model.py]
    counts three keys, the log having a series of the recorder's own
    beside the two of the variables. *)
Lemma record_log_has_third_series : ¬ record_two_keys_claim.
Proof.
  intros H.
  assert ("t" ∉ ["v1"; "v2"]) as Hk.
  { intros Hin. apply elem_of_cons in Hin as [Hin|Hin]; [discriminate Hin|].
    by apply list_elem_of_singleton in Hin. }
  specialize (H "t" (λ t s, s ++ [t]) _ Hk eq_refl).
  apply (f_equal (lookup "t")) in H. vm_compute in H. discriminate.
Qed.

(** C8, amended: on a fresh Model on which [v1] and [v2] were set,
    [record(['v1','v2'])] leaves a log with exactly three keys: the two
    variables, each with the one-element series of its value, and the
    series that the recorder keeps itself; [record] over the known
    variable keys of the model yields the identical log without the names
    being given. *)
Theorem record_log (index_key : string)
    (index_series : Z → list Z → list Z) (parameters : gmap string Z)
    (x y : Z) :
  index_key ∉ ["v1"; "v2"] →
  let m := setattr "v2" y (setattr "v1" x (new_model parameters)) in
  ∃ m' s, record index_key index_series ["v1"; "v2"] m = Ok m'
        ∧ _log m' = {[ "v1" := [x]; "v2" := [y]; index_key := s ]}
        ∧ size (_log m') = 3
        ∧ ∃ m'', record index_key index_series (var_keys m) m = Ok m''
                 ∧ _log m'' = _log m'.
Proof.
  intros Hk m.
  assert (index_key ≠ "v1" ∧ index_key ≠ "v2") as [Hk1 Hk2].
  { split; intros ->; apply Hk; [left|right; left]. }
  destruct (record_two index_key index_series "v1" "v2" x y m)
    as (m' & Hrec & Hlog); [done..|].
  exists m', (index_series 0 (index_series 0 []))%Z.
  split; [exact Hrec|]. split; [exact Hlog|]. split.
  - rewrite Hlog.
    rewrite !map_size_insert_None, map_size_singleton; [done|..];
      by simplify_map_eq.
  - assert (var_keys m = ["v1"; "v2"] ∨ var_keys m = ["v2"; "v1"]) as [-> | ->]
      by (vm_compute; auto).
    + by exists m'.
    + destruct (record_two index_key index_series "v2" "v1" y x m)
        as (m'' & Hrec' & Hlog'); [done..|].
      exists m''. split; [exact Hrec'|]. rewrite Hlog, Hlog'.
      apply map_eq. intros i.
      destruct (decide (i = "v1")) as [->|Hi1];
        [|destruct (decide (i = "v2")) as [->|Hi2];
          [|destruct (decide (i = index_key)) as [->|Hik]]];
        by simplify_map_eq.
Qed.

(** The recorder whose own series is that of the steps recorded at. *)
Lemma record_log_witness :
  let m := setattr "v2" 2 (setattr "v1" 1 (new_model ∅)) in
  ∃ m' s, record "t" (λ t s, if bool_decide (t ∈ s) then s else s ++ [t])
            ["v1"; "v2"] m = Ok m'
        ∧ _log m' = {[ "v1" := [1%Z]; "v2" := [2%Z]; "t" := s ]}
        ∧ size (_log m') = 3
        ∧ ∃ m'', record "t"
                   (λ t s, if bool_decide (t ∈ s) then s else s ++ [t])
                   (var_keys m) m = Ok m''
                 ∧ _log m'' = _log m'.
Proof.
  apply (record_log "t" (λ t s, if bool_decide (t ∈ s) then s else s ++ [t])
           ∅ 1 2).
  intros Hin. apply elem_of_cons in Hin as [Hin|Hin]; [discriminate Hin|].
  by apply list_elem_of_singleton in Hin.
Defined.

(** ** The registry *)

Lemma agent_ids_filter (i : Z) (l : list Agent) :
  agent_id <$> filter (λ a, agent_id a ≠ i) l
  = filter (λ j, j ≠ i) (agent_id <$> l).
Proof.
  induction l as [|a l IH]; [done|].
  rewrite fmap_cons, !filter_cons.
  destruct (decide (agent_id a ≠ i)); [by rewrite fmap_cons, IH|done].
Qed.

Lemma delete_registered (i : Z) (m : Model) :
  i ∈ agent_ids m →
  ∃ m', delete i m = Ok m'
        ∧ agent_ids m' = filter (λ j, j ≠ i) (agent_ids m)
        ∧ (∀ e, e ∈ envs (registry m') → i ∉ env_agents e)
        ∧ env_agents <$> envs (registry m')
          = (λ e, env_agents e ∖ {[ i ]})
              <$> filter (λ e, env_id e ≠ i) (envs (registry m)).
Proof.
  intros Hi. unfold delete, agent_ids in *.
  rewrite bool_decide_eq_true_2 by done. simpl.
  eexists. split; [done|]. simpl. split; [|split].
  - apply agent_ids_filter.
  - intros e (e0 & -> & _)%list_elem_of_fmap. simpl.
    intros [_ Hne]%elem_of_difference. apply Hne. by apply elem_of_singleton.
  - rewrite <- list_fmap_compose. done.
Qed.

(** C10: on a fresh Model [addAgents(3)] gives the agents the ids
    [1,2,3]; whatever environments the model then has, deleting the agent
    with id 2 leaves the agents [1,3] in the registry and takes id 2 out
    of the membership set of every environment, the other members
    staying. *)
Theorem delete_agent_two (parameters : gmap string Z) (type : string)
    (m : Model) :
  agent_ids m = [1; 2; 3]%Z →
  agent_ids (add_agents 3 type (new_model parameters)) = [1; 2; 3]%Z
  ∧ ∃ m', delete 2 m = Ok m'
          ∧ agent_ids m' = [1; 3]%Z
          ∧ (∀ e, e ∈ envs (registry m') → 2%Z ∉ env_agents e)
          ∧ env_agents <$> envs (registry m')
            = (λ e, env_agents e ∖ {[ 2%Z ]})
                <$> filter (λ e, env_id e ≠ 2%Z) (envs (registry m)).
Proof.
  intros Hids. split; [reflexivity|].
  destruct (delete_registered 2 m) as (m' & Hdel & Hag & Henv & Hrest).
  { rewrite Hids. set_solver. }
  exists m'. split; [done|]. split; [|done].
  rewrite Hag, Hids. reflexivity.
Qed.

(** The scenario of [tests/test_model.py]: three agents enter one
    environment, then the second is deleted. *)
Lemma delete_agent_two_witness :
  let m := env_add_agents 4 [1; 2; 3]%Z
             (add_env "Environment"
                (add_agents 3 "Agent" (new_model ∅))) in
  agent_ids m = [1; 2; 3]%Z
  ∧ ∃ m', delete 2 m = Ok m'
          ∧ agent_ids m' = [1; 3]%Z
          ∧ (∀ e, e ∈ envs (registry m') → 2%Z ∉ env_agents e)
          ∧ env_agents <$> envs (registry m')
            = (λ e, env_agents e ∖ {[ 2%Z ]})
                <$> filter (λ e, env_id e ≠ 2%Z) (envs (registry m)).
Proof.
  intros m. split; [reflexivity|].
  apply (delete_agent_two ∅ "Agent" m). reflexivity.
Defined.
